(** * GPS ingest gateway: the per-connection protocol engine

    A shallow embedding of the two read handlers of the repository:
    - [Framed]: the handler of [src/unnamed/part_000], which frames the TCP
      byte stream itself (login frame, AVL preamble and length) and calls the
      third-party decoder on complete frames;
    - [Delegated]: the handler of [src/index.js], which hands the whole
      buffer to the third-party decoder and derives the frame size afterwards.

    The decoder [ProtocolParser] (package complete-teltonika-parser) is not
    part of the repository: the handlers are modelled over an arbitrary
    decoder, a [Section] variable. *)

From Stdlib Require Import ZArith List String Ascii Bool Lia.
From Stdlib.Strings Require Import Byte.
From stdpp Require Import base option list gmap strings.

Local Open Scope Z_scope.

(** ** JavaScript values that occur in decoded records *)

(** Numbers are carried as integers (timestamps, speed, I/O values;
    coordinates in the unit the decoder reports them); [JNaN] is the one
    non-integer number the handlers can produce ([new Date(undefined)]).
    [JDate t] is a [Date] object with time value [t] ([None]: invalid). *)
Inductive JsVal : Type :=
  | JUndefined
  | JNull
  | JBool (b : bool)
  | JNum (n : Z)
  | JNaN
  | JDate (t : option Z).

#[global] Instance JsVal_eq_dec : EqDecision JsVal.
Proof. solve_decision. Defined.

(** [ToBoolean]: objects are truthy; [0], [NaN], [null], [undefined] and
    [false] are falsy. *)
Definition truthy (v : JsVal) : bool :=
  match v with
  | JUndefined | JNull | JNaN => false
  | JBool b => b
  | JNum n => negb (n =? 0)
  | JDate _ => true
  end.

(** [a || b] *)
Definition js_or (a b : JsVal) : JsVal := if truthy a then a else b.

(** [v === n] for a number literal [n] *)
Definition strict_eq_num (v : JsVal) (n : Z) : bool :=
  match v with
  | JNum m => m =? n
  | _ => false
  end.

(** [TimeClip] of ECMAScript: time values beyond 8.64e15 ms are invalid. *)
Definition TimeClip (n : Z) : JsVal :=
  if Z.abs n <=? 8640000000000000 then JNum n else JNaN.

(** [new Date(v).getTime()] for the values above: a [Date] argument gives
    its own time value, any other argument is converted to a number. *)
Definition Date_getTime (v : JsVal) : JsVal :=
  match v with
  | JDate (Some t) => JNum t
  | JDate None => JNaN
  | JNum n => TimeClip n
  | JNaN => JNaN
  | JUndefined => JNaN
  | JNull => JNum 0
  | JBool b => JNum (if b then 1 else 0)
  end.

(** A string as a condition: the empty string is falsy. *)
Definition truthy_str (o : option string) : bool :=
  match o with
  | Some s => negb (String.eqb s EmptyString)
  | None => false
  end.

(** ** Node [Buffer] primitives *)

Definition Buffer : Type := list byte.

Definition byte_val (b : byte) : Z := Z.of_N (Byte.to_N b).

Definition byte_of_Z (z : Z) : byte :=
  match Byte.of_N (Z.to_N (z mod 256)) with
  | Some b => b
  | None => x00
  end.

(** Big-endian value of a byte string. *)
Definition be_uint (bs : list byte) : Z :=
  fold_left (fun acc b => acc * 256 + byte_val b) bs 0.

(** [buf.readUIntBE]-style reads; [None] is the [RangeError] of a read
    past the end of the buffer. *)
Definition read_be (n : nat) (buf : Buffer) (off : nat) : option Z :=
  let bs := take n (drop off buf) in
  if decide (length bs = n) then Some (be_uint bs) else None.

Definition readUInt16BE (buf : Buffer) (off : nat) : option Z := read_be 2 buf off.
Definition readUInt32BE (buf : Buffer) (off : nat) : option Z := read_be 4 buf off.

(** [Buffer.alloc(4)] then [writeUInt32BE(v, 0)]; [None] is the
    [RangeError] for a value outside [0, 2^32). *)
Definition writeUInt32BE (v : Z) : option Buffer :=
  if (0 <=? v) && (v <? 2 ^ 32)
  then Some [byte_of_Z (v / 2 ^ 24); byte_of_Z (v / 2 ^ 16);
             byte_of_Z (v / 2 ^ 8); byte_of_Z v]
  else None.

(** [buf.toString('ascii')]: one character per byte, high bit cleared. *)
Definition ascii_char (b : byte) : ascii :=
  ascii_of_N (N.land (Byte.to_N b) 127).

Definition toString_ascii (buf : Buffer) : string :=
  string_of_list_ascii (map ascii_char buf).

(** [buf.slice(a, b)] and [buf.slice(a)] for in-range non-negative bounds. *)
Definition slice (buf : Buffer) (a b : nat) : Buffer := take (b - a) (drop a buf).
Definition slice_from (buf : Buffer) (a : nat) : Buffer := drop a buf.

(** Hexadecimal notation for concrete frames. *)
Definition hex_digit (c : ascii) : Z :=
  let n := Z.of_N (N_of_ascii c) in
  if (48 <=? n) && (n <=? 57) then n - 48
  else if (65 <=? n) && (n <=? 70) then n - 55
  else if (97 <=? n) && (n <=? 102) then n - 87
  else 0.

Fixpoint hex (s : string) : Buffer :=
  match s with
  | String a (String b rest) => byte_of_Z (16 * hex_digit a + hex_digit b) :: hex rest
  | _ => []
  end.

(** Outcome of a call that may throw. *)
Inductive Outcome (A : Type) : Type :=
  | Returns (a : A)
  | Throws.
Arguments Returns {A} a.
Arguments Throws {A}.

(** ** The session table *)

(** The object stored in [activeSessions] for a connection. *)
Record Session : Type := mkSession {
  imei : option string;
  connectedAt : Z;
  lastDataAt : Z;
  packetsReceived : Z;
  bytesReceived : Z
}.

(** The cap of the per-connection buffer: [64 * 1024]. *)
Definition BUFFER_CAP : Z := 64 * 1024.

(** * The explicit-framing handler ([src/unnamed/part_000]) *)

Module Framed.

(** ** Decoded records, as the handler reads them off the decoder's result *)

(** [record.GPSelement] *)
Record GPSelementT : Type := mkGPS {
  Latitude : JsVal;
  Longitude : JsVal;
  Speed : JsVal;
  Angle : JsVal;
  Altitude : JsVal;
  Satellites : JsVal
}.

(** [record.IOelement]; [Elements] is an object keyed by I/O id. *)
Record IOelementT : Type := mkIO {
  Elements : option (gmap Z JsVal)
}.

(** One entry of [parser.Content.AVL_Datas]. *)
Record AVL_Data : Type := mkAVL {
  Timestamp : JsVal;
  GPSelement : option GPSelementT;
  IOelement : option IOelementT
}.

Record ContentT : Type := mkContent {
  AVL_Datas : option (list AVL_Data)
}.

(** The object [new ProtocolParser(hex)] returns. *)
Record Parser : Type := mkParser {
  Content : option ContentT
}.

(** [record.GPSelement?.f] *)
Definition gps_field (f : GPSelementT -> JsVal) (record : AVL_Data) : JsVal :=
  match GPSelement record with
  | Some g => f g
  | None => JUndefined
  end.

(** [record.IOelement?.Elements?.[k]] *)
Definition io_element (k : Z) (record : AVL_Data) : JsVal :=
  match IOelement record with
  | Some io =>
      match Elements io with
      | Some els => default JUndefined (els !! k)
      | None => JUndefined
      end
  | None => JUndefined
  end.

(** The record sent to the Fleet API. *)
Record OutRecord : Type := mkOut {
  timestamp : JsVal;
  latitude : JsVal;
  longitude : JsVal;
  speed : JsVal;
  angle : JsVal;
  altitude : JsVal;
  satellites : JsVal;
  odometer : JsVal;
  ignition : JsVal
}.

(** The arrow function of [rawRecords.map(record => ({ ... }))],
    part_000 lines 186-196. *)
Definition formatRecord (record : AVL_Data) : OutRecord :=
  {| timestamp := Date_getTime (Timestamp record);
     latitude := js_or (gps_field Latitude record) (JNum 0);
     longitude := js_or (gps_field Longitude record) (JNum 0);
     speed := js_or (gps_field Speed record) (JNum 0);
     angle := js_or (gps_field Angle record) JNull;
     altitude := js_or (gps_field Altitude record) JNull;
     satellites := js_or (gps_field Satellites record) JNull;
     odometer := js_or (io_element 199 record) JNull;
     ignition :=
       if strict_eq_num (io_element 239 record) 1 then JBool true
       else if strict_eq_num (io_element 239 record) 0 then JBool false
       else JNull |}.

(** ** The connection state *)

(** Console lines that report a frame event. Lines that only report
    progress (bytes received, packet length, waiting for more bytes) are
    not recorded. *)
Inductive LogEvent : Type :=
  | LogBufferTooLarge (len : nat)      (* "Buffer too large" *)
  | LogAuthenticated (imeiString : string)
  | LogInvalidPreamble (preamble : Z)  (* "Invalid AVL preamble" *)
  | LogAcknowledged (n : nat)          (* "Acknowledged n records to device" *)
  | LogNoAvlData                       (* "Parser returned no AVL data" *)
  | LogParserError                     (* "Parser error" *)
  | LogClearing                        (* "Clearing buffer due to parse failure" *)
  | LogProcessingError                 (* "Error processing data" *)
  | LogDisconnected (packets : Z)
  | LogTimeout.

(** What the [data] callback works on: the [session] object it fetched
    from [activeSessions], the closure variables [authenticatedIMEI] and
    [dataBuffer], the socket (chunks written, destroyed or not), the
    [setImmediate] callbacks queued (each a call of [forwardToFleetee]) and
    the console. *)
Record State : Type := mkState {
  session : Session;
  authenticatedIMEI : option string;
  dataBuffer : Buffer;
  written : list Buffer;
  destroyed : bool;
  immediates : list (option string * list OutRecord);
  console : list LogEvent
}.

Definition set_buffer (b : Buffer) (st : State) : State :=
  mkState (session st) (authenticatedIMEI st) b (written st) (destroyed st)
          (immediates st) (console st).

Definition set_session (s : Session) (st : State) : State :=
  mkState s (authenticatedIMEI st) (dataBuffer st) (written st) (destroyed st)
          (immediates st) (console st).

Definition log (e : LogEvent) (st : State) : State :=
  mkState (session st) (authenticatedIMEI st) (dataBuffer st) (written st)
          (destroyed st) (immediates st) (console st ++ [e]).

(** [socket.write(b)] *)
Definition socket_write (b : Buffer) (st : State) : State :=
  mkState (session st) (authenticatedIMEI st) (dataBuffer st) (written st ++ [b])
          (destroyed st) (immediates st) (console st).

(** [socket.destroy()] *)
Definition socket_destroy (st : State) : State :=
  mkState (session st) (authenticatedIMEI st) (dataBuffer st) (written st)
          true (immediates st) (console st).

(** [setImmediate(async () => { await forwardToFleetee(authenticatedIMEI, records) })].
    The callback reads [authenticatedIMEI] when it runs; the variable is
    assigned once, before any callback is queued, so the value queued is
    the value read. *)
Definition setImmediate_forward (records : list OutRecord) (st : State) : State :=
  mkState (session st) (authenticatedIMEI st) (dataBuffer st) (written st)
          (destroyed st) (immediates st ++ [(authenticatedIMEI st, records)])
          (console st).

(** [session.packetsReceived++] *)
Definition count_packet (st : State) : State :=
  let s := session st in
  set_session (mkSession (imei s) (connectedAt s) (lastDataAt s)
                         (packetsReceived s + 1) (bytesReceived s)) st.

(** [session.imei = imeiString; authenticatedIMEI = imeiString] *)
Definition authenticate (imeiString : string) (st : State) : State :=
  let s := session st in
  mkState (mkSession (Some imeiString) (connectedAt s) (lastDataAt s)
                     (packetsReceived s) (bytesReceived s))
          (Some imeiString) (dataBuffer st) (written st) (destroyed st)
          (immediates st) (console st).

Inductive Control : Type := Continue | Break.

Section Handler.

(** [new ProtocolParser(dataBuffer.toString('hex'))]: the hexadecimal
    string renders the bytes one to one, so the decoder is taken as a
    function of the bytes. It returns an object or throws. *)
Variable ProtocolParser : Buffer -> Outcome Parser.

(** The [try] block of part_000 lines 178-220, with its [catch]: the
    value is the state and [bytesConsumed]. *)
Definition parse_avl (totalPacketSize : Z) (st : State) : State * Z :=
  match ProtocolParser (dataBuffer st) with
  | Throws => (log LogParserError st, totalPacketSize)
  | Returns parser =>
      match Content parser with
      | Some (mkContent (Some rawRecords)) =>
          if (0 <? length rawRecords)%nat then
            let records := map formatRecord rawRecords in
            let st1 := setImmediate_forward records st in
            match writeUInt32BE (Z.of_nat (length rawRecords)) with
            | None => (log LogParserError st1, totalPacketSize)
            | Some ackBuffer =>
                let st2 := socket_write ackBuffer st1 in
                let st3 := log (LogAcknowledged (length rawRecords)) st2 in
                (count_packet st3, totalPacketSize)
            end
          else (log LogNoAvlData st, totalPacketSize)
      | _ => (log LogNoAvlData st, totalPacketSize)
      end
  end.

(** One turn of [while (dataBuffer.length > 0)], part_000 lines 131-235. *)
Definition frame_step (st : State) : Control * State :=
  let login :=
    if negb (truthy_str (authenticatedIMEI st)) && (17 <=? length (dataBuffer st))%nat
    then match readUInt16BE (dataBuffer st) 0 with
         | Some imeiLength => if imeiLength =? 15 then Some true else Some false
         | None => None
         end
    else Some false in
  match login with
  | None => (Break, log LogProcessingError st)
  | Some true =>
      let imeiString := toString_ascii (slice (dataBuffer st) 2 17) in
      let st1 := count_packet (authenticate imeiString st) in
      let st2 := log (LogAuthenticated imeiString) st1 in
      let st3 := socket_write [x01] st2 in
      (Continue, set_buffer (slice_from (dataBuffer st3) 17) st3)
  | Some false =>
      if truthy_str (authenticatedIMEI st) && (8 <=? length (dataBuffer st))%nat
      then
        match readUInt32BE (dataBuffer st) 0 with
        | None => (Break, log LogProcessingError st)
        | Some preamble =>
            if negb (preamble =? 0)
            then (Break, set_buffer [] (log (LogInvalidPreamble preamble) st))
            else
              match readUInt32BE (dataBuffer st) 4 with
              | None => (Break, log LogProcessingError st)
              | Some dataLength =>
                  let totalPacketSize := 8 + dataLength + 4 in
                  if Z.of_nat (length (dataBuffer st)) <? totalPacketSize
                  then (Break, st)
                  else
                    let '(st1, bytesConsumed) := parse_avl totalPacketSize st in
                    if 0 <? bytesConsumed
                    then (Continue,
                          set_buffer (slice_from (dataBuffer st1) (Z.to_nat bytesConsumed)) st1)
                    else (Break, set_buffer [] (log LogClearing st1))
              end
        end
      else (Break, st)
  end.

(** The [while] loop, with a bound on its turns. [None]: the bound was
    reached before the loop ended. *)
Fixpoint frame_loop (fuel : nat) (st : State) : option State :=
  if (0 <? length (dataBuffer st))%nat then
    match fuel with
    | O => None
    | S fuel' =>
        match frame_step st with
        | (Continue, st') => frame_loop fuel' st'
        | (Break, st') => Some st'
        end
    end
  else Some st.

(** Every turn that continues shortens the buffer, so one turn per
    buffered byte is enough ([frame_loop_total] below). *)
Definition process_frames (st : State) : State :=
  match frame_loop (length (dataBuffer st)) st with
  | Some st' => st'
  | None => st
  end.

(** Lines 114-119: append the chunk, update the session statistics. *)
Definition arrive (now : Z) (chunk : Buffer) (st : State) : State :=
  let s := session st in
  mkState (mkSession (imei s) (connectedAt s) now (packetsReceived s)
                     (bytesReceived s + Z.of_nat (length chunk)))
          (authenticatedIMEI st) (dataBuffer st ++ chunk) (written st)
          (destroyed st) (immediates st) (console st).

(** The body of the [data] callback once [session] is found,
    part_000 lines 114-235. *)
Definition data_body (now : Z) (chunk : Buffer) (st : State) : State :=
  let st1 := arrive now chunk st in
  if BUFFER_CAP <? Z.of_nat (length (dataBuffer st1))
  then socket_destroy (log (LogBufferTooLarge (length (dataBuffer st1))) st1)
  else process_frames st1.

End Handler.

(** ** The connection in the process: the session table and the events *)

(** The process-wide [activeSessions] map together with the state of the
    connection [sessionId] under study. *)
Record World : Type := mkWorld {
  activeSessions : gmap string Session;
  authIMEI : option string;
  buffer : Buffer;
  sock_written : list Buffer;
  sock_destroyed : bool;
  queued : list (option string * list OutRecord);
  logged : list LogEvent
}.

Definition to_state (s : Session) (w : World) : State :=
  mkState s (authIMEI w) (buffer w) (sock_written w) (sock_destroyed w)
          (queued w) (logged w).

(** The [session] object is shared with the map: what the callback did
    to it is what the map holds afterwards. *)
Definition of_state (sessionId : string) (reg : gmap string Session) (st : State) : World :=
  mkWorld (<[sessionId := session st]> reg) (authenticatedIMEI st) (dataBuffer st)
          (written st) (destroyed st) (immediates st) (console st).

(** [handleGpsConnection(socket)], lines 68-82: a fresh session is
    registered; nothing is buffered, written or queued. *)
Definition handleGpsConnection (sessionId : string) (now : Z)
    (reg : gmap string Session) : World :=
  mkWorld (<[sessionId := mkSession None now now 0 0]> reg) None [] [] false [] [].

(** [cleanup], lines 85-92. *)
Definition cleanup (sessionId : string) (w : World) : World :=
  match activeSessions w !! sessionId with
  | Some s =>
      mkWorld (delete sessionId (activeSessions w)) (authIMEI w) [] (sock_written w)
              (sock_destroyed w) (queued w)
              (logged w ++ [LogDisconnected (packetsReceived s)])
  | None =>
      mkWorld (activeSessions w) (authIMEI w) [] (sock_written w)
              (sock_destroyed w) (queued w) (logged w)
  end.

(** The [timeout] callback, lines 103-106. *)
Definition on_timeout (w : World) : World :=
  mkWorld (activeSessions w) (authIMEI w) (buffer w) (sock_written w) true
          (queued w) (logged w ++ [LogTimeout]).

(** The [data] callback, lines 109-239. *)
Definition on_data (P : Buffer -> Outcome Parser) (sessionId : string)
    (now : Z) (chunk : Buffer) (w : World) : World :=
  match activeSessions w !! sessionId with
  | None => w
  | Some s => of_state sessionId (activeSessions w) (data_body P now chunk (to_state s w))
  end.

(** The socket events the handler subscribes to ([end], [close] and
    [error] all run [cleanup]). *)
Inductive SocketEvent : Type :=
  | EvData (now : Z) (chunk : Buffer)
  | EvEnd
  | EvClose
  | EvError
  | EvTimeout.

Definition handle (P : Buffer -> Outcome Parser) (sessionId : string)
    (e : SocketEvent) (w : World) : World :=
  match e with
  | EvData now chunk => on_data P sessionId now chunk w
  | EvEnd | EvClose | EvError => cleanup sessionId w
  | EvTimeout => on_timeout w
  end.

(** The world after a sequence of events, oldest first. *)
Definition run (P : Buffer -> Outcome Parser) (sessionId : string)
    (es : list SocketEvent) (w : World) : World :=
  fold_left (fun w e => handle P sessionId e w) es w.

(** The states a connection can be in: accepted, then any events. *)
Definition reachable (P : Buffer -> Outcome Parser) (sessionId : string) (w : World) : Prop :=
  exists now reg es, w = run P sessionId es (handleGpsConnection sessionId now reg).

(** ** Notions the properties below are stated with *)

(** The session has logged in: [authenticatedIMEI] is truthy. *)
Definition authenticated (st : State) : bool := truthy_str (authenticatedIMEI st).

(** The buffer starts with a complete AVL frame whose length field is
    [dataLength]: four zero bytes, the length, and at least
    [dataLength + 4] more bytes (lines 159-175). *)
Definition frame_at_head (buf : Buffer) (dataLength : Z) : Prop :=
  readUInt32BE buf 0 = Some 0 /\
  readUInt32BE buf 4 = Some dataLength /\
  8 + dataLength + 4 <= Z.of_nat (length buf).

(** The handler accepts the frame at the head of the buffer: the decoder
    returns a non-empty [Content.AVL_Datas] (line 181). *)
Definition accepts (P : Buffer -> Outcome Parser) (buf : Buffer)
    (rawRecords : list AVL_Data) : Prop :=
  exists parser, P buf = Returns parser /\
                 Content parser = Some (mkContent (Some rawRecords)) /\
                 rawRecords <> [].

(** A decoder that reads the frame at the head of the buffer only: bytes
    after a complete frame do not change its result. *)
Definition frame_local (P : Buffer -> Outcome Parser) : Prop :=
  forall buf rest dataLength,
    frame_at_head buf dataLength -> P (buf ++ rest) = P buf.

(** The console line of a preamble fault. *)
Definition is_preamble_fault (e : LogEvent) : bool :=
  match e with
  | LogInvalidPreamble _ => true
  | _ => false
  end.

(** The stream [S] delivered one byte per [data] event, the [i]-th byte
    at time [clock i]. *)
Definition bytewise (clock : nat -> Z) (S : Buffer) : list SocketEvent :=
  imap (fun i b => EvData (clock i) [b]) S.

(** Two worlds emitted the same: the same frame events on the console,
    the same chunks written to the socket, the same batches queued for the
    sink. *)
Definition same_emissions (w1 w2 : World) : Prop :=
  logged w1 = logged w2 /\
  sock_written w1 = sock_written w2 /\
  queued w1 = queued w2.

(** The two updates [arrive] is made of: the session statistics and the
    appended chunk. *)
Definition retime (now : Z) (n : Z) (st : State) : State :=
  let s := session st in
  mkState (mkSession (imei s) (connectedAt s) now (packetsReceived s)
                     (bytesReceived s + n))
          (authenticatedIMEI st) (dataBuffer st) (written st)
          (destroyed st) (immediates st) (console st).

Definition push (chunk : Buffer) (st : State) : State :=
  set_buffer (dataBuffer st ++ chunk) st.

(** The IMEI the closure holds is the one the session object holds, and
    an IMEI that was set has 15 characters. *)
Definition imei_invariant (st : State) : Prop :=
  imei (session st) = authenticatedIMEI st /\
  forall s, authenticatedIMEI st = Some s -> String.length s = 15%nat.

(** What holds between any two events of the connection [sessionId]. *)
Definition world_invariant (sessionId : string) (w : World) : Prop :=
  (sock_destroyed w = false -> Z.of_nat (length (buffer w)) <= BUFFER_CAP) /\
  (forall s, authIMEI w = Some s -> String.length s = 15%nat) /\
  (forall sess, activeSessions w !! sessionId = Some sess -> imei sess = authIMEI w).

(** An acknowledgement of AVL records: four bytes that encode a count of
    at least one. *)
Definition is_ack (b : Buffer) : Prop := length b = 4%nat /\ 1 <= be_uint b.

(** What the socket has been sent and the sink has been queued, against
    what the session counts: every counted packet is one chunk written;
    the first chunk written is the login acknowledgement 0x01, the others
    acknowledge records, each after its batch was queued; and every batch
    is queued under the IMEI of the session, with at least one record. *)
Definition protocol_invariant (st : State) : Prop :=
  packetsReceived (session st) = Z.of_nat (length (written st)) /\
  ((authenticated st = false /\ written st = [] /\ immediates st = []) \/
   (authenticated st = true /\
    exists acks, written st = [x01] :: acks /\ Forall is_ack acks /\
                 (length acks <= length (immediates st))%nat)) /\
  Forall (fun b => fst b = authenticatedIMEI st /\ snd b <> []) (immediates st).

(** The loop has nothing to do with this buffer until more bytes arrive:
    it is empty, or too short for a login frame or announces a login
    length other than 15 (before the login), or too short for an AVL
    header or for the frame its header announces (after the login). *)
Definition waiting_for_more (auth : option string) (buf : Buffer) : Prop :=
  buf = [] \/
  (truthy_str auth = false /\
   ((length buf < 17)%nat \/ exists v, readUInt16BE buf 0 = Some v /\ v <> 15)) \/
  (truthy_str auth = true /\ (length buf < 8)%nat) \/
  (truthy_str auth = true /\ (8 <= length buf)%nat /\
   readUInt32BE buf 0 = Some 0 /\
   exists dataLength, readUInt32BE buf 4 = Some dataLength /\
                      Z.of_nat (length buf) < 8 + dataLength + 4).

(** The [data] events of a list of timed chunks. *)
Definition data_events (cs : list (Z * Buffer)) : list SocketEvent :=
  map (fun tc => EvData (fst tc) (snd tc)) cs.

(** [protocol_invariant] for the connection [sessionId] among the
    events: the packet count is the one of the session in the table, while
    it is there. *)
Definition world_protocol (sessionId : string) (w : World) : Prop :=
  (forall s, activeSessions w !! sessionId = Some s ->
             packetsReceived s = Z.of_nat (length (sock_written w))) /\
  ((truthy_str (authIMEI w) = false /\ sock_written w = [] /\ queued w = []) \/
   (truthy_str (authIMEI w) = true /\
    exists acks, sock_written w = [x01] :: acks /\ Forall is_ack acks /\
                 (length acks <= length (queued w))%nat)) /\
  Forall (fun b => fst b = authIMEI w /\ snd b <> []) (queued w).

End Framed.

(** * The decoder-delegating handler ([src/index.js]) *)

Module Delegated.

(** ** Decoded records, as this handler reads them *)

(** An entry of [record.ioElements]: [io.id] and [io.value]. *)
Record IoElement : Type := mkIo {
  io_id : JsVal;
  io_value : JsVal
}.

(** An entry of [parsed.avl.data]; field [rec_f] is [record.f]. *)
Record RawRecord : Type := mkRaw {
  rec_timestampMs : JsVal;
  rec_latitude : JsVal;
  rec_longitude : JsVal;
  rec_speed : JsVal;
  rec_angle : JsVal;
  rec_ioElements : option (list IoElement)
}.

(** [parser.avl] *)
Record AvlT : Type := mkAvl {
  data : option (list RawRecord)
}.

(** The object [new ProtocolParser(hex)] returns: [parser.imei] and
    [parser.avl]. *)
Record Parser : Type := mkParser {
  parser_imei : option string;
  parser_avl : option AvlT
}.

(** [record.ioElements?.find(io => io.id === k)?.value] *)
Definition find_io (k : Z) (record : RawRecord) : JsVal :=
  match rec_ioElements record with
  | Some ios =>
      match List.find (fun io => strict_eq_num (io_id io) k) ios with
      | Some io => io_value io
      | None => JUndefined
      end
  | None => JUndefined
  end.

(** The record sent to the Fleet API. *)
Record OutRecord : Type := mkOut {
  timestamp : JsVal;
  latitude : JsVal;
  longitude : JsVal;
  speed : JsVal;
  angle : JsVal;
  odometer : JsVal;
  ignition : JsVal
}.

(** The arrow function of [rawRecords.map(record => ({ ... }))],
    index.js lines 203-211. [now] is the value [Date.now()] returns. *)
Definition formatRecord (now : Z) (record : RawRecord) : OutRecord :=
  {| timestamp := js_or (rec_timestampMs record) (JNum now);
     latitude := js_or (rec_latitude record) (JNum 0);
     longitude := js_or (rec_longitude record) (JNum 0);
     speed := js_or (rec_speed record) JNull;
     angle := js_or (rec_angle record) JNull;
     odometer := js_or (find_io 199 record) JNull;
     ignition :=
       if strict_eq_num (find_io 239 record) 1 then JBool true else JNull |}.

(** ** The connection state *)

(** Console lines that report a frame event. Lines that only report
    progress (bytes received, records being processed, waiting for more
    data) are not recorded. *)
Inductive LogEvent : Type :=
  | LogBufferTooLarge (len : nat)
  | LogCouldNotDetermine               (* "Could not determine frame size, clearing buffer" *)
  | LogAuthenticated (imeiString : string)
  | LogAvlWithoutImei                  (* "Received AVL data without IMEI" *)
  | LogAcknowledged (n : nat)
  | LogProcessingError                 (* "Error processing data" *)
  | LogDisconnected (packets : Z)
  | LogTimeout.

Record State : Type := mkState {
  session : Session;
  authenticatedIMEI : option string;
  dataBuffer : Buffer;
  written : list Buffer;
  destroyed : bool;
  immediates : list (option string * list OutRecord);
  console : list LogEvent
}.

Definition set_buffer (b : Buffer) (st : State) : State :=
  mkState (session st) (authenticatedIMEI st) b (written st) (destroyed st)
          (immediates st) (console st).

Definition log (e : LogEvent) (st : State) : State :=
  mkState (session st) (authenticatedIMEI st) (dataBuffer st) (written st)
          (destroyed st) (immediates st) (console st ++ [e]).

Definition socket_write (b : Buffer) (st : State) : State :=
  mkState (session st) (authenticatedIMEI st) (dataBuffer st) (written st ++ [b])
          (destroyed st) (immediates st) (console st).

Definition socket_destroy (st : State) : State :=
  mkState (session st) (authenticatedIMEI st) (dataBuffer st) (written st)
          true (immediates st) (console st).

(** [setImmediate(async () => { await forwardToFleetee(imei, records) })] *)
Definition setImmediate_forward (imei : option string) (records : list OutRecord)
    (st : State) : State :=
  mkState (session st) (authenticatedIMEI st) (dataBuffer st) (written st)
          (destroyed st) (immediates st ++ [(imei, records)]) (console st).

(** [session.packetsReceived++] *)
Definition count_packet (st : State) : State :=
  let s := session st in
  mkState (mkSession (imei s) (connectedAt s) (lastDataAt s)
                     (packetsReceived s + 1) (bytesReceived s))
          (authenticatedIMEI st) (dataBuffer st) (written st) (destroyed st)
          (immediates st) (console st).

(** [session.imei = parsed.imei; authenticatedIMEI = parsed.imei] *)
Definition authenticate (parsed_imei : option string) (st : State) : State :=
  let s := session st in
  mkState (mkSession parsed_imei (connectedAt s) (lastDataAt s)
                     (packetsReceived s) (bytesReceived s))
          parsed_imei (dataBuffer st) (written st) (destroyed st)
          (immediates st) (console st).

Inductive Control : Type := Continue | Break.

Section Handler.

Variable ProtocolParser : Buffer -> Outcome Parser.

(** Lines 156-167: the frame size derived from what the decoder found. *)
Definition frame_size (parsed_imei : option string) (parsed_avl : option AvlT)
    (buf : Buffer) : option Z :=
  if truthy_str parsed_imei && negb (bool_decide (is_Some parsed_avl)) then Some 17
  else if bool_decide (is_Some parsed_avl) then
    if (8 <=? length buf)%nat then
      match readUInt32BE buf 4 with
      | Some dataLength => Some (8 + dataLength + 4)
      | None => None
      end
    else Some 0
  else Some 0.

(** Lines 191-225: the AVL records of a consumed frame. *)
Definition process_avl (now : Z) (parsed_avl : option AvlT) (st : State) : Control * State :=
  match parsed_avl with
  | Some (mkAvl (Some rawRecords)) =>
      if (0 <? length rawRecords)%nat then
        let imei := if truthy_str (imei (session st)) then imei (session st)
                    else authenticatedIMEI st in
        if negb (truthy_str imei) then (Continue, log LogAvlWithoutImei st)
        else
          let records := map (formatRecord now) rawRecords in
          let st1 := setImmediate_forward imei records st in
          match writeUInt32BE (Z.of_nat (length rawRecords)) with
          | None => (Break, log LogProcessingError st1)
          | Some ackBuffer =>
              (Continue, log (LogAcknowledged (length rawRecords))
                             (socket_write ackBuffer st1))
          end
      else (Continue, st)
  | _ => (Continue, st)
  end.

(** One turn of [while (dataBuffer.length > 0)], index.js lines 132-226. *)
Definition frame_step (now : Z) (st : State) : Control * State :=
  match ProtocolParser (dataBuffer st) with
  | Throws => (Break, st)
  | Returns parser =>
      let parsed_imei := if truthy_str (parser_imei parser) then parser_imei parser else None in
      let parsed_avl := parser_avl parser in
      match frame_size parsed_imei parsed_avl (dataBuffer st) with
      | None => (Break, log LogProcessingError st)
      | Some bytesConsumed =>
          if (bytesConsumed =? 0) || (Z.of_nat (length (dataBuffer st)) <? bytesConsumed)
          then (Break, set_buffer [] (log LogCouldNotDetermine st))
          else
            let st1 := count_packet
                         (set_buffer (slice_from (dataBuffer st) (Z.to_nat bytesConsumed)) st) in
            if truthy_str parsed_imei && negb (truthy_str (imei (session st1)))
            then (Continue,
                  socket_write [x01]
                    (log (LogAuthenticated (default EmptyString parsed_imei))
                         (authenticate parsed_imei st1)))
            else process_avl now parsed_avl st1
      end
  end.

Fixpoint frame_loop (fuel : nat) (now : Z) (st : State) : option State :=
  if (0 <? length (dataBuffer st))%nat then
    match fuel with
    | O => None
    | S fuel' =>
        match frame_step now st with
        | (Continue, st') => frame_loop fuel' now st'
        | (Break, st') => Some st'
        end
    end
  else Some st.

Definition process_frames (now : Z) (st : State) : State :=
  match frame_loop (length (dataBuffer st)) now st with
  | Some st' => st'
  | None => st
  end.

(** Lines 114-119. *)
Definition arrive (now : Z) (chunk : Buffer) (st : State) : State :=
  let s := session st in
  mkState (mkSession (imei s) (connectedAt s) now (packetsReceived s)
                     (bytesReceived s + Z.of_nat (length chunk)))
          (authenticatedIMEI st) (dataBuffer st ++ chunk) (written st)
          (destroyed st) (immediates st) (console st).

(** The body of the [data] callback once [session] is found, index.js
    lines 114-226. The clock is read as [now] throughout one callback. *)
Definition data_body (now : Z) (chunk : Buffer) (st : State) : State :=
  let st1 := arrive now chunk st in
  if BUFFER_CAP <? Z.of_nat (length (dataBuffer st1))
  then socket_destroy (log (LogBufferTooLarge (length (dataBuffer st1))) st1)
  else process_frames now st1.

End Handler.

(** [handleGpsConnection(socket)], index.js lines 68-80: the state a
    connection starts in. *)
Definition handleGpsConnection (now : Z) : State :=
  mkState (mkSession None now now 0 0) None [] [] false [] [].

(** The [data] callbacks of a connection while its session is
    registered, oldest first: each chunk with the time it arrives at. *)
Definition receive (P : Buffer -> Outcome Parser) (chunks : list (Z * Buffer))
    (st : State) : State :=
  fold_left (fun st c => data_body P (fst c) (snd c) st) chunks st.

(** ** Notions the properties below are stated with *)

(** The session has logged in: [authenticatedIMEI] is truthy. *)
Definition authenticated (st : State) : bool := truthy_str (authenticatedIMEI st).

(** What the socket has been sent and the sink has been queued: the
    session and the connection agree on the IMEI; nothing is written or
    queued before the login; the first chunk written is the login
    acknowledgement 0x01, the others acknowledge records, each after its
    batch was queued; and every batch is queued under the IMEI of the
    connection and is not empty. *)
Definition protocol_invariant (st : State) : Prop :=
  imei (session st) = authenticatedIMEI st /\
  ((authenticated st = false /\ written st = [] /\ immediates st = []) \/
   (authenticated st = true /\
    exists acks, written st = [x01] :: acks /\ Forall Framed.is_ack acks /\
                 (length acks <= length (immediates st))%nat)) /\
  Forall (fun b => fst b = authenticatedIMEI st /\ snd b <> []) (immediates st).

End Delegated.

(** * A reference decoder for concrete frames *)

Module Codec8.

(** Modelled from the spec: the CRC-16/IBM of §3 (polynomial 0xA001,
    initial value 0). The handlers compute no checksum themselves; the
    definition states what a checksum mismatch is. *)
Definition crc16_bit (c : Z) : Z :=
  if Z.testbit c 0 then Z.lxor (Z.shiftr c 1) 0xA001 else Z.shiftr c 1.

Definition crc16_byte (crc : Z) (b : byte) : Z :=
  Nat.iter 8 crc16_bit (Z.lxor crc (byte_val b)).

Definition crc16 (bs : Buffer) : Z := fold_left crc16_byte bs 0.

(** The fields of an AVL frame on the wire (§3): the data field and the
    stored checksum of a buffer that starts with a complete frame. *)
Definition data_field (buf : Buffer) : Buffer :=
  match readUInt32BE buf 4 with
  | Some dataLength => take (Z.to_nat dataLength) (drop 8 buf)
  | None => []
  end.

Definition stored_crc (buf : Buffer) : option Z :=
  match readUInt32BE buf 4 with
  | Some dataLength => readUInt32BE buf (8 + Z.to_nat dataLength)
  | None => None
  end.

(** A reader consumes a prefix of the bytes or fails. *)
Definition Reader (A : Type) : Type := Buffer -> option (A * Buffer).

Definition ret {A} (a : A) : Reader A := fun buf => Some (a, buf).

Definition bind {A B} (r : Reader A) (k : A -> Reader B) : Reader B :=
  fun buf =>
    match r buf with
    | Some (a, rest) => k a rest
    | None => None
    end.

Notation "x <- r ;; k" := (bind r (fun x => k))
  (at level 100, r at next level, right associativity).

(** An unsigned big-endian integer of [n] bytes. *)
Definition uint (n : nat) : Reader Z :=
  fun buf =>
    if decide (n <= length buf)%nat
    then Some (be_uint (take n buf), drop n buf)
    else None.

(** A two's complement big-endian integer of [n] bytes. *)
Definition sint (n : nat) : Reader Z :=
  v <- uint n ;;
  ret (if v <? 2 ^ (8 * Z.of_nat n - 1) then v else v - 2 ^ (8 * Z.of_nat n)).

(** [count] pairs of an I/O id of [w] bytes and a value of [vw] bytes. *)
Fixpoint io_pairs (w vw : nat) (count : nat) : Reader (list (Z * JsVal)) :=
  match count with
  | O => ret []
  | S count' =>
      id <- uint w ;;
      v <- uint vw ;;
      rest <- io_pairs w vw count' ;;
      ret ((id, JNum v) :: rest)
  end.

Definition io_block (w vw : nat) : Reader (list (Z * JsVal)) :=
  count <- uint w ;;
  io_pairs w vw (Z.to_nat count).

(** Codec 8E's block of variable-length values: id, length, bytes. *)
Fixpoint io_var_pairs (count : nat) : Reader (list (Z * JsVal)) :=
  match count with
  | O => ret []
  | S count' =>
      id <- uint 2 ;;
      len <- uint 2 ;;
      v <- uint (Z.to_nat len) ;;
      rest <- io_var_pairs count' ;;
      ret ((id, JNum v) :: rest)
  end.

Definition io_var_block : Reader (list (Z * JsVal)) :=
  count <- uint 2 ;;
  io_var_pairs (Z.to_nat count).

(** One AVL record; [w] is the width of I/O ids and counts (1 for Codec
    8, 2 for Codec 8E). *)
Definition avl_record (w : nat) : Reader Framed.AVL_Data :=
  timestamp_ms <- uint 8 ;;
  priority <- uint 1 ;;
  longitude <- sint 4 ;;
  latitude <- sint 4 ;;
  altitude <- sint 2 ;;
  angle <- uint 2 ;;
  satellites <- uint 1 ;;
  speed <- uint 2 ;;
  event_io_id <- uint w ;;
  total_io_count <- uint w ;;
  b1 <- io_block w 1 ;;
  b2 <- io_block w 2 ;;
  b4 <- io_block w 4 ;;
  b8 <- io_block w 8 ;;
  bx <- (if decide (w = 2%nat) then io_var_block else ret []) ;;
  ret (Framed.mkAVL
         (JDate (Some timestamp_ms))
         (Some (Framed.mkGPS (JNum latitude) (JNum longitude) (JNum speed)
                             (JNum angle) (JNum altitude) (JNum satellites)))
         (Some (Framed.mkIO (Some (list_to_map (b1 ++ b2 ++ b4 ++ b8 ++ bx)))))).

Fixpoint avl_records (w : nat) (count : nat) : Reader (list Framed.AVL_Data) :=
  match count with
  | O => ret []
  | S count' =>
      r <- avl_record w ;;
      rest <- avl_records w count' ;;
      ret (r :: rest)
  end.

(** The data field: codec id, record count, the records, the count again. *)
Definition avl_data_field : Reader (list Framed.AVL_Data) :=
  codec_id <- uint 1 ;;
  if (codec_id =? 0x08) || (codec_id =? 0x8E) then
    record_count_1 <- uint 1 ;;
    records <- avl_records (if codec_id =? 0x08 then 1%nat else 2%nat)
                           (Z.to_nat record_count_1) ;;
    record_count_2 <- uint 1 ;;
    if record_count_1 =? record_count_2 then ret records else (fun _ => None)
  else (fun _ => None).

(** Modelled from the spec: the decoder of §4.B rule 2 for the frame at
    the head of the buffer, standing in for the third-party
    [ProtocolParser], which is not part of the repository. Every fault and
    an incomplete frame are a thrown exception; a decoded frame is the
    object the handler of part_000 reads. *)
Definition decode (buf : Buffer) : Outcome Framed.Parser :=
  match readUInt32BE buf 0, readUInt32BE buf 4 with
  | Some preamble, Some dataLength =>
      if (preamble =? 0) && (0 <? dataLength) && (dataLength <=? 65528)
         && (8 + dataLength + 4 <=? Z.of_nat (length buf))
      then
        match avl_data_field (data_field buf), stored_crc buf with
        | Some (records, []), Some crc =>
            if crc mod 2 ^ 16 =? crc16 (data_field buf)
            then Returns (Framed.mkParser (Some (Framed.mkContent (Some records))))
            else Throws
        | _, _ => Throws
        end
      else Throws
  | _, _ => Throws
  end.

(** The same decoder without the checksum comparison: a decoder may leave
    the checksum to its caller. *)
Definition decode_unchecked (buf : Buffer) : Outcome Framed.Parser :=
  match readUInt32BE buf 0, readUInt32BE buf 4 with
  | Some preamble, Some dataLength =>
      if (preamble =? 0) && (0 <? dataLength) && (dataLength <=? 65528)
         && (8 + dataLength + 4 <=? Z.of_nat (length buf))
      then
        match avl_data_field (data_field buf) with
        | Some (records, []) =>
            Returns (Framed.mkParser (Some (Framed.mkContent (Some records))))
        | _ => Throws
        end
      else Throws
  | _, _ => Throws
  end.

(** A decoder that takes its input for one frame and reads the checksum
    from the last four bytes of the input. *)
Definition decode_whole (buf : Buffer) : Outcome Framed.Parser :=
  match readUInt32BE buf 4 with
  | Some dataLength =>
      if Z.of_nat (length buf) =? 8 + dataLength + 4 then decode buf else Throws
  | None => Throws
  end.

(** Modelled from the spec: the decoder as the handler of index.js reads
    it. What the decoder of §4.B returns for a frame is the object
    part_000 reads under [Content]; the properties [imei] and [avl] that
    index.js reads are none of its own, so both read as [undefined] on
    every object it returns. Where it throws, it throws. *)
Definition decode_for_index (buf : Buffer) : Outcome Delegated.Parser :=
  match decode buf with
  | Returns _ => Returns (Delegated.mkParser None None)
  | Throws => Throws
  end.

(** The stored checksum of the frame at the head of the buffer differs,
    in its low 16 bits, from the CRC-16/IBM of the data field. *)
Definition crc_mismatch (buf : Buffer) : Prop :=
  exists c, stored_crc buf = Some c /\ c mod 2 ^ 16 <> crc16 (data_field buf).

(** A decoder that verifies the checksum: it throws on a mismatch. *)
Definition rejects_bad_crc (P : Buffer -> Outcome Framed.Parser) : Prop :=
  forall buf, crc_mismatch buf -> P buf = Throws.

(** ** Concrete frames *)

(** The login frame of scenario 1: length 15, IMEI 356307042441013. *)
Definition login_frame : Buffer := hex "000F333536333037303432343431303133".

(** A login frame whose payload is the letters A to O. *)
Definition login_letters : Buffer := hex "000F4142434445464748494A4B4C4D4E4F".

(** The frame of scenario 2: length 14, then 14 digits. *)
Definition login_short : Buffer := hex "000E3335363330373034323434313031".

(** The data field of a Codec 8 frame with one record, as in scenario 3:
    timestamp 0x0000016B40D8EA30, priority 1, longitude 0x0F0B9AE0,
    latitude 0x0209A6D8, no I/O elements. *)
Definition one_record_data : Buffer :=
  hex "08010000016B40D8EA30010F0B9AE00209A6D80000000000000000000000000001".

(** A Codec 8 data field with no record. *)
Definition no_record_data : Buffer := hex "080000".

(** A frame around a data field: preamble, length, data, checksum. *)
Definition frame_of (dat : Buffer) (crc : Z) : Buffer :=
  hex "00000000" ++ default [] (writeUInt32BE (Z.of_nat (length dat)))
    ++ dat ++ default [] (writeUInt32BE crc).

Definition one_record_frame : Buffer := frame_of one_record_data (crc16 one_record_data).

(** The same frame with the last byte of the checksum flipped (scenario 6). *)
Definition bad_crc_frame : Buffer :=
  frame_of one_record_data (Z.lxor (crc16 one_record_data) 0xFF).

Definition no_record_frame : Buffer := frame_of no_record_data (crc16 no_record_data).

(** A session that has logged in with the frame of scenario 1. *)
Definition logged_in : Framed.World :=
  Framed.on_data decode "dev" 1 login_frame (Framed.handleGpsConnection "dev" 0 ∅).

(** A connection that has logged in and sent one frame with one record. *)
Definition tracked : Framed.World :=
  Framed.run decode "dev"
    [Framed.EvData 1 login_frame; Framed.EvData 2 one_record_frame]
    (Framed.handleGpsConnection "dev" 0 ∅).

End Codec8.

(** * The sink dispatcher, the status endpoint and the start-up checks *)

Module Sink.

(** The request [forwardToFleetee] passes to [fetch]. The body is the
    JSON text of the object [{ imei, records }]; the object is kept, the
    serialization is [JSON.stringify]'s. *)
Record Request (R : Type) : Type := mkRequest {
  url : string;
  method : string;
  headers : list (string * string);
  body_imei : option string;
  body_records : list R
}.
Arguments mkRequest {R} _ _ _ _ _.
Arguments url {R} _.
Arguments method {R} _.
Arguments headers {R} _.
Arguments body_imei {R} _.
Arguments body_records {R} _.

(** What [await response.json()] gives: an exception (the body is not
    JSON), the value [null], or any other value, of which the function
    reads [accepted] and [total] ([undefined] when it has none). *)
Inductive JsonBody : Type :=
  | BodyNotJson
  | BodyNull
  | BodyObject (accepted total : JsVal).

(** The response [fetch] resolves to. *)
Record Response : Type := mkResponse {
  ok : bool;
  status : Z;
  json : JsonBody
}.

(** The object the function returns. *)
Record ForwardResult : Type := mkResult {
  success : bool;
  accepted_count : JsVal
}.

Inductive ApiLog : Type :=
  | ApiError (status : Z)                 (* "[API] Error from Fleetee" *)
  | ApiAccepted (accepted total : JsVal)  (* "[API] Fleetee accepted a/t records" *)
  | ApiFailed.                            (* "[API] Failed to forward data" *)

Section Forward.

Context {R : Type}.

(** The environment: the two configuration values and the network, a
    [fetch] that resolves to a response or rejects. *)
Variable FLEETEE_API_URL : string.
Variable GPS_SERVER_SECRET : string.
Variable fetch : Request R -> Outcome Response.

(** index.js and part_000 lines 43-50. *)
Definition ingest_request (imei : option string) (records : list R) : Request R :=
  mkRequest (FLEETEE_API_URL ++ "/api/gps/ingest")%string "POST"
            [("Content-Type", "application/json");
             ("Authorization", ("Bearer " ++ GPS_SERVER_SECRET))]%string
            imei records.

(** [forwardToFleetee], lines 41-65: the value the promise resolves to
    and the console line written. *)
Definition forwardToFleetee (imei : option string) (records : list R)
    : ForwardResult * ApiLog :=
  match fetch (ingest_request imei records) with
  | Throws => (mkResult false (JNum 0), ApiFailed)
  | Returns response =>
      match json response with
      | BodyNotJson => (mkResult false (JNum 0), ApiFailed)
      | BodyNull =>
          if negb (ok response)
          then (mkResult false (JNum 0), ApiError (status response))
          else (mkResult false (JNum 0), ApiFailed)
      | BodyObject accepted total =>
          if negb (ok response)
          then (mkResult false (JNum 0), ApiError (status response))
          else (mkResult true accepted, ApiAccepted accepted total)
      end
  end.

(** The [setImmediate] callbacks of a connection, run in the order they
    were queued: one call of [forwardToFleetee] per batch. *)
Definition dispatch (queue : list (option string * list R))
    : list (Request R * (ForwardResult * ApiLog)) :=
  map (fun b => (ingest_request (fst b) (snd b), forwardToFleetee (fst b) (snd b))) queue.

End Forward.

End Sink.

Module Status.

(** An entry of [sessions] in the status report: lines 279-284 of
    index.js, 288-293 of part_000. *)
Record Snapshot : Type := mkSnapshot {
  snap_id : string;
  snap_imei : option string;
  snap_connectedAt : Z;
  snap_packetsReceived : Z
}.

(** The object [stats]. *)
Record Stats : Type := mkStats {
  stats_status : string;
  uptime : Z;
  stats_activeSessions : nat;
  sessions : list Snapshot
}.

Inductive StatusResponse : Type :=
  | Ok200 (stats : Stats)     (* 200, application/json, the report *)
  | NotFound404.              (* 404, "Not Found" *)

Definition snapshot (entry : string * Session) : Snapshot :=
  mkSnapshot (fst entry) (imei (snd entry)) (connectedAt (snd entry))
             (packetsReceived (snd entry)).

(** The request listener of [statusServer]. [process_uptime] is what
    [process.uptime()] returns. The entries of the map are listed in the
    order of [map_to_list], which is not the insertion order a JavaScript
    [Map] iterates in: the properties below do not depend on the order. *)
Definition statusServer (req_url : string) (process_uptime : Z)
    (activeSessions : gmap string Session) : StatusResponse :=
  if String.eqb req_url "/health" || String.eqb req_url "/"
  then Ok200 (mkStats "running" process_uptime (size activeSessions)
                      (map snapshot (map_to_list activeSessions)))
  else NotFound404.

(** The sessions a response lists: none when the path was not found. *)
Definition listed (r : StatusResponse) : list Snapshot :=
  match r with
  | Ok200 stats => sessions stats
  | NotFound404 => []
  end.

End Status.

Module Bootstrap.

(** [process.env]: a variable that is not set reads as [undefined]. *)
Definition getenv (env : gmap string string) (name : string) : option string :=
  env !! name.

(** A port: the string of the environment or the default number. *)
Inductive Port : Type :=
  | PortEnv (value : string)
  | PortDefault (n : Z).

(** [process.env.NAME || n] *)
Definition port_or (env : gmap string string) (name : string) (n : Z) : Port :=
  match getenv env name with
  | Some v => if truthy_str (Some v) then PortEnv v else PortDefault n
  | None => PortDefault n
  end.

Record Config : Type := mkConfig {
  TCP_PORT : Port;
  FLEETEE_API_URL : string;
  GPS_SERVER_SECRET : string;
  statusPort : Port
}.

Inductive StartError : Type :=
  | MissingApiUrl     (* "ERROR: FLEETEE_API_URL environment variable is required!" *)
  | MissingSecret.    (* "ERROR: GPS_SERVER_SECRET environment variable is required!" *)

(** Lines 21-35 and the status port: the configuration the servers are
    started with, or the error printed before [process.exit(1)]. *)
Definition configure (env : gmap string string) : StartError + Config :=
  match getenv env "FLEETEE_API_URL" with
  | Some api_url =>
      if truthy_str (Some api_url) then
        match getenv env "GPS_SERVER_SECRET" with
        | Some secret =>
            if truthy_str (Some secret)
            then inr (mkConfig (port_or env "TCP_PORT" 5000) api_url secret
                               (port_or env "STATUS_PORT" 3000))
            else inl MissingSecret
        | None => inl MissingSecret
        end
      else inl MissingApiUrl
  | None => inl MissingApiUrl
  end.

End Bootstrap.

(** * Properties of the record normalizers *)

Section Normalizer.

Import Framed.

Lemma js_or_null_num (v : JsVal) (n : Z) :
  js_or v JNull = JNum n -> v = JNum n /\ n <> 0.
Proof.
  unfold js_or. destruct (truthy v) eqn:Ht; [| discriminate].
  intros ->. split; [reflexivity |].
  simpl in Ht. intros ->. discriminate.
Qed.

Lemma js_or_zero (d : JsVal) : js_or (JNum 0) d = d.
Proof. reflexivity. Qed.



(** X4. In index.js the speed sent is null whenever the decoded speed is
    absent or 0, and the ignition flag is never false. *)
Theorem delegated_speed_ignition (now : Z) (record : Delegated.RawRecord) :
  (truthy (Delegated.rec_speed record) = false ->
   Delegated.speed (Delegated.formatRecord now record) = JNull) /\
  Delegated.ignition (Delegated.formatRecord now record) <> JBool false.
Proof.
  split.
  - intros H. simpl. unfold js_or. rewrite H. reflexivity.
  - simpl. destruct (strict_eq_num _ _); discriminate.
Qed.

(** X3. In index.js the clock is read only for a record whose [timestampMs]
    is absent or falsy: any other record is normalized the same at all
    times. *)
Theorem delegated_format_clock_free (now1 now2 : Z) (record : Delegated.RawRecord) :
  truthy (Delegated.rec_timestampMs record) = true ->
  Delegated.formatRecord now1 record = Delegated.formatRecord now2 record.
Proof.
  intros H. unfold Delegated.formatRecord, js_or. rewrite H. reflexivity.
Qed.

Lemma delegated_format_clock_free_witness :
  Delegated.formatRecord 1000
    (Delegated.mkRaw (JNum 1560161086000) (JNum 34186968) (JNum 252418784)
       (JNum 57) (JNum 90) None) =
  Delegated.formatRecord 2000
    (Delegated.mkRaw (JNum 1560161086000) (JNum 34186968) (JNum 252418784)
       (JNum 57) (JNum 90) None).
Proof. apply delegated_format_clock_free. reflexivity. Defined.

(** C10. In both handlers an I/O element 199 of value 0 is sent as a
    null odometer, and the odometer sent is a number only when element
    199 is present with that number, which is then not 0.
    In part_000 the elements are keyed by id; in index.js they are a list
    and the first entry with id 199 counts. *)
Theorem odometer_zero_is_null :
  (forall (record : AVL_Data) (io : IOelementT) (els : gmap Z JsVal),
      IOelement record = Some io -> Elements io = Some els ->
      els !! 199 = Some (JNum 0) ->
      odometer (formatRecord record) = JNull) /\
  (forall (record : AVL_Data) (n : Z),
      odometer (formatRecord record) = JNum n ->
      n <> 0 /\
      exists io els, IOelement record = Some io /\ Elements io = Some els /\
                     els !! 199 = Some (JNum n)) /\
  (forall (now : Z) (record : Delegated.RawRecord) (ios : list Delegated.IoElement)
          (io : Delegated.IoElement),
      Delegated.rec_ioElements record = Some ios ->
      List.find (fun io => strict_eq_num (Delegated.io_id io) 199) ios = Some io ->
      Delegated.io_value io = JNum 0 ->
      Delegated.odometer (Delegated.formatRecord now record) = JNull) /\
  (forall (now : Z) (record : Delegated.RawRecord) (n : Z),
      Delegated.odometer (Delegated.formatRecord now record) = JNum n ->
      n <> 0 /\
      exists ios io, Delegated.rec_ioElements record = Some ios /\
                     In io ios /\ Delegated.io_id io = JNum 199 /\
                     Delegated.io_value io = JNum n).
Proof.
  repeat split.
  - intros record io els Hio Hels H199. simpl.
    unfold io_element. rewrite Hio, Hels, H199. reflexivity.
  - simpl in H. apply js_or_null_num in H. tauto.
  - simpl in H. apply js_or_null_num in H. destruct H as [H _].
    unfold io_element in H.
    destruct (IOelement record) as [io|]; [| discriminate].
    destruct (Elements io) as [els|] eqn:Hels; [| discriminate].
    exists io, els. repeat split; [assumption |].
    destruct (els !! 199) as [v|]; simpl in H; [congruence | discriminate].
  - intros now record ios io Hios Hfind Hv. simpl.
    unfold Delegated.find_io. rewrite Hios, Hfind, Hv. reflexivity.
  - simpl in H. apply js_or_null_num in H. tauto.
  - simpl in H. apply js_or_null_num in H. destruct H as [H _].
    unfold Delegated.find_io in H.
    destruct (Delegated.rec_ioElements record) as [ios|]; [| discriminate].
    destruct (List.find _ ios) as [io|] eqn:Hfind; [| discriminate].
    apply List.find_some in Hfind. destruct Hfind as [Hin Hid].
    exists ios, io. repeat split; try assumption.
    destruct (Delegated.io_id io); simpl in Hid; try discriminate.
    apply Z.eqb_eq in Hid. congruence.
Qed.

Lemma odometer_zero_is_null_witness :
  odometer (formatRecord (mkAVL (JDate (Some 1560161086000)) None
                                (Some (mkIO (Some {[ 199 := JNum 0 ]}))))) = JNull /\
  Delegated.odometer
    (Delegated.formatRecord 1000
       (Delegated.mkRaw (JNum 1560161086000) (JNum 34186968) (JNum 252418784)
          (JNum 57) (JNum 90)
          (Some [Delegated.mkIo (JNum 199) (JNum 0)]))) = JNull.
Proof.
  split.
  - eapply (proj1 odometer_zero_is_null); reflexivity.
  - eapply (proj1 (proj2 (proj2 odometer_zero_is_null))); reflexivity.
Defined.

End Normalizer.

(** * Properties of the buffer primitives *)

Section BufferFacts.

Lemma be_uint_fold_nonneg (bs : list byte) (acc : Z) :
  0 <= acc -> 0 <= fold_left (fun a b => a * 256 + byte_val b) bs acc.
Proof.
  revert acc. induction bs as [| b bs IH]; intros acc Hacc; simpl; [assumption |].
  apply IH. unfold byte_val. lia.
Qed.

Lemma be_uint_nonneg (bs : list byte) : 0 <= be_uint bs.
Proof. apply be_uint_fold_nonneg. lia. Qed.

Lemma read_be_ok (n : nat) (buf : Buffer) (off : nat) :
  (off + n <= length buf)%nat ->
  read_be n buf off = Some (be_uint (take n (drop off buf))).
Proof.
  intros H. unfold read_be.
  destruct (decide _) as [_ | Hne]; [reflexivity |].
  exfalso. apply Hne. rewrite length_take, length_drop. lia.
Qed.

Lemma read_be_Some (n : nat) (buf : Buffer) (off : nat) (v : Z) :
  read_be n buf off = Some v ->
  (n = 0%nat \/ (off + n <= length buf)%nat) /\ 0 <= v /\
  v = be_uint (take n (drop off buf)).
Proof.
  unfold read_be. destruct (decide _) as [Hlen | _]; [| discriminate].
  intros [= <-]. rewrite length_take, length_drop in Hlen.
  split; [lia |]. split; [apply be_uint_nonneg | reflexivity].
Qed.

Lemma read_be_app (n : nat) (buf rest : Buffer) (off : nat) :
  (off + n <= length buf)%nat ->
  read_be n (buf ++ rest) off = read_be n buf off.
Proof.
  intros H.
  rewrite (read_be_ok n buf off H).
  rewrite read_be_ok by (rewrite length_app; lia).
  rewrite drop_app_le by lia.
  rewrite take_app_le by (rewrite length_drop; lia).
  reflexivity.
Qed.

Lemma byte_val_of_Z (z : Z) : byte_val (byte_of_Z z) = z mod 256.
Proof.
  unfold byte_val, byte_of_Z.
  assert (Hr : 0 <= z mod 256 < 256) by (apply Z.mod_pos_bound; lia).
  destruct (Byte.of_N (Z.to_N (z mod 256))) as [b |] eqn:Hb.
  - apply Byte.to_of_N in Hb. rewrite Hb. lia.
  - apply Byte.of_N_None_iff in Hb. lia.
Qed.

(** Reading back what [writeUInt32BE] wrote gives the value written. *)
Lemma writeUInt32BE_spec (v : Z) :
  0 <= v < 2 ^ 32 ->
  exists ack, writeUInt32BE v = Some ack /\ length ack = 4%nat /\ be_uint ack = v.
Proof.
  intros Hv. unfold writeUInt32BE.
  replace ((0 <=? v) && (v <? 2 ^ 32)) with true
    by (symmetry; apply andb_true_iff; split; [apply Z.leb_le | apply Z.ltb_lt]; lia).
  eexists. split; [reflexivity |]. split; [reflexivity |].
  unfold be_uint. simpl. rewrite !byte_val_of_Z.
  change (2 ^ 24) with (256 * 256 * 256). change (2 ^ 16) with (256 * 256).
  change (2 ^ 8) with 256. change (2 ^ 32) with (256 * 256 * 256 * 256) in Hv.
  assert (H3 : (v / (256 * 256 * 256)) mod 256 = v / (256 * 256 * 256)).
  { apply Z.mod_small. split; [apply Z.div_pos; lia |].
    apply Z.div_lt_upper_bound; lia. }
  rewrite H3.
  pose proof (Z.div_mod v 256 ltac:(lia)) as E0.
  pose proof (Z.div_mod (v / 256) 256 ltac:(lia)) as E1.
  pose proof (Z.div_mod (v / 256 / 256) 256 ltac:(lia)) as E2.
  rewrite <- !Z.div_div by lia.
  rewrite <- !Z.div_div in H3 by lia.
  lia.
Qed.

Lemma writeUInt32BE_None (v : Z) : writeUInt32BE v = None -> ~ (0 <= v < 2 ^ 32).
Proof.
  unfold writeUInt32BE. intros H Hv.
  destruct (Z.leb_spec 0 v); [| lia]. destruct (Z.ltb_spec v (2 ^ 32)); [| lia].
  discriminate.
Qed.

Lemma toString_ascii_length (buf : Buffer) :
  String.length (toString_ascii buf) = length buf.
Proof.
  unfold toString_ascii. induction buf as [| b buf IH]; simpl; [reflexivity |].
  f_equal. exact IH.
Qed.

End BufferFacts.

(** * The frame loop of part_000, turn by turn *)

Section FramedStep.

Import Framed.

Variable P : Buffer -> Outcome Parser.

(** A login frame at the head of the buffer of a session that has not
    logged in: the session is authenticated with the 15 payload bytes read
    as ASCII, one byte 0x01 is written, 17 bytes are consumed. *)
Lemma frame_step_login (st : State) :
  authenticated st = false ->
  (17 <= length (dataBuffer st))%nat ->
  readUInt16BE (dataBuffer st) 0 = Some 15 ->
  frame_step P st =
    (Continue,
     let imeiString := toString_ascii (slice (dataBuffer st) 2 17) in
     let s := session st in
     mkState (mkSession (Some imeiString) (connectedAt s) (lastDataAt s)
                        (packetsReceived s + 1) (bytesReceived s))
             (Some imeiString) (drop 17 (dataBuffer st)) (written st ++ [[x01]])
             (destroyed st) (immediates st)
             (console st ++ [LogAuthenticated imeiString])).
Proof.
  unfold authenticated, frame_step. intros Ha Hlen Hrd.
  rewrite Ha. apply Nat.leb_le in Hlen. rewrite Hlen, Hrd. reflexivity.
Qed.

(** A session that has not logged in and whose buffer does not start
    with a complete login frame of length 15 is left as it is. *)
Lemma frame_step_no_login (st : State) :
  authenticated st = false ->
  ((length (dataBuffer st) < 17)%nat \/
   exists v, readUInt16BE (dataBuffer st) 0 = Some v /\ v <> 15) ->
  frame_step P st = (Break, st).
Proof.
  unfold authenticated, frame_step. intros Ha Hcase. rewrite Ha; cbn [negb andb].
  destruct Hcase as [Hlt | [v [Hrd Hv]]].
  - apply Nat.leb_gt in Hlt. rewrite Hlt. reflexivity.
  - rewrite Hrd. apply Z.eqb_neq in Hv. rewrite Hv.
    destruct (17 <=? length (dataBuffer st))%nat; reflexivity.
Qed.

(** Fewer than 8 bytes on an authenticated session: wait. *)
Lemma frame_step_short (st : State) :
  authenticated st = true ->
  (length (dataBuffer st) < 8)%nat ->
  frame_step P st = (Break, st).
Proof.
  unfold authenticated, frame_step. intros Ha Hlt. rewrite Ha; cbn [negb andb].
  apply Nat.leb_gt in Hlt. rewrite Hlt. reflexivity.
Qed.

(** A non-zero preamble on an authenticated session: the error is
    logged and the whole buffer is dropped. Nothing else changes. *)
Lemma frame_step_bad_preamble (st : State) (preamble : Z) :
  authenticated st = true ->
  (8 <= length (dataBuffer st))%nat ->
  readUInt32BE (dataBuffer st) 0 = Some preamble ->
  preamble <> 0 ->
  frame_step P st =
    (Break,
     mkState (session st) (authenticatedIMEI st) [] (written st) (destroyed st)
             (immediates st) (console st ++ [LogInvalidPreamble preamble])).
Proof.
  unfold authenticated, frame_step. intros Ha Hlen Hrd Hp. rewrite Ha; cbn [negb andb].
  apply Nat.leb_le in Hlen. rewrite Hlen, Hrd.
  apply Z.eqb_neq in Hp. rewrite Hp. reflexivity.
Qed.

(** A zero preamble and a length field that announces more bytes than
    are buffered: wait. *)
Lemma frame_step_incomplete (st : State) (dataLength : Z) :
  authenticated st = true ->
  (8 <= length (dataBuffer st))%nat ->
  readUInt32BE (dataBuffer st) 0 = Some 0 ->
  readUInt32BE (dataBuffer st) 4 = Some dataLength ->
  Z.of_nat (length (dataBuffer st)) < 8 + dataLength + 4 ->
  frame_step P st = (Break, st).
Proof.
  unfold authenticated, frame_step. intros Ha Hlen Hp Hd Hlt. rewrite Ha; cbn [negb andb].
  apply Nat.leb_le in Hlen. rewrite Hlen, Hp, Hd; cbn [negb Z.eqb].
  apply Z.ltb_lt in Hlt. rewrite Hlt. reflexivity.
Qed.

Lemma frame_at_head_length (buf : Buffer) (dataLength : Z) :
  frame_at_head buf dataLength -> 0 <= dataLength /\ (12 <= length buf)%nat.
Proof.
  intros (_ & Hd & Hlen). apply read_be_Some in Hd. lia.
Qed.

(** What [parse_avl] leaves untouched, whatever the decoder does. *)
Lemma parse_avl_frame (total : Z) (st : State) :
  snd (parse_avl P total st) = total /\
  dataBuffer (fst (parse_avl P total st)) = dataBuffer st /\
  destroyed (fst (parse_avl P total st)) = destroyed st /\
  authenticatedIMEI (fst (parse_avl P total st)) = authenticatedIMEI st /\
  imei (session (fst (parse_avl P total st))) = imei (session st) /\
  lastDataAt (session (fst (parse_avl P total st))) = lastDataAt (session st) /\
  bytesReceived (session (fst (parse_avl P total st))) = bytesReceived (session st) /\
  connectedAt (session (fst (parse_avl P total st))) = connectedAt (session st).
Proof.
  unfold parse_avl.
  destruct (P (dataBuffer st)) as [[[[[rs |]] |]] |]; simpl; try tauto.
  destruct (0 <? length rs)%nat; simpl; try tauto.
  destruct (writeUInt32BE _); simpl; tauto.
Qed.

(** A complete frame at the head of the buffer of an authenticated
    session: the decoder is called and the frame is consumed, whatever
    the decoder answers. *)
Lemma frame_step_frame (st : State) (dataLength : Z) :
  authenticated st = true ->
  frame_at_head (dataBuffer st) dataLength ->
  frame_step P st =
    (Continue,
     set_buffer (drop (Z.to_nat (8 + dataLength + 4)) (dataBuffer st))
                (fst (parse_avl P (8 + dataLength + 4) st))).
Proof.
  intros Ha Hf. pose proof (frame_at_head_length _ _ Hf) as [Hd0 Hlen].
  destruct Hf as (Hp & Hd & Hfit).
  unfold authenticated in Ha. unfold frame_step. rewrite Ha; cbn [negb andb].
  replace (8 <=? length (dataBuffer st))%nat with true
    by (symmetry; apply Nat.leb_le; lia).
  rewrite Hp, Hd; cbn [negb Z.eqb].
  replace (Z.of_nat (length (dataBuffer st)) <? 8 + dataLength + 4) with false
    by (symmetry; apply Z.ltb_ge; lia).
  pose proof (parse_avl_frame (8 + dataLength + 4) st) as (Hsnd & Hbuf & _).
  destruct (parse_avl P (8 + dataLength + 4) st) as [st1 n]. simpl in *. subst n.
  replace (0 <? 8 + dataLength + 4) with true by (symmetry; apply Z.ltb_lt; lia).
  unfold slice_from. rewrite Hbuf. reflexivity.
Qed.

(** The turns of the loop are exactly these five. *)
Lemma frame_step_cases (st : State) :
  (authenticated st = false /\ (17 <= length (dataBuffer st))%nat /\
   readUInt16BE (dataBuffer st) 0 = Some 15) \/
  (authenticated st = false /\
   ((length (dataBuffer st) < 17)%nat \/
    exists v, readUInt16BE (dataBuffer st) 0 = Some v /\ v <> 15)) \/
  (authenticated st = true /\ (length (dataBuffer st) < 8)%nat) \/
  (authenticated st = true /\ (8 <= length (dataBuffer st))%nat /\
   exists preamble, readUInt32BE (dataBuffer st) 0 = Some preamble /\ preamble <> 0) \/
  (authenticated st = true /\ (8 <= length (dataBuffer st))%nat /\
   readUInt32BE (dataBuffer st) 0 = Some 0 /\
   exists dataLength, readUInt32BE (dataBuffer st) 4 = Some dataLength /\
                      Z.of_nat (length (dataBuffer st)) < 8 + dataLength + 4) \/
  (authenticated st = true /\ exists dataLength, frame_at_head (dataBuffer st) dataLength).
Proof.
  destruct (authenticated st) eqn:Ha.
  - right. right.
    destruct (Nat.lt_ge_cases (length (dataBuffer st)) 8) as [Hlt | Hge]; [left; auto |].
    right.
    pose proof (read_be_ok 4 (dataBuffer st) 0 ltac:(lia)) as Hp.
    pose proof (read_be_ok 4 (dataBuffer st) 4 ltac:(lia)) as Hd.
    fold (readUInt32BE (dataBuffer st) 0) in Hp. fold (readUInt32BE (dataBuffer st) 4) in Hd.
    destruct (Z.eq_dec (be_uint (take 4 (drop 0 (dataBuffer st)))) 0) as [Hz | Hnz].
    + right. rewrite Hz in Hp.
      destruct (Z.lt_ge_cases (Z.of_nat (length (dataBuffer st)))
                  (8 + be_uint (take 4 (drop 4 (dataBuffer st))) + 4)) as [Hlt | Hfit].
      * left. repeat split; eauto.
      * right. split; [reflexivity |]. eexists. repeat split; eauto.
    + left. repeat split; eauto.
  - destruct (Nat.lt_ge_cases (length (dataBuffer st)) 17) as [Hlt | Hge].
    + right. left. auto.
    + pose proof (read_be_ok 2 (dataBuffer st) 0 ltac:(lia)) as Hrd.
      fold (readUInt16BE (dataBuffer st) 0) in Hrd.
      destruct (Z.eq_dec (be_uint (take 2 (drop 0 (dataBuffer st)))) 15) as [Hz | Hnz].
      * left. rewrite Hz in Hrd. auto.
      * right. left. split; [reflexivity |]. right. eauto.
Qed.

End FramedStep.

(** * The frame loop of part_000 as a whole *)

Section FramedLoop.

Import Framed.

Variable P : Buffer -> Outcome Parser.

(** A turn that continues has consumed at least one byte. *)
Lemma frame_step_continue_shrinks (st st' : State) :
  frame_step P st = (Continue, st') ->
  (length (dataBuffer st') < length (dataBuffer st))%nat.
Proof.
  intros Hstep.
  destruct (frame_step_cases st)
    as [(Ha & Hlen & Hrd) | [(Ha & Hc) | [(Ha & Hlt) | [(Ha & Hlen & p & Hp & Hnz)
        | [(Ha & Hlen & Hp & d & Hd & Hlt) | (Ha & d & Hf)]]]]].
  - rewrite (frame_step_login P st Ha Hlen Hrd) in Hstep.
    injection Hstep as <-. simpl. rewrite length_drop. lia.
  - rewrite (frame_step_no_login P st Ha Hc) in Hstep. discriminate.
  - rewrite (frame_step_short P st Ha Hlt) in Hstep. discriminate.
  - rewrite (frame_step_bad_preamble P st p Ha Hlen Hp Hnz) in Hstep. discriminate.
  - rewrite (frame_step_incomplete P st d Ha Hlen Hp Hd Hlt) in Hstep. discriminate.
  - rewrite (frame_step_frame P st d Ha Hf) in Hstep.
    pose proof (frame_at_head_length _ _ Hf) as [Hd0 Hlen].
    injection Hstep as <-. simpl. rewrite length_drop. lia.
Qed.

(** A turn that leaves the loop either changed nothing or reported an
    invalid preamble and dropped the buffer. *)
Lemma frame_step_break (st st' : State) :
  frame_step P st = (Break, st') ->
  st' = st \/
  exists preamble,
    preamble <> 0 /\ authenticated st = true /\ (8 <= length (dataBuffer st))%nat /\
    readUInt32BE (dataBuffer st) 0 = Some preamble /\
    st' = mkState (session st) (authenticatedIMEI st) [] (written st) (destroyed st)
                  (immediates st) (console st ++ [LogInvalidPreamble preamble]).
Proof.
  intros Hstep.
  destruct (frame_step_cases st)
    as [(Ha & Hlen & Hrd) | [(Ha & Hc) | [(Ha & Hlt) | [(Ha & Hlen & p & Hp & Hnz)
        | [(Ha & Hlen & Hp & d & Hd & Hlt) | (Ha & d & Hf)]]]]].
  - rewrite (frame_step_login P st Ha Hlen Hrd) in Hstep. discriminate.
  - rewrite (frame_step_no_login P st Ha Hc) in Hstep. injection Hstep as <-. auto.
  - rewrite (frame_step_short P st Ha Hlt) in Hstep. injection Hstep as <-. auto.
  - rewrite (frame_step_bad_preamble P st p Ha Hlen Hp Hnz) in Hstep.
    injection Hstep as <-. right. exists p. auto.
  - rewrite (frame_step_incomplete P st d Ha Hlen Hp Hd Hlt) in Hstep.
    injection Hstep as <-. auto.
  - rewrite (frame_step_frame P st d Ha Hf) in Hstep. discriminate.
Qed.

(** The loop ends within one turn per buffered byte, and more turns
    allowed change nothing. *)
Lemma frame_loop_fuel (n m : nat) (st : State) :
  (length (dataBuffer st) <= n)%nat ->
  (length (dataBuffer st) <= m)%nat ->
  frame_loop P n st = frame_loop P m st /\ is_Some (frame_loop P n st).
Proof.
  revert m st. induction n as [| n IH]; intros m st Hn Hm.
  - assert (Hz : length (dataBuffer st) = 0%nat) by lia.
    destruct m; simpl; rewrite Hz; simpl; eauto.
  - destruct m as [| m].
    + assert (Hz : length (dataBuffer st) = 0%nat) by lia.
      simpl; rewrite Hz; simpl; eauto.
    + simpl. destruct (0 <? length (dataBuffer st))%nat; [| eauto].
      destruct (frame_step P st) as [[|] st'] eqn:Hstep; [| eauto].
      apply frame_step_continue_shrinks in Hstep.
      apply IH; lia.
Qed.

Lemma frame_loop_total (st : State) :
  exists st', frame_loop P (length (dataBuffer st)) st = Some st'.
Proof.
  destruct (frame_loop_fuel (length (dataBuffer st)) (length (dataBuffer st)) st)
    as [_ [st' H]]; eauto.
Qed.

Lemma process_frames_empty (st : State) :
  dataBuffer st = [] -> process_frames P st = st.
Proof. intros H. unfold process_frames. rewrite H. simpl. rewrite H. reflexivity. Qed.

Lemma process_frames_break (st st' : State) :
  dataBuffer st <> [] ->
  frame_step P st = (Break, st') ->
  process_frames P st = st'.
Proof.
  intros Hne Hstep. unfold process_frames.
  destruct (dataBuffer st) as [| b buf] eqn:Hbuf; [congruence |].
  simpl. rewrite Hbuf. simpl. rewrite Hstep. reflexivity.
Qed.

Lemma process_frames_continue (st st' : State) :
  dataBuffer st <> [] ->
  frame_step P st = (Continue, st') ->
  process_frames P st = process_frames P st'.
Proof.
  intros Hne Hstep. unfold process_frames.
  pose proof (frame_step_continue_shrinks _ _ Hstep) as Hlt.
  destruct (dataBuffer st) as [| b buf] eqn:Hbuf; [congruence |].
  simpl. rewrite Hbuf. simpl. rewrite Hstep.
  simpl in Hlt.
  destruct (frame_loop_fuel (length buf) (length (dataBuffer st')) st') as [-> _];
    [lia | lia |].
  destruct (frame_loop_total st') as [st'' ->]. reflexivity.
Qed.

(** Induction on the turns of the loop. *)
Lemma process_frames_ind (Q : State -> State -> Prop) :
  (forall st, dataBuffer st = [] -> Q st st) ->
  (forall st st', dataBuffer st <> [] -> frame_step P st = (Break, st') -> Q st st') ->
  (forall st st' st'', dataBuffer st <> [] -> frame_step P st = (Continue, st') ->
                       process_frames P st' = st'' -> Q st' st'' -> Q st st'') ->
  forall st, Q st (process_frames P st).
Proof.
  intros Hempty Hbreak Hcont st.
  remember (length (dataBuffer st)) as n eqn:Hn.
  revert st Hn. induction n as [n IH] using lt_wf_ind. intros st Hn.
  destruct (dataBuffer st) as [| b buf] eqn:Hbuf.
  - rewrite process_frames_empty by assumption. apply Hempty. assumption.
  - assert (Hne : dataBuffer st <> []) by congruence.
    destruct (frame_step P st) as [[|] st'] eqn:Hstep.
    + rewrite (process_frames_continue st st' Hne Hstep).
      apply (Hcont st st' _ Hne Hstep eq_refl).
      pose proof (frame_step_continue_shrinks _ _ Hstep) as Hlt.
      apply (IH (length (dataBuffer st'))); [| reflexivity].
      rewrite Hbuf in Hlt. simpl in *. lia.
    + rewrite (process_frames_break st st' Hne Hstep). apply Hbreak; assumption.
Qed.

End FramedLoop.

(** * What the loop of part_000 never does, and what it keeps *)

Section FramedInvariants.

Import Framed.

Variable P : Buffer -> Outcome Parser.

(** No turn of the loop destroys the socket. *)
Lemma frame_step_destroyed (st st' : State) (c : Control) :
  frame_step P st = (c, st') -> destroyed st' = destroyed st.
Proof.
  intros Hstep.
  destruct (frame_step_cases st)
    as [(Ha & Hlen & Hrd) | [(Ha & Hc) | [(Ha & Hlt) | [(Ha & Hlen & p & Hp & Hnz)
        | [(Ha & Hlen & Hp & d & Hd & Hlt) | (Ha & d & Hf)]]]]].
  - rewrite (frame_step_login P st Ha Hlen Hrd) in Hstep. injection Hstep as _ <-. reflexivity.
  - rewrite (frame_step_no_login P st Ha Hc) in Hstep. injection Hstep as _ <-. reflexivity.
  - rewrite (frame_step_short P st Ha Hlt) in Hstep. injection Hstep as _ <-. reflexivity.
  - rewrite (frame_step_bad_preamble P st p Ha Hlen Hp Hnz) in Hstep.
    injection Hstep as _ <-. reflexivity.
  - rewrite (frame_step_incomplete P st d Ha Hlen Hp Hd Hlt) in Hstep.
    injection Hstep as _ <-. reflexivity.
  - rewrite (frame_step_frame P st d Ha Hf) in Hstep. injection Hstep as _ <-.
    simpl. apply parse_avl_frame.
Qed.

Lemma process_frames_destroyed (st : State) :
  destroyed (process_frames P st) = destroyed st.
Proof.
  apply (process_frames_ind P (fun st st' => destroyed st' = destroyed st)).
  - reflexivity.
  - intros s s' _ H. exact (frame_step_destroyed _ _ _ H).
  - intros s s' s'' _ H _ IH. rewrite IH. exact (frame_step_destroyed _ _ _ H).
Qed.

(** The loop never lengthens the buffer. *)
Lemma process_frames_buffer_le (st : State) :
  (length (dataBuffer (process_frames P st)) <= length (dataBuffer st))%nat.
Proof.
  apply (process_frames_ind P
           (fun st st' => (length (dataBuffer st') <= length (dataBuffer st))%nat)).
  - lia.
  - intros s s' _ H. apply frame_step_break in H.
    destruct H as [-> | (p & _ & _ & _ & _ & ->)]; simpl; lia.
  - intros s s' s'' _ H _ IH. apply frame_step_continue_shrinks in H. lia.
Qed.

Lemma frame_step_imei (st st' : State) (c : Control) :
  frame_step P st = (c, st') -> imei_invariant st -> imei_invariant st'.
Proof.
  intros Hstep [Heq Hlen15].
  destruct (frame_step_cases st)
    as [(Ha & Hlen & Hrd) | [(Ha & Hc) | [(Ha & Hlt) | [(Ha & Hlen & p & Hp & Hnz)
        | [(Ha & Hlen & Hp & d & Hd & Hlt) | (Ha & d & Hf)]]]]].
  - rewrite (frame_step_login P st Ha Hlen Hrd) in Hstep. injection Hstep as _ <-.
    split; simpl; [reflexivity |].
    intros s [= <-]. rewrite toString_ascii_length. unfold slice.
    rewrite length_take, length_drop. lia.
  - rewrite (frame_step_no_login P st Ha Hc) in Hstep. injection Hstep as _ <-. split; assumption.
  - rewrite (frame_step_short P st Ha Hlt) in Hstep. injection Hstep as _ <-. split; assumption.
  - rewrite (frame_step_bad_preamble P st p Ha Hlen Hp Hnz) in Hstep.
    injection Hstep as _ <-. split; assumption.
  - rewrite (frame_step_incomplete P st d Ha Hlen Hp Hd Hlt) in Hstep.
    injection Hstep as _ <-. split; assumption.
  - rewrite (frame_step_frame P st d Ha Hf) in Hstep. injection Hstep as _ <-.
    pose proof (parse_avl_frame P (8 + d + 4) st) as (_ & _ & _ & Hau & Him & _).
    split; simpl; rewrite Hau; [rewrite Him |]; assumption.
Qed.

Lemma process_frames_imei (st : State) :
  imei_invariant st -> imei_invariant (process_frames P st).
Proof.
  apply (process_frames_ind P (fun st st' => imei_invariant st -> imei_invariant st')).
  - auto.
  - intros s s' _ H. exact (frame_step_imei _ _ _ H).
  - intros s s' s'' _ H _ IH Hs. apply IH. exact (frame_step_imei _ _ _ H Hs).
Qed.

End FramedInvariants.

(** * Accepted and rejected AVL frames (part_000) *)

Section FramedFrames.

Import Framed.

Variable P : Buffer -> Outcome Parser.

(** A frame for which the decoder returns no record is consumed with a
    warning: nothing is written, queued or counted. *)
Lemma frame_step_no_records (st : State) (dataLength : Z) (parser : Parser) :
  authenticated st = true ->
  frame_at_head (dataBuffer st) dataLength ->
  P (dataBuffer st) = Returns parser ->
  (Content parser = None \/ Content parser = Some (mkContent None) \/
   Content parser = Some (mkContent (Some []))) ->
  frame_step P st =
    (Continue,
     mkState (session st) (authenticatedIMEI st)
             (drop (Z.to_nat (8 + dataLength + 4)) (dataBuffer st))
             (written st) (destroyed st) (immediates st)
             (console st ++ [LogNoAvlData])).
Proof.
  intros Ha Hf HP HC. rewrite (frame_step_frame P st dataLength Ha Hf).
  unfold parse_avl. rewrite HP.
  destruct HC as [-> | [-> | ->]]; reflexivity.
Qed.

(** A frame on which the decoder throws is consumed with an error line:
    nothing is written, queued or counted. *)
Lemma frame_step_throws (st : State) (dataLength : Z) :
  authenticated st = true ->
  frame_at_head (dataBuffer st) dataLength ->
  P (dataBuffer st) = Throws ->
  frame_step P st =
    (Continue,
     mkState (session st) (authenticatedIMEI st)
             (drop (Z.to_nat (8 + dataLength + 4)) (dataBuffer st))
             (written st) (destroyed st) (immediates st)
             (console st ++ [LogParserError])).
Proof.
  intros Ha Hf HP. rewrite (frame_step_frame P st dataLength Ha Hf).
  unfold parse_avl. rewrite HP. reflexivity.
Qed.

(** C2, as the code has it. The handler computes no checksum. With a
    decoder that rejects a frame whose stored CRC differs from the
    CRC-16/IBM of its data field, such a frame at the head of the buffer
    of an authenticated session is consumed: no batch is queued for it and
    nothing is written to the socket, an error is logged, and the
    connection is not closed, neither by this turn nor by the rest of the
    loop. *)
Theorem bad_crc_frame_is_skipped (st : State) (dataLength : Z) :
  Codec8.rejects_bad_crc P ->
  authenticated st = true ->
  frame_at_head (dataBuffer st) dataLength ->
  Codec8.crc_mismatch (dataBuffer st) ->
  exists st',
    frame_step P st = (Continue, st') /\
    immediates st' = immediates st /\
    written st' = written st /\
    session st' = session st /\
    console st' = console st ++ [LogParserError] /\
    dataBuffer st' = drop (Z.to_nat (8 + dataLength + 4)) (dataBuffer st) /\
    destroyed st' = destroyed st /\
    destroyed (process_frames P st) = destroyed st.
Proof.
  intros Hrej Ha Hf Hbad. eexists.
  split; [apply (frame_step_throws st dataLength Ha Hf (Hrej _ Hbad)) |].
  simpl. repeat split. apply process_frames_destroyed.
Qed.

End FramedFrames.

Section ReferenceDecoder.

Import Framed.

(** The reference decoder verifies the checksum. *)
Lemma decode_rejects_bad_crc : Codec8.rejects_bad_crc Codec8.decode.
Proof.
  intros buf (c & Hc & Hne). unfold Codec8.decode.
  destruct (readUInt32BE buf 0) as [p |]; [| reflexivity].
  destruct (readUInt32BE buf 4) as [d |]; [| reflexivity].
  destruct (_ && _); [| reflexivity].
  destruct (Codec8.avl_data_field _) as [[rs [| b rest]] |]; try reflexivity.
  rewrite Hc. apply Z.eqb_neq in Hne. rewrite Hne. reflexivity.
Qed.

End ReferenceDecoder.

Section FramedFramesWitness.

Import Framed.

Lemma bad_crc_frame_is_skipped_witness :
  exists st',
    frame_step Codec8.decode
      (mkState (mkSession (Some "356307042441013"%string) 0 1 1 17)
               (Some "356307042441013"%string) Codec8.bad_crc_frame
               [[x01]] false [] []) = (Continue, st') /\
    immediates st' = [] /\
    written st' = [[x01]] /\
    session st' = mkSession (Some "356307042441013"%string) 0 1 1 17 /\
    console st' = [] ++ [LogParserError] /\
    dataBuffer st' = drop (Z.to_nat (8 + 33 + 4)) Codec8.bad_crc_frame /\
    destroyed st' = false /\
    destroyed (process_frames Codec8.decode
      (mkState (mkSession (Some "356307042441013"%string) 0 1 1 17)
               (Some "356307042441013"%string) Codec8.bad_crc_frame
               [[x01]] false [] [])) = false.
Proof.
  apply (bad_crc_frame_is_skipped Codec8.decode
           (mkState (mkSession (Some "356307042441013"%string) 0 1 1 17)
                    (Some "356307042441013"%string) Codec8.bad_crc_frame
                    [[x01]] false [] [])
           33).
  - exact decode_rejects_bad_crc.
  - reflexivity.
  - repeat split; vm_compute; congruence.
  - eexists. split; [vm_compute; reflexivity |]. vm_compute. discriminate.
Defined.

(** C2, refuted as stated: the frame of scenario 6 (stored checksum
    0xBD58, CRC-16/IBM of the data field 0xBDA7) arrives on an
    authenticated session. With a decoder that verifies the checksum the
    frame is dropped, and with one that does not its record is queued and
    acknowledged; either way the socket is not destroyed and the session
    stays in the table. *)
Lemma bad_crc_connection_stays_open :
  Codec8.stored_crc Codec8.bad_crc_frame = Some 0xBD58 /\
  Codec8.crc16 (Codec8.data_field Codec8.bad_crc_frame) = 0xBDA7 /\
  (let w := run Codec8.decode "dev"
              [EvData 1 Codec8.login_frame; EvData 2 Codec8.bad_crc_frame]
              (handleGpsConnection "dev" 0 ∅) in
   sock_destroyed w = false /\
   activeSessions w !! "dev"%string =
     Some (mkSession (Some "356307042441013"%string) 0 2 1 62) /\
   sock_written w = [[x01]] /\
   queued w = [] /\
   logged w = [LogAuthenticated "356307042441013"; LogParserError]) /\
  (let w := run Codec8.decode_unchecked "dev"
              [EvData 1 Codec8.login_frame; EvData 2 Codec8.bad_crc_frame]
              (handleGpsConnection "dev" 0 ∅) in
   sock_destroyed w = false /\
   activeSessions w !! "dev"%string =
     Some (mkSession (Some "356307042441013"%string) 0 2 2 62) /\
   sock_written w = [[x01]; [x00; x00; x00; x01]] /\
   length (queued w) = 1%nat).
Proof. vm_compute. repeat split. Qed.

End FramedFramesWitness.

(** * The connection among the events (part_000) *)

Section FramedWorld.

Import Framed.

Variable P : Buffer -> Outcome Parser.
Variable sessionId : string.

Lemma be_uint_zero4 (bs : list byte) :
  length bs = 4%nat -> be_uint bs = 0 -> bs = [x00; x00; x00; x00].
Proof.
  intros Hlen Hz.
  destruct bs as [| a [| b [| c [| d [| e bs]]]]]; try discriminate.
  unfold be_uint in Hz. simpl in Hz.
  assert (Hb : forall x : byte, byte_val x = 0 -> x = x00).
  { intros x Hx. unfold byte_val in Hx.
    assert (Hn : Byte.to_N x = Byte.to_N x00) by (simpl; lia).
    apply (f_equal Byte.of_N) in Hn. rewrite !Byte.of_to_N in Hn. congruence. }
  assert (Hp : forall x : byte, 0 <= byte_val x) by (intros x; unfold byte_val; lia).
  pose proof (Hp a). pose proof (Hp b). pose proof (Hp c). pose proof (Hp d).
  rewrite (Hb a), (Hb b), (Hb c), (Hb d) by lia. reflexivity.
Qed.

(** The [data] callback of a registered session whose buffer stays
    within the cap runs the frame loop on the buffer with the chunk
    appended. *)
Lemma on_data_within_cap (now : Z) (chunk : Buffer) (w : World) (s : Session) :
  activeSessions w !! sessionId = Some s ->
  Z.of_nat (length (buffer w ++ chunk)) <= BUFFER_CAP ->
  on_data P sessionId now chunk w =
    of_state sessionId (activeSessions w)
      (process_frames P (arrive now chunk (to_state s w))).
Proof.
  intros Hs Hcap. unfold on_data. rewrite Hs. unfold data_body.
  replace (BUFFER_CAP <? _) with false; [reflexivity |].
  symmetry. apply Z.ltb_ge. exact Hcap.
Qed.

(** C3, as the code has it. A session that has not logged in and whose
    first two buffered bytes encode a length other than 15: the handler
    writes no acknowledgement and does not authenticate the session. It
    raises no fault: the bytes stay buffered, the socket is left as it was
    and the session stays in the table, with only its statistics updated. *)
Theorem bad_login_length_is_ignored (now : Z) (chunk : Buffer) (w : World)
    (s : Session) (v : Z) :
  activeSessions w !! sessionId = Some s ->
  truthy_str (authIMEI w) = false ->
  readUInt16BE (buffer w ++ chunk) 0 = Some v ->
  v <> 15 ->
  Z.of_nat (length (buffer w ++ chunk)) <= BUFFER_CAP ->
  sock_written (on_data P sessionId now chunk w) = sock_written w /\
  authIMEI (on_data P sessionId now chunk w) = authIMEI w /\
  sock_destroyed (on_data P sessionId now chunk w) = sock_destroyed w /\
  buffer (on_data P sessionId now chunk w) = buffer w ++ chunk /\
  logged (on_data P sessionId now chunk w) = logged w /\
  queued (on_data P sessionId now chunk w) = queued w /\
  activeSessions (on_data P sessionId now chunk w) !! sessionId =
    Some (mkSession (imei s) (connectedAt s) now (packetsReceived s)
                    (bytesReceived s + Z.of_nat (length chunk))).
Proof.
  intros Hs Ha Hrd Hv Hcap.
  rewrite (on_data_within_cap now chunk w s Hs Hcap).
  assert (Hne : dataBuffer (arrive now chunk (to_state s w)) <> []).
  { simpl. intros Hnil. rewrite Hnil in Hrd. discriminate. }
  rewrite (process_frames_break P _ (arrive now chunk (to_state s w)) Hne).
  - simpl. rewrite lookup_insert_eq. repeat split.
  - apply frame_step_no_login; [exact Ha |]. right. exists v. split; assumption.
Qed.

(** C6, as the code has it. An authenticated session with at least 8
    buffered bytes of which the first 4 are not all zero: the handler logs
    the invalid preamble and drops the whole buffer. The connection is not
    closed: the socket is left as it was, the session stays in the table,
    nothing is written or queued. *)
Theorem bad_preamble_drops_buffer (now : Z) (chunk : Buffer) (w : World)
    (s : Session) :
  activeSessions w !! sessionId = Some s ->
  truthy_str (authIMEI w) = true ->
  (8 <= length (buffer w ++ chunk))%nat ->
  take 4 (buffer w ++ chunk) <> [x00; x00; x00; x00] ->
  Z.of_nat (length (buffer w ++ chunk)) <= BUFFER_CAP ->
  exists preamble,
    readUInt32BE (buffer w ++ chunk) 0 = Some preamble /\ preamble <> 0 /\
    logged (on_data P sessionId now chunk w) = logged w ++ [LogInvalidPreamble preamble] /\
    buffer (on_data P sessionId now chunk w) = [] /\
    sock_destroyed (on_data P sessionId now chunk w) = sock_destroyed w /\
    sock_written (on_data P sessionId now chunk w) = sock_written w /\
    queued (on_data P sessionId now chunk w) = queued w /\
    authIMEI (on_data P sessionId now chunk w) = authIMEI w /\
    activeSessions (on_data P sessionId now chunk w) !! sessionId =
      Some (mkSession (imei s) (connectedAt s) now (packetsReceived s)
                      (bytesReceived s + Z.of_nat (length chunk))).
Proof.
  intros Hs Ha Hlen Hpre Hcap.
  pose proof (read_be_ok 4 (buffer w ++ chunk) 0 ltac:(lia)) as Hrd.
  fold (readUInt32BE (buffer w ++ chunk) 0) in Hrd. rewrite drop_0 in Hrd.
  exists (be_uint (take 4 (buffer w ++ chunk))).
  assert (Hnz : be_uint (take 4 (buffer w ++ chunk)) <> 0).
  { intros Hz. apply Hpre. apply be_uint_zero4; [| exact Hz].
    rewrite length_take. lia. }
  split; [exact Hrd |]. split; [exact Hnz |].
  rewrite (on_data_within_cap now chunk w s Hs Hcap).
  assert (Hne : dataBuffer (arrive now chunk (to_state s w)) <> []).
  { simpl. intros Hnil. rewrite Hnil in Hlen. simpl in Hlen. lia. }
  rewrite (process_frames_break P _ _ Hne
             (frame_step_bad_preamble P (arrive now chunk (to_state s w)) _
                Ha Hlen Hrd Hnz)).
  simpl. rewrite lookup_insert_eq. repeat split.
Qed.

End FramedWorld.

(** * Acknowledgement of AVL frames (part_000) *)

Section FramedAcknowledgement.

Import Framed.

Variable P : Buffer -> Outcome Parser.
Variable sessionId : string.

(** The [data] callback on a chunk after which the buffer of an
    authenticated session starts with a complete AVL frame, within the
    buffer cap: the first turn of the loop passes the buffer to the decoder
    and consumes the frame, and the loop goes on with the bytes after it. *)
Lemma on_data_frame (now : Z) (chunk : Buffer) (w : World) (s : Session)
    (dataLength : Z) :
  activeSessions w !! sessionId = Some s ->
  truthy_str (authIMEI w) = true ->
  frame_at_head (buffer w ++ chunk) dataLength ->
  Z.of_nat (length (buffer w ++ chunk)) <= BUFFER_CAP ->
  on_data P sessionId now chunk w =
    of_state sessionId (activeSessions w)
      (process_frames P
         (set_buffer (drop (Z.to_nat (8 + dataLength + 4)) (buffer w ++ chunk))
            (fst (parse_avl P (8 + dataLength + 4) (arrive now chunk (to_state s w)))))).
Proof.
  intros Hs Ha Hf Hcap.
  rewrite (on_data_within_cap P sessionId now chunk w s Hs Hcap).
  f_equal.
  pose proof (frame_at_head_length _ _ Hf) as (Hd0 & H12).
  assert (Hne : dataBuffer (arrive now chunk (to_state s w)) <> []).
  { change (buffer w ++ chunk <> []). intros E. rewrite E in H12. simpl in H12. lia. }
  apply (process_frames_continue P _ _ Hne).
  exact (frame_step_frame P (arrive now chunk (to_state s w)) dataLength Ha Hf).
Qed.

(** C1, as the code has it. After a chunk has arrived, the buffer of an
    authenticated session starts with a complete AVL frame and is within
    the cap.

    When the handler accepts the frame with [k] records (the decoder
    returns them, and they are at least one), the callback queues the
    batch of the [k] normalized records under the IMEI of the connection,
    writes one chunk to the socket, the chunk [writeUInt32BE(k)] produced,
    which has 4 bytes and reads back as [k], counts the packet, consumes
    the frame and goes on with the bytes after it; when there are none,
    this acknowledgement is all that is written.

    When the decoder returns no record ([k] is 0, or there is no record
    list), the frame is consumed with a warning and the callback goes on
    with the bytes after it: no acknowledgement of 0 records is written,
    nothing is queued and no packet is counted.

    A JavaScript array has fewer than 2^32 elements. *)
Theorem avl_ack_is_record_count (now : Z) (chunk : Buffer) (w : World) (s : Session)
    (dataLength : Z) :
  activeSessions w !! sessionId = Some s ->
  truthy_str (authIMEI w) = true ->
  frame_at_head (buffer w ++ chunk) dataLength ->
  Z.of_nat (length (buffer w ++ chunk)) <= BUFFER_CAP ->
  (forall rawRecords,
     accepts P (buffer w ++ chunk) rawRecords ->
     Z.of_nat (length rawRecords) < 2 ^ 32 ->
     exists ack,
       writeUInt32BE (Z.of_nat (length rawRecords)) = Some ack /\
       length ack = 4%nat /\
       be_uint ack = Z.of_nat (length rawRecords) /\
       on_data P sessionId now chunk w =
         of_state sessionId (activeSessions w)
           (process_frames P
              (mkState
                 (mkSession (imei s) (connectedAt s) now (packetsReceived s + 1)
                            (bytesReceived s + Z.of_nat (length chunk)))
                 (authIMEI w)
                 (drop (Z.to_nat (8 + dataLength + 4)) (buffer w ++ chunk))
                 (sock_written w ++ [ack])
                 (sock_destroyed w)
                 (queued w ++ [(authIMEI w, map formatRecord rawRecords)])
                 (logged w ++ [LogAcknowledged (length rawRecords)]))) /\
       (Z.of_nat (length (buffer w ++ chunk)) = 8 + dataLength + 4 ->
        sock_written (on_data P sessionId now chunk w) = sock_written w ++ [ack] /\
        queued (on_data P sessionId now chunk w) =
          queued w ++ [(authIMEI w, map formatRecord rawRecords)] /\
        buffer (on_data P sessionId now chunk w) = [] /\
        activeSessions (on_data P sessionId now chunk w) !! sessionId =
          Some (mkSession (imei s) (connectedAt s) now (packetsReceived s + 1)
                          (bytesReceived s + Z.of_nat (length chunk))))) /\
  (forall parser,
     P (buffer w ++ chunk) = Returns parser ->
     Content parser = None \/ Content parser = Some (mkContent None) \/
     Content parser = Some (mkContent (Some [])) ->
     on_data P sessionId now chunk w =
       of_state sessionId (activeSessions w)
         (process_frames P
            (mkState
               (mkSession (imei s) (connectedAt s) now (packetsReceived s)
                          (bytesReceived s + Z.of_nat (length chunk)))
               (authIMEI w)
               (drop (Z.to_nat (8 + dataLength + 4)) (buffer w ++ chunk))
               (sock_written w)
               (sock_destroyed w)
               (queued w)
               (logged w ++ [LogNoAvlData]))) /\
     (Z.of_nat (length (buffer w ++ chunk)) = 8 + dataLength + 4 ->
      sock_written (on_data P sessionId now chunk w) = sock_written w /\
      queued (on_data P sessionId now chunk w) = queued w /\
      buffer (on_data P sessionId now chunk w) = [] /\
      activeSessions (on_data P sessionId now chunk w) !! sessionId =
        Some (mkSession (imei s) (connectedAt s) now (packetsReceived s)
                        (bytesReceived s + Z.of_nat (length chunk))))).
Proof.
  intros Hs Ha Hf Hcap.
  rewrite (on_data_frame now chunk w s dataLength Hs Ha Hf Hcap).
  split.
  - intros rawRecords (parser & HP & HC & Hne) Hk.
    destruct (writeUInt32BE_spec (Z.of_nat (length rawRecords)) ltac:(lia))
      as (ack & Hack & Hl4 & Hval).
    exists ack. split; [exact Hack |]. split; [exact Hl4 |]. split; [exact Hval |].
    unfold parse_avl. cbn [arrive to_state dataBuffer]. rewrite HP, HC.
    destruct rawRecords as [| r rs]; [congruence |].
    change (0 <? length (r :: rs))%nat with true. cbv iota. cbv zeta.
    rewrite Hack. split; [reflexivity |].
    intros Hlen. rewrite drop_ge by lia. rewrite process_frames_empty by reflexivity.
    simpl. rewrite lookup_insert_eq. repeat split.
  - intros parser HP HC.
    unfold parse_avl. cbn [arrive to_state dataBuffer]. rewrite HP.
    destruct HC as [-> | [-> | ->]]; (split; [reflexivity |]);
      intros Hlen; rewrite drop_ge by lia; rewrite process_frames_empty by reflexivity;
      simpl; rewrite lookup_insert_eq; repeat split.
Qed.

End FramedAcknowledgement.

Section FramedWorldWitness.

Import Framed.

Lemma bad_login_length_is_ignored_witness :
  sock_written (on_data Codec8.decode "dev" 1 Codec8.login_short
                  (handleGpsConnection "dev" 0 ∅)) = [] /\
  authIMEI (on_data Codec8.decode "dev" 1 Codec8.login_short
              (handleGpsConnection "dev" 0 ∅)) = None /\
  sock_destroyed (on_data Codec8.decode "dev" 1 Codec8.login_short
                    (handleGpsConnection "dev" 0 ∅)) = false /\
  buffer (on_data Codec8.decode "dev" 1 Codec8.login_short
            (handleGpsConnection "dev" 0 ∅)) = [] ++ Codec8.login_short /\
  logged (on_data Codec8.decode "dev" 1 Codec8.login_short
            (handleGpsConnection "dev" 0 ∅)) = [] /\
  queued (on_data Codec8.decode "dev" 1 Codec8.login_short
            (handleGpsConnection "dev" 0 ∅)) = [] /\
  activeSessions (on_data Codec8.decode "dev" 1 Codec8.login_short
                    (handleGpsConnection "dev" 0 ∅)) !! "dev"%string =
    Some (mkSession None 0 1 0 (0 + Z.of_nat (length Codec8.login_short))).
Proof.
  apply (bad_login_length_is_ignored Codec8.decode "dev" 1 Codec8.login_short
           (handleGpsConnection "dev" 0 ∅) (mkSession None 0 0 0 0) 14).
  - reflexivity.
  - reflexivity.
  - reflexivity.
  - discriminate.
  - vm_compute. discriminate.
Defined.

(** C3, refuted as stated: a device sends a length of 14 and 14 digits
    (scenario 2), then one more digit, so that the handler has the 17
    bytes it waits for. Nothing is written, and the connection is not
    closed: the socket is not destroyed and the session is still in the
    table, its 17 bytes buffered. *)
Lemma bad_login_connection_stays_open :
  readUInt16BE Codec8.login_short 0 = Some 14 /\
  (let w := run Codec8.decode "dev"
              [EvData 1 Codec8.login_short; EvData 2 (hex "33")]
              (handleGpsConnection "dev" 0 ∅) in
   sock_written w = [] /\
   sock_destroyed w = false /\
   activeSessions w !! "dev"%string = Some (mkSession None 0 2 0 17) /\
   length (buffer w) = 17%nat /\
   logged w = []).
Proof. vm_compute. repeat split. Qed.

Lemma bad_preamble_drops_buffer_witness :
  exists preamble,
    readUInt32BE (buffer Codec8.logged_in ++ hex "FFFFFFFF00000001") 0 = Some preamble /\
    preamble <> 0 /\
    logged (on_data Codec8.decode "dev" 2 (hex "FFFFFFFF00000001") Codec8.logged_in) =
      logged Codec8.logged_in ++ [LogInvalidPreamble preamble] /\
    buffer (on_data Codec8.decode "dev" 2 (hex "FFFFFFFF00000001") Codec8.logged_in) = [] /\
    sock_destroyed (on_data Codec8.decode "dev" 2 (hex "FFFFFFFF00000001") Codec8.logged_in) =
      sock_destroyed Codec8.logged_in /\
    sock_written (on_data Codec8.decode "dev" 2 (hex "FFFFFFFF00000001") Codec8.logged_in) =
      sock_written Codec8.logged_in /\
    queued (on_data Codec8.decode "dev" 2 (hex "FFFFFFFF00000001") Codec8.logged_in) =
      queued Codec8.logged_in /\
    authIMEI (on_data Codec8.decode "dev" 2 (hex "FFFFFFFF00000001") Codec8.logged_in) =
      authIMEI Codec8.logged_in /\
    activeSessions (on_data Codec8.decode "dev" 2 (hex "FFFFFFFF00000001") Codec8.logged_in)
      !! "dev"%string =
      Some (mkSession (Some "356307042441013"%string) 0 2 1
              (17 + Z.of_nat (length (hex "FFFFFFFF00000001")))).
Proof.
  apply (bad_preamble_drops_buffer Codec8.decode "dev" 2 (hex "FFFFFFFF00000001")
           Codec8.logged_in (mkSession (Some "356307042441013"%string) 0 1 1 17)).
  - reflexivity.
  - reflexivity.
  - vm_compute. lia.
  - vm_compute. discriminate.
  - vm_compute. discriminate.
Defined.

(** C6, refuted as stated: an authenticated session receives 8 bytes
    whose first 4 are 0xFF. The preamble error is logged and the buffer
    dropped, but the connection is not closed: the socket is not destroyed
    and the session is still in the table. *)
Lemma bad_preamble_connection_stays_open :
  let w := run Codec8.decode "dev"
             [EvData 1 Codec8.login_frame; EvData 2 (hex "FFFFFFFF00000001")]
             (handleGpsConnection "dev" 0 ∅) in
  sock_destroyed w = false /\
  activeSessions w !! "dev"%string =
    Some (mkSession (Some "356307042441013"%string) 0 2 1 25) /\
  logged w = [LogAuthenticated "356307042441013"; LogInvalidPreamble 0xFFFFFFFF] /\
  buffer w = [].
Proof. vm_compute. repeat split. Qed.


Lemma avl_ack_is_record_count_witness :
  exists ack,
    writeUInt32BE 1 = Some ack /\
    length ack = 4%nat /\
    be_uint ack = 1 /\
    sock_written (on_data Codec8.decode "dev" 2 Codec8.one_record_frame Codec8.logged_in)
      = sock_written Codec8.logged_in ++ [ack] /\
    queued (on_data Codec8.decode "dev" 2 Codec8.one_record_frame Codec8.logged_in)
      = queued Codec8.logged_in ++
        [(authIMEI Codec8.logged_in,
          map formatRecord
            [mkAVL (JDate (Some 1560161086000))
                   (Some (mkGPS (JNum 34186968) (JNum 252418784) (JNum 0)
                                (JNum 0) (JNum 0) (JNum 0)))
                   (Some (mkIO (Some ∅)))])] /\
    buffer (on_data Codec8.decode "dev" 2 Codec8.one_record_frame Codec8.logged_in) = [] /\
    activeSessions (on_data Codec8.decode "dev" 2 Codec8.one_record_frame Codec8.logged_in)
      !! "dev"%string =
      Some (mkSession (Some "356307042441013"%string) 0 2 (1 + 1) (17 + 45)).
Proof.
  destruct (proj1 (avl_ack_is_record_count Codec8.decode "dev" 2 Codec8.one_record_frame
                     Codec8.logged_in
                     (mkSession (Some "356307042441013"%string) 0 1 1 17) 33
                     ltac:(reflexivity) ltac:(reflexivity)
                     ltac:(repeat split; vm_compute; congruence)
                     ltac:(vm_compute; discriminate))
              [mkAVL (JDate (Some 1560161086000))
                     (Some (mkGPS (JNum 34186968) (JNum 252418784) (JNum 0)
                                  (JNum 0) (JNum 0) (JNum 0)))
                     (Some (mkIO (Some ∅)))]
              ltac:(eexists; split; [vm_compute; reflexivity |];
                    split; [reflexivity | discriminate])
              ltac:(vm_compute; reflexivity))
    as (ack & Hack & Hl4 & Hval & _ & Hone).
  exists ack. split; [exact Hack |]. split; [exact Hl4 |]. split; [exact Hval |].
  apply Hone. reflexivity.
Defined.

(** C1, refuted as stated: a frame with zero records that the decoder
    decodes without error (codec 8, both counts 0, checksum right) arrives
    on an authenticated session. The encoding of 0 exists, 00000000, but
    it is not written: the socket has been sent the login acknowledgement
    and nothing else, nothing is queued, the frame is consumed with the
    warning that the parser returned no AVL data, and the packet is not
    counted. *)
Lemma zero_record_frame_gets_no_ack :
  Codec8.decode Codec8.no_record_frame = Returns (mkParser (Some (mkContent (Some [])))) /\
  Codec8.stored_crc Codec8.no_record_frame =
    Some (Codec8.crc16 (Codec8.data_field Codec8.no_record_frame)) /\
  writeUInt32BE 0 = Some [x00; x00; x00; x00] /\
  (let w := run Codec8.decode "dev"
              [EvData 1 Codec8.login_frame; EvData 2 Codec8.no_record_frame]
              (handleGpsConnection "dev" 0 ∅) in
   sock_written w = [[x01]] /\
   queued w = [] /\
   buffer w = [] /\
   logged w = [LogAuthenticated "356307042441013"; LogNoAvlData] /\
   activeSessions w !! "dev"%string =
     Some (mkSession (Some "356307042441013"%string) 0 2 1 32)).
Proof. vm_compute. repeat split. Qed.

End FramedWorldWitness.

(** * Invariants of every reachable state (part_000) *)

Section FramedReachable.

Import Framed.

Variable P : Buffer -> Outcome Parser.
Variable sessionId : string.

Lemma world_invariant_init (now : Z) (reg : gmap string Session) :
  world_invariant sessionId (handleGpsConnection sessionId now reg).
Proof.
  split; [| split]; simpl.
  - intros _. unfold BUFFER_CAP. lia.
  - discriminate.
  - intros sess. rewrite lookup_insert_eq. intros [= <-]. reflexivity.
Qed.

Lemma world_invariant_on_data (now : Z) (chunk : Buffer) (w : World) :
  world_invariant sessionId w -> world_invariant sessionId (on_data P sessionId now chunk w).
Proof.
  intros (Hcap & Hlen & Himei). unfold on_data.
  destruct (activeSessions w !! sessionId) as [s |] eqn:Hs;
    [| split; [exact Hcap | split; [exact Hlen |]];
       intros sess Hx; rewrite Hs in Hx; discriminate].
  assert (Hinv : imei_invariant (arrive now chunk (to_state s w))).
  { split; simpl; [apply Himei; reflexivity | exact Hlen]. }
  unfold data_body.
  destruct (BUFFER_CAP <? _) eqn:Hover.
  - split; [| split]; simpl.
    + discriminate.
    + exact Hlen.
    + intros sess. rewrite lookup_insert_eq. intros [= <-]. simpl. apply Himei. reflexivity.
  - apply Z.ltb_ge in Hover.
    pose proof (process_frames_imei P _ Hinv) as [Heq Hl].
    pose proof (process_frames_buffer_le P (arrive now chunk (to_state s w))) as Hle.
    split; [| split]; simpl.
    + intros _. lia.
    + exact Hl.
    + intros sess. rewrite lookup_insert_eq. intros [= <-]. exact Heq.
Qed.

Lemma world_invariant_cleanup (w : World) :
  world_invariant sessionId w -> world_invariant sessionId (cleanup sessionId w).
Proof.
  intros (Hcap & Hlen & Himei). unfold cleanup.
  destruct (activeSessions w !! sessionId) as [s |] eqn:Hs.
  - split; [| split]; simpl.
    + intros _. unfold BUFFER_CAP. lia.
    + exact Hlen.
    + intros sess. rewrite lookup_delete_eq. discriminate.
  - split; [| split]; simpl.
    + intros _. unfold BUFFER_CAP. lia.
    + exact Hlen.
    + intros sess Hx. rewrite Hs in Hx. discriminate.
Qed.

Lemma world_invariant_handle (e : SocketEvent) (w : World) :
  world_invariant sessionId w -> world_invariant sessionId (handle P sessionId e w).
Proof.
  destruct e; simpl.
  - apply world_invariant_on_data.
  - apply world_invariant_cleanup.
  - apply world_invariant_cleanup.
  - apply world_invariant_cleanup.
  - intros (Hcap & Hlen & Himei). split; [| split]; simpl.
    + discriminate.
    + exact Hlen.
    + exact Himei.
Qed.

Lemma world_invariant_run (es : list SocketEvent) (w : World) :
  world_invariant sessionId w -> world_invariant sessionId (run P sessionId es w).
Proof.
  revert w. induction es as [| e es IH]; intros w Hw; simpl; [exact Hw |].
  apply IH. apply world_invariant_handle. exact Hw.
Qed.

Lemma reachable_invariant (w : World) :
  reachable P sessionId w -> world_invariant sessionId w.
Proof.
  intros (now & reg & es & ->). apply world_invariant_run, world_invariant_init.
Qed.

(** C5, as the code has it. Between the events of a connection, the
    buffer of a connection whose socket has not been destroyed holds at
    most 65,536 bytes. An arriving chunk that makes the buffer exceed the
    cap gets the socket destroyed, with the error "Buffer too large" and
    no frame processed; the chunk was appended before the check (line
    115) and the buffer is not cleared, so the destroyed connection holds
    more than 65,536 bytes until [cleanup], which the [close] event runs,
    empties the buffer. *)
Theorem buffer_never_exceeds_cap :
  (forall w, reachable P sessionId w -> sock_destroyed w = false ->
             Z.of_nat (length (buffer w)) <= 65536) /\
  (forall now chunk w s,
      activeSessions w !! sessionId = Some s ->
      65536 < Z.of_nat (length (buffer w ++ chunk)) ->
      sock_destroyed (on_data P sessionId now chunk w) = true /\
      logged (on_data P sessionId now chunk w) =
        logged w ++ [LogBufferTooLarge (length (buffer w ++ chunk))] /\
      sock_written (on_data P sessionId now chunk w) = sock_written w /\
      queued (on_data P sessionId now chunk w) = queued w /\
      buffer (on_data P sessionId now chunk w) = buffer w ++ chunk) /\
  (forall w, buffer (cleanup sessionId w) = []).
Proof.
  split; [| split].
  - intros w Hr Hd. apply reachable_invariant in Hr. destruct Hr as (Hcap & _).
    exact (Hcap Hd).
  - intros now chunk w s Hs Hover. unfold on_data. rewrite Hs. unfold data_body.
    replace (BUFFER_CAP <? _) with true; [repeat split |].
    symmetry. apply Z.ltb_lt. exact Hover.
  - intros w. unfold cleanup. destruct (activeSessions w !! sessionId); reflexivity.
Qed.

(** C4, as the code has it. In every reachable state of a connection,
    an authenticated session has a non-null IMEI of exactly 15 characters,
    the same in the session table; and the payload of a login frame is not
    validated: a login frame that announces 15 bytes authenticates the
    session with these bytes read as 7-bit ASCII, whatever they are, and
    is acknowledged with the byte 0x01. *)
Theorem authenticated_imei_has_15_chars :
  (forall w, reachable P sessionId w -> truthy_str (authIMEI w) = true ->
     exists s, authIMEI w = Some s /\ String.length s = 15%nat /\
               forall sess, activeSessions w !! sessionId = Some sess ->
                            imei sess = Some s) /\
  (forall now chunk w s payload,
     activeSessions w !! sessionId = Some s ->
     truthy_str (authIMEI w) = false ->
     buffer w ++ chunk = [x00; x0f] ++ payload ->
     length payload = 15%nat ->
     authIMEI (on_data P sessionId now chunk w) = Some (toString_ascii payload) /\
     sock_written (on_data P sessionId now chunk w) = sock_written w ++ [[x01]] /\
     sock_destroyed (on_data P sessionId now chunk w) = sock_destroyed w /\
     buffer (on_data P sessionId now chunk w) = [] /\
     activeSessions (on_data P sessionId now chunk w) !! sessionId =
       Some (mkSession (Some (toString_ascii payload)) (connectedAt s) now
                       (packetsReceived s + 1)
                       (bytesReceived s + Z.of_nat (length chunk)))).
Proof.
  split.
  - intros w Hr Ha. apply reachable_invariant in Hr. destruct Hr as (_ & Hlen & Himei).
    destruct (authIMEI w) as [s |] eqn:Hau; [| discriminate].
    exists s. split; [reflexivity |]. split; [apply Hlen; reflexivity |].
    intros sess Hsess. apply Himei. exact Hsess.
  - intros now chunk w s payload Hs Ha Hbuf Hlen.
    assert (Hcap : Z.of_nat (length (buffer w ++ chunk)) <= BUFFER_CAP).
    { rewrite Hbuf, length_app, Hlen. unfold BUFFER_CAP. simpl. lia. }
    rewrite (on_data_within_cap P sessionId now chunk w s Hs Hcap).
    set (st := arrive now chunk (to_state s w)).
    assert (Hb : dataBuffer st = [x00; x0f] ++ payload) by exact Hbuf.
    assert (Hstep := frame_step_login P st Ha).
    rewrite Hb in Hstep. specialize (Hstep ltac:(rewrite length_app, Hlen; simpl; lia) eq_refl).
    rewrite (process_frames_continue P st _ ltac:(rewrite Hb; discriminate) Hstep).
    rewrite process_frames_empty.
    + simpl. rewrite lookup_insert_eq. unfold slice. simpl.
      rewrite drop_0, (take_ge payload 15), (drop_ge payload 15) by lia.
      repeat split.
    + simpl. apply drop_ge. lia.
Qed.

End FramedReachable.

Section FramedReachableWitness.

Import Framed.

Lemma authenticated_imei_has_15_chars_witness :
  exists s, authIMEI Codec8.logged_in = Some s /\ String.length s = 15%nat /\
            forall sess, activeSessions Codec8.logged_in !! "dev"%string = Some sess ->
                         imei sess = Some s.
Proof.
  apply (proj1 (authenticated_imei_has_15_chars Codec8.decode "dev") Codec8.logged_in).
  - exists 0, ∅, [EvData 1 Codec8.login_frame]. reflexivity.
  - reflexivity.
Defined.

(** C4, refuted as stated: a login frame whose 15 payload bytes are the
    letters A to O is not rejected. The session is authenticated with the
    IMEI "ABCDEFGHIJKLMNO", which is not made of decimal digits, and the
    login is acknowledged. *)
Lemma letters_login_is_accepted :
  let w := run Codec8.decode "dev" [EvData 1 Codec8.login_letters]
             (handleGpsConnection "dev" 0 ∅) in
  authIMEI w = Some "ABCDEFGHIJKLMNO"%string /\
  activeSessions w !! "dev"%string =
    Some (mkSession (Some "ABCDEFGHIJKLMNO"%string) 0 1 1 17) /\
  sock_written w = [[x01]] /\
  sock_destroyed w = false /\
  logged w = [LogAuthenticated "ABCDEFGHIJKLMNO"].
Proof. vm_compute. repeat split. Qed.

Lemma buffer_never_exceeds_cap_witness :
  Z.of_nat (length (buffer Codec8.logged_in)) <= 65536 /\
  sock_destroyed
    (on_data Codec8.decode "dev" 1 (List.repeat x00 (Z.to_nat 65537))
       (handleGpsConnection "dev" 0 ∅)) = true.
Proof.
  split.
  - apply (proj1 (buffer_never_exceeds_cap Codec8.decode "dev") Codec8.logged_in).
    + exists 0, ∅, [EvData 1 Codec8.login_frame]. reflexivity.
    + reflexivity.
  - apply (proj1 (proj2 (buffer_never_exceeds_cap Codec8.decode "dev"))
             1 (List.repeat x00 (Z.to_nat 65537)) (handleGpsConnection "dev" 0 ∅)
             (mkSession None 0 0 0 0)).
    + reflexivity.
    + vm_compute. reflexivity.
Defined.

(** C5, refuted as stated: one chunk of 65,537 bytes arrives on a fresh
    connection. The socket is destroyed, and the state is one the
    connection is in between two events: the session is still in the
    table and the buffer holds 65,537 bytes, more than the cap. *)
Lemma oversize_buffer_is_kept :
  let w := on_data Codec8.decode "dev" 1 (List.repeat x00 (Z.to_nat 65537))
             (handleGpsConnection "dev" 0 ∅) in
  reachable Codec8.decode "dev" w /\
  Z.of_nat (length (buffer w)) = 65537 /\
  sock_destroyed w = true /\
  activeSessions w !! "dev"%string = Some (mkSession None 0 1 0 65537) /\
  sock_written w = [] /\
  match logged w with
  | [LogBufferTooLarge len] => Z.of_nat len = 65537
  | _ => False
  end.
Proof.
  split.
  - exists 0, ∅, [EvData 1 (List.repeat x00 (Z.to_nat 65537))]. reflexivity.
  - vm_compute. repeat split.
Qed.

End FramedReachableWitness.

(** * Chunking of the byte stream (part_000) *)

Section FramedChunking.

Import Framed.

Variable P : Buffer -> Outcome Parser.

Lemma arrive_retime_push (now : Z) (chunk : Buffer) (st : State) :
  arrive now chunk st = push chunk (retime now (Z.of_nat (length chunk)) st).
Proof. reflexivity. Qed.

(** The decoder's verdict on a frame does not read the session
    statistics. *)
Lemma parse_avl_retime (now n total : Z) (st : State) :
  parse_avl P total (retime now n st) =
    (retime now n (fst (parse_avl P total st)), snd (parse_avl P total st)).
Proof.
  unfold parse_avl. simpl dataBuffer.
  destruct (P (dataBuffer st)) as [parser |]; [| reflexivity].
  destruct (Content parser) as [[[rs |]] |]; try reflexivity.
  destruct (0 <? length rs)%nat; try reflexivity.
  destruct (writeUInt32BE _); reflexivity.
Qed.

(** A turn of the loop does not read the session statistics. *)
Lemma frame_step_retime (now n : Z) (st : State) :
  frame_step P (retime now n st) =
    (fst (frame_step P st), retime now n (snd (frame_step P st))).
Proof.
  destruct (frame_step_cases st)
    as [(Ha & Hlen & Hrd) | [(Ha & Hc) | [(Ha & Hlt) | [(Ha & Hlen & p & Hp & Hnz)
        | [(Ha & Hlen & Hp & d & Hd & Hlt) | (Ha & d & Hf)]]]]].
  - rewrite (frame_step_login P st Ha Hlen Hrd).
    rewrite (frame_step_login P (retime now n st) Ha Hlen Hrd). reflexivity.
  - rewrite (frame_step_no_login P st Ha Hc).
    rewrite (frame_step_no_login P (retime now n st) Ha Hc). reflexivity.
  - rewrite (frame_step_short P st Ha Hlt).
    rewrite (frame_step_short P (retime now n st) Ha Hlt). reflexivity.
  - rewrite (frame_step_bad_preamble P st p Ha Hlen Hp Hnz).
    rewrite (frame_step_bad_preamble P (retime now n st) p Ha Hlen Hp Hnz). reflexivity.
  - rewrite (frame_step_incomplete P st d Ha Hlen Hp Hd Hlt).
    rewrite (frame_step_incomplete P (retime now n st) d Ha Hlen Hp Hd Hlt). reflexivity.
  - rewrite (frame_step_frame P st d Ha Hf).
    rewrite (frame_step_frame P (retime now n st) d Ha Hf).
    rewrite parse_avl_retime. reflexivity.
Qed.

Lemma process_frames_retime (now n : Z) (st : State) :
  process_frames P (retime now n st) = retime now n (process_frames P st).
Proof.
  apply (process_frames_ind P
           (fun st st' => process_frames P (retime now n st) = retime now n st')).
  - intros s Hs. apply process_frames_empty. exact Hs.
  - intros s s' Hne Hstep. apply process_frames_break; [exact Hne |].
    rewrite frame_step_retime, Hstep. reflexivity.
  - intros s s' s'' Hne Hstep _ IH. rewrite <- IH.
    apply process_frames_continue; [exact Hne |].
    rewrite frame_step_retime, Hstep. reflexivity.
Qed.

(** The clock shows in the session statistics only: two runs of the
    [data] callback at different times differ in [lastDataAt] alone. *)
Lemma data_body_retime (now now' : Z) (chunk : Buffer) (st : State) :
  data_body P now chunk st = retime now 0 (data_body P now' chunk st).
Proof.
  assert (Harr : arrive now chunk st = retime now 0 (arrive now' chunk st)).
  { unfold arrive, retime. simpl. rewrite Z.add_0_r. reflexivity. }
  unfold data_body. rewrite Harr. simpl dataBuffer.
  destruct (BUFFER_CAP <? _); [reflexivity |].
  apply process_frames_retime.
Qed.

End FramedChunking.

Section FramedChunkingLocal.

Import Framed.

Variable P : Buffer -> Outcome Parser.
Hypothesis Hlocal : frame_local P.

Lemma frame_at_head_app (buf rest : Buffer) (dataLength : Z) :
  frame_at_head buf dataLength -> frame_at_head (buf ++ rest) dataLength.
Proof.
  intros Hf. pose proof (frame_at_head_length _ _ Hf) as [Hd0 Hlen].
  destruct Hf as (Hp & Hd & Hfit). unfold frame_at_head, readUInt32BE in *.
  rewrite !read_be_app by lia. rewrite length_app. repeat split; [assumption .. | lia].
Qed.

(** Bytes behind a complete frame do not change what is done with it. *)
Lemma parse_avl_push (total : Z) (chunk : Buffer) (st : State) (dataLength : Z) :
  frame_at_head (dataBuffer st) dataLength ->
  parse_avl P total (push chunk st) =
    (push chunk (fst (parse_avl P total st)), snd (parse_avl P total st)).
Proof.
  intros Hf. unfold parse_avl. simpl dataBuffer.
  rewrite (Hlocal _ chunk _ Hf).
  destruct (P (dataBuffer st)) as [parser |]; [| reflexivity].
  destruct (Content parser) as [[[rs |]] |]; try reflexivity.
  destruct (0 <? length rs)%nat; try reflexivity.
  destruct (writeUInt32BE _); reflexivity.
Qed.

(** A turn that consumed a frame consumes the same frame, with the same
    effects, when more bytes are buffered behind it. *)
Lemma frame_step_push_continue (chunk : Buffer) (st st' : State) :
  frame_step P st = (Continue, st') ->
  frame_step P (push chunk st) = (Continue, push chunk st').
Proof.
  intros Hstep.
  destruct (frame_step_cases st)
    as [(Ha & Hlen & Hrd) | [(Ha & Hc) | [(Ha & Hlt) | [(Ha & Hlen & p & Hp & Hnz)
        | [(Ha & Hlen & Hp & d & Hd & Hlt) | (Ha & d & Hf)]]]]].
  - rewrite (frame_step_login P st Ha Hlen Hrd) in Hstep. injection Hstep as <-.
    assert (Hlen' : (17 <= length (dataBuffer (push chunk st)))%nat)
      by (simpl; rewrite length_app; lia).
    assert (Hrd' : readUInt16BE (dataBuffer (push chunk st)) 0 = Some 15)
      by (simpl; unfold readUInt16BE in *; rewrite read_be_app by lia; exact Hrd).
    rewrite (frame_step_login P (push chunk st) Ha Hlen' Hrd').
    unfold push, set_buffer, slice. simpl.
    rewrite !drop_app_le by lia.
    rewrite take_app_le by (rewrite length_drop; lia). reflexivity.
  - rewrite (frame_step_no_login P st Ha Hc) in Hstep. discriminate.
  - rewrite (frame_step_short P st Ha Hlt) in Hstep. discriminate.
  - rewrite (frame_step_bad_preamble P st p Ha Hlen Hp Hnz) in Hstep. discriminate.
  - rewrite (frame_step_incomplete P st d Ha Hlen Hp Hd Hlt) in Hstep. discriminate.
  - rewrite (frame_step_frame P st d Ha Hf) in Hstep. injection Hstep as <-.
    pose proof (frame_at_head_length _ _ Hf) as [Hd0 Hlen].
    assert (Hfit : 8 + d + 4 <= Z.of_nat (length (dataBuffer st))) by apply Hf.
    rewrite (frame_step_frame P (push chunk st) d Ha (frame_at_head_app _ chunk _ Hf)).
    rewrite (parse_avl_push _ chunk st d Hf).
    unfold push, set_buffer. simpl.
    rewrite drop_app_le by lia. reflexivity.
Qed.

(** The console only grows. *)
Lemma parse_avl_console (total : Z) (st : State) :
  exists e, console (fst (parse_avl P total st)) = console st ++ [e] /\
            is_preamble_fault e = false.
Proof.
  unfold parse_avl.
  destruct (P (dataBuffer st)) as [parser |]; [| eexists; split; reflexivity].
  destruct (Content parser) as [[[rs |]] |]; try (eexists; split; reflexivity).
  destruct (0 <? length rs)%nat; try (eexists; split; reflexivity).
  destruct (writeUInt32BE _); eexists; split; reflexivity.
Qed.

Lemma frame_step_console (st st' : State) (c : Control) :
  frame_step P st = (c, st') -> exists evs, console st' = console st ++ evs.
Proof.
  intros Hstep.
  destruct (frame_step_cases st)
    as [(Ha & Hlen & Hrd) | [(Ha & Hc) | [(Ha & Hlt) | [(Ha & Hlen & p & Hp & Hnz)
        | [(Ha & Hlen & Hp & d & Hd & Hlt) | (Ha & d & Hf)]]]]].
  - rewrite (frame_step_login P st Ha Hlen Hrd) in Hstep. injection Hstep as _ <-.
    eexists. reflexivity.
  - rewrite (frame_step_no_login P st Ha Hc) in Hstep. injection Hstep as _ <-.
    exists []. symmetry. apply app_nil_r.
  - rewrite (frame_step_short P st Ha Hlt) in Hstep. injection Hstep as _ <-.
    exists []. symmetry. apply app_nil_r.
  - rewrite (frame_step_bad_preamble P st p Ha Hlen Hp Hnz) in Hstep.
    injection Hstep as _ <-. eexists. reflexivity.
  - rewrite (frame_step_incomplete P st d Ha Hlen Hp Hd Hlt) in Hstep.
    injection Hstep as _ <-. exists []. symmetry. apply app_nil_r.
  - rewrite (frame_step_frame P st d Ha Hf) in Hstep. injection Hstep as _ <-.
    destruct (parse_avl_console (8 + d + 4) st) as (e & He & _).
    exists [e]. exact He.
Qed.

Lemma process_frames_console (st : State) :
  exists evs, console (process_frames P st) = console st ++ evs.
Proof.
  apply (process_frames_ind P (fun st st' => exists evs, console st' = console st ++ evs)).
  - intros s _. exists []. symmetry. apply app_nil_r.
  - intros s s' _ H. exact (frame_step_console _ _ _ H).
  - intros s s' s'' _ H _ [evs2 IH]. destruct (frame_step_console _ _ _ H) as [evs1 H1].
    exists (evs1 ++ evs2). rewrite IH, H1, app_assoc. reflexivity.
Qed.

Lemma fault_stays (chunk : Buffer) (st : State) :
  existsb is_preamble_fault (console st) = true ->
  existsb is_preamble_fault (console (process_frames P (push chunk st))) = true.
Proof.
  intros H. destruct (process_frames_console (push chunk st)) as [evs ->].
  simpl. rewrite existsb_app, H. reflexivity.
Qed.

(** If the loop ran without a preamble fault, running it again once a
    chunk has arrived gives what running it on the whole buffer gives. *)
Lemma process_frames_push (chunk : Buffer) (st : State) :
  existsb is_preamble_fault (console (process_frames P st)) = false ->
  process_frames P (push chunk st) =
    process_frames P (push chunk (process_frames P st)).
Proof.
  apply (process_frames_ind P
           (fun st st' => existsb is_preamble_fault (console st') = false ->
                          process_frames P (push chunk st) =
                            process_frames P (push chunk st'))).
  - reflexivity.
  - intros s s' _ Hstep Hnf. apply frame_step_break in Hstep.
    destruct Hstep as [-> | (p & _ & _ & _ & _ & ->)]; [reflexivity |].
    simpl in Hnf. rewrite existsb_app in Hnf. simpl in Hnf.
    rewrite orb_true_r in Hnf. discriminate.
  - intros s s' s'' Hne Hstep _ IH Hnf. rewrite <- (IH Hnf).
    apply process_frames_continue.
    + simpl. intros Hnil. apply app_eq_nil in Hnil. tauto.
    + apply frame_step_push_continue. exact Hstep.
Qed.

(** A preamble fault met on a buffer is met on every extension of it. *)
Lemma process_frames_fault_mono (chunk : Buffer) (st : State) :
  existsb is_preamble_fault (console (process_frames P st)) = true ->
  existsb is_preamble_fault (console (process_frames P (push chunk st))) = true.
Proof.
  apply (process_frames_ind P
           (fun st st' =>
              existsb is_preamble_fault (console st') = true ->
              existsb is_preamble_fault (console (process_frames P (push chunk st))) = true)).
  - intros s _. apply fault_stays.
  - intros s s' Hne Hstep Hf. apply frame_step_break in Hstep.
    destruct Hstep as [-> | (p & Hnz & Ha & Hlen & Hrd & ->)]; [apply fault_stays; exact Hf |].
    assert (Hlen' : (8 <= length (dataBuffer (push chunk s)))%nat)
      by (simpl; rewrite length_app; lia).
    assert (Hrd' : readUInt32BE (dataBuffer (push chunk s)) 0 = Some p)
      by (simpl; unfold readUInt32BE in *; rewrite read_be_app by lia; exact Hrd).
    rewrite (process_frames_break P (push chunk s) _
               ltac:(simpl; intros Hnil; apply app_eq_nil in Hnil; tauto)
               (frame_step_bad_preamble P (push chunk s) p Ha Hlen' Hrd' Hnz)).
    simpl. rewrite existsb_app. simpl. apply orb_true_r.
  - intros s s' s'' Hne Hstep _ IH Hf.
    rewrite (process_frames_continue P (push chunk s) (push chunk s')).
    + apply IH. exact Hf.
    + simpl. intros Hnil. apply app_eq_nil in Hnil. tauto.
    + apply frame_step_push_continue. exact Hstep.
Qed.

End FramedChunkingLocal.

Section FramedDelivery.

Import Framed.

Variable P : Buffer -> Outcome Parser.
Hypothesis Hlocal : frame_local P.
Variable sessionId : string.

Lemma arrive_app (now now0 : Z) (c1 c2 : Buffer) (st : State) :
  push c2 (retime now (Z.of_nat (length c2)) (arrive now0 c1 st)) =
  arrive now (c1 ++ c2) st.
Proof.
  unfold push, retime, arrive, set_buffer. simpl.
  rewrite length_app, Nat2Z.inj_add, Z.add_assoc, app_assoc. reflexivity.
Qed.

(** Two chunks in a row, the first processed without a preamble fault,
    leave the callback's state as the two chunks in one leave it. *)
Lemma data_body_split (now now0 : Z) (c1 c2 : Buffer) (st : State) :
  Z.of_nat (length (dataBuffer st ++ c1 ++ c2)) <= BUFFER_CAP ->
  existsb is_preamble_fault (console (data_body P now0 c1 st)) = false ->
  data_body P now c2 (data_body P now0 c1 st) = data_body P now (c1 ++ c2) st.
Proof.
  intros Hcap Hnf. rewrite !length_app in Hcap.
  assert (H1 : data_body P now0 c1 st = process_frames P (arrive now0 c1 st)).
  { unfold data_body. replace (BUFFER_CAP <? _) with false; [reflexivity |].
    symmetry. apply Z.ltb_ge. simpl. rewrite length_app. lia. }
  assert (H12 : data_body P now (c1 ++ c2) st = process_frames P (arrive now (c1 ++ c2) st)).
  { unfold data_body. replace (BUFFER_CAP <? _) with false; [reflexivity |].
    symmetry. apply Z.ltb_ge. simpl. rewrite !length_app. lia. }
  rewrite H1 in Hnf |- *. rewrite H12.
  pose proof (process_frames_buffer_le P (arrive now0 c1 st)) as Hle.
  simpl in Hle. rewrite length_app in Hle.
  unfold data_body at 1.
  replace (BUFFER_CAP <? _) with false
    by (symmetry; apply Z.ltb_ge; simpl; rewrite length_app; lia).
  rewrite arrive_retime_push, <- process_frames_retime.
  rewrite <- (process_frames_push P Hlocal).
  - rewrite arrive_app. reflexivity.
  - rewrite process_frames_retime. exact Hnf.
Qed.

(** A preamble fault met while the first chunk is processed is met when
    the two chunks arrive in one. *)
Lemma data_body_fault_mono (now now0 : Z) (c1 c2 : Buffer) (st : State) :
  Z.of_nat (length (dataBuffer st ++ c1 ++ c2)) <= BUFFER_CAP ->
  existsb is_preamble_fault (console (data_body P now (c1 ++ c2) st)) = false ->
  existsb is_preamble_fault (console (data_body P now0 c1 st)) = false.
Proof.
  intros Hcap Hnf. rewrite !length_app in Hcap.
  destruct (existsb _ (console (data_body P now0 c1 st))) eqn:Hf; [| reflexivity].
  rewrite <- Hnf. symmetry.
  unfold data_body in Hf |- *.
  replace (BUFFER_CAP <? Z.of_nat (length (dataBuffer (arrive now0 c1 st)))) with false in Hf
    by (symmetry; apply Z.ltb_ge; simpl; rewrite length_app; lia).
  replace (BUFFER_CAP <? _) with false
    by (symmetry; apply Z.ltb_ge; simpl; rewrite !length_app; lia).
  rewrite <- (arrive_app now now0 c1 c2 st).
  apply (process_frames_fault_mono P Hlocal). rewrite process_frames_retime. exact Hf.
Qed.

Lemma to_of_state (reg : gmap string Session) (st : State) :
  to_state (session st) (of_state sessionId reg st) = st.
Proof. destruct st. reflexivity. Qed.

(** The same for the [data] callback of a registered session. *)
Lemma on_data_split (now now0 : Z) (c1 c2 : Buffer) (w : World) (s : Session) :
  activeSessions w !! sessionId = Some s ->
  Z.of_nat (length (buffer w ++ c1 ++ c2)) <= BUFFER_CAP ->
  existsb is_preamble_fault (logged (on_data P sessionId now0 c1 w)) = false ->
  on_data P sessionId now c2 (on_data P sessionId now0 c1 w) =
    on_data P sessionId now (c1 ++ c2) w.
Proof.
  intros Hs Hcap Hnf. unfold on_data in *. rewrite Hs in *.
  simpl activeSessions. rewrite lookup_insert_eq.
  rewrite to_of_state.
  rewrite (data_body_split now now0 c1 c2 (to_state s w) Hcap Hnf).
  unfold of_state. rewrite insert_insert_eq. reflexivity.
Qed.

Lemma on_data_fault_mono (now now0 : Z) (c1 c2 : Buffer) (w : World) (s : Session) :
  activeSessions w !! sessionId = Some s ->
  Z.of_nat (length (buffer w ++ c1 ++ c2)) <= BUFFER_CAP ->
  existsb is_preamble_fault (logged (on_data P sessionId now (c1 ++ c2) w)) = false ->
  existsb is_preamble_fault (logged (on_data P sessionId now0 c1 w)) = false.
Proof.
  intros Hs Hcap Hnf. unfold on_data in *. rewrite Hs in *.
  exact (data_body_fault_mono now now0 c1 c2 (to_state s w) Hcap Hnf).
Qed.

Lemma run_snoc (es : list SocketEvent) (e : SocketEvent) (w : World) :
  run P sessionId (es ++ [e]) w = handle P sessionId e (run P sessionId es w).
Proof. unfold run. rewrite fold_left_app. reflexivity. Qed.

Lemma bytewise_snoc (clock : nat -> Z) (S : Buffer) (b : byte) :
  bytewise clock (S ++ [b]) = bytewise clock S ++ [EvData (clock (length S)) [b]].
Proof.
  unfold bytewise. rewrite imap_app. simpl. rewrite Nat.add_0_r. reflexivity.
Qed.

(** Byte by byte or in one chunk: the same world, when the stream as one
    chunk meets no preamble fault and fits in the buffer. The one chunk is
    delivered at the time of the last byte. *)
Lemma run_bytewise (clock : nat -> Z) (w : World) (s : Session) (S : Buffer) (b : byte) :
  activeSessions w !! sessionId = Some s ->
  Z.of_nat (length (buffer w ++ S ++ [b])) <= BUFFER_CAP ->
  existsb is_preamble_fault
    (logged (on_data P sessionId (clock (length S)) (S ++ [b]) w)) = false ->
  run P sessionId (bytewise clock (S ++ [b])) w =
    on_data P sessionId (clock (length S)) (S ++ [b]) w.
Proof.
  intros Hs. revert b. induction S as [| b' S' IH] using rev_ind; intros b Hcap Hnf.
  - reflexivity.
  - rewrite bytewise_snoc, run_snoc. simpl handle.
    assert (Hcap' : Z.of_nat (length (buffer w ++ (S' ++ [b']) ++ [b])) <= BUFFER_CAP)
      by exact Hcap.
    assert (Hnf' : existsb is_preamble_fault
                     (logged (on_data P sessionId (clock (length S')) (S' ++ [b']) w)) = false).
    { exact (on_data_fault_mono _ _ (S' ++ [b']) [b] w s Hs Hcap' Hnf). }
    rewrite IH.
    + apply (on_data_split _ _ (S' ++ [b']) [b] w s Hs Hcap' Hnf').
    + rewrite !length_app in *. simpl in *. lia.
    + exact Hnf'.
Qed.

(** The emissions of the [data] callback do not depend on the clock. *)
Lemma on_data_clock_free (now now' : Z) (chunk : Buffer) (w : World) :
  same_emissions (on_data P sessionId now chunk w) (on_data P sessionId now' chunk w) /\
  buffer (on_data P sessionId now chunk w) = buffer (on_data P sessionId now' chunk w) /\
  authIMEI (on_data P sessionId now chunk w) = authIMEI (on_data P sessionId now' chunk w) /\
  sock_destroyed (on_data P sessionId now chunk w) =
    sock_destroyed (on_data P sessionId now' chunk w).
Proof.
  unfold on_data, same_emissions.
  destruct (activeSessions w !! sessionId) as [s |]; [| repeat split].
  rewrite (data_body_retime P now now'). repeat split.
Qed.

End FramedDelivery.

Section FramedDeliveryTheorem.

Import Framed.

Variable P : Buffer -> Outcome Parser.
Variable sessionId : string.

(** C7, as the code has it. A fault does not end the connection, so
    what follows a fault is framed differently from one chunking to
    another. For a decoder that reads the frame at the head of the buffer
    only, and every byte stream of at most 65,536 bytes whose delivery as a
    single chunk to a fresh session meets no preamble fault: delivering it
    one byte per chunk produces the same frame events, the same chunks
    written to the socket (the ACKs) and the same batches queued for the
    sink, and leaves the same bytes buffered and the same IMEI. *)
Theorem bytewise_delivery_without_fault (clock : nat -> Z) (now t0 : Z)
    (reg : gmap string Session) (S : Buffer) :
  frame_local P ->
  Z.of_nat (length S) <= 65536 ->
  existsb is_preamble_fault
    (logged (on_data P sessionId now S (handleGpsConnection sessionId t0 reg))) = false ->
  same_emissions
    (run P sessionId (bytewise clock S) (handleGpsConnection sessionId t0 reg))
    (on_data P sessionId now S (handleGpsConnection sessionId t0 reg)) /\
  buffer (run P sessionId (bytewise clock S) (handleGpsConnection sessionId t0 reg)) =
    buffer (on_data P sessionId now S (handleGpsConnection sessionId t0 reg)) /\
  authIMEI (run P sessionId (bytewise clock S) (handleGpsConnection sessionId t0 reg)) =
    authIMEI (on_data P sessionId now S (handleGpsConnection sessionId t0 reg)).
Proof.
  intros Hlocal Hcap Hnf.
  destruct S as [| b' S'] using rev_ind.
  - unfold on_data, same_emissions. simpl. rewrite lookup_insert_eq. repeat split.
  - clear IHS'.
    set (w0 := handleGpsConnection sessionId t0 reg) in *.
    assert (Hs : activeSessions w0 !! sessionId = Some (mkSession None t0 t0 0 0))
      by apply lookup_insert_eq.
    destruct (on_data_clock_free P sessionId (clock (length S')) now (S' ++ [b']) w0)
      as ((Hl & Hw & Hq) & Hb & Ha & _).
    rewrite (run_bytewise P Hlocal sessionId clock w0 _ S' b' Hs).
    + unfold same_emissions. repeat split; assumption.
    + exact Hcap.
    + rewrite Hl. exact Hnf.
Qed.

End FramedDeliveryTheorem.

Section ReferenceDecoderLocal.

Import Framed.

(** The reference decoder reads the frame at the head of the buffer only. *)
Lemma decode_frame_local : frame_local Codec8.decode.
Proof.
  intros buf rest d Hf. pose proof (frame_at_head_length _ _ Hf) as [Hd0 Hlen].
  pose proof (frame_at_head_app buf rest d Hf) as Hf'.
  destruct Hf as (Hp & Hd & Hfit). destruct Hf' as (Hp' & Hd' & Hfit').
  unfold Codec8.decode. rewrite Hp, Hd, Hp', Hd'.
  replace (8 + d + 4 <=? Z.of_nat (length (buf ++ rest))) with true
    by (symmetry; apply Z.leb_le; exact Hfit').
  replace (8 + d + 4 <=? Z.of_nat (length buf)) with true
    by (symmetry; apply Z.leb_le; exact Hfit).
  assert (Hdata : Codec8.data_field (buf ++ rest) = Codec8.data_field buf).
  { unfold Codec8.data_field. rewrite Hd, Hd'.
    rewrite drop_app_le by lia.
    rewrite take_app_le by (rewrite length_drop; lia). reflexivity. }
  assert (Hcrc : Codec8.stored_crc (buf ++ rest) = Codec8.stored_crc buf).
  { unfold Codec8.stored_crc. rewrite Hd, Hd'. unfold readUInt32BE.
    apply read_be_app. lia. }
  rewrite Hdata, Hcrc. reflexivity.
Qed.

End ReferenceDecoderLocal.

Section FramedDeliveryWitness.

Import Framed.

Lemma bytewise_delivery_without_fault_witness :
  same_emissions
    (run Codec8.decode "dev"
       (bytewise Z.of_nat (Codec8.login_frame ++ Codec8.one_record_frame))
       (handleGpsConnection "dev" 0 ∅))
    (on_data Codec8.decode "dev" 100 (Codec8.login_frame ++ Codec8.one_record_frame)
       (handleGpsConnection "dev" 0 ∅)) /\
  buffer (run Codec8.decode "dev"
            (bytewise Z.of_nat (Codec8.login_frame ++ Codec8.one_record_frame))
            (handleGpsConnection "dev" 0 ∅)) =
    buffer (on_data Codec8.decode "dev" 100
              (Codec8.login_frame ++ Codec8.one_record_frame)
              (handleGpsConnection "dev" 0 ∅)) /\
  authIMEI (run Codec8.decode "dev"
              (bytewise Z.of_nat (Codec8.login_frame ++ Codec8.one_record_frame))
              (handleGpsConnection "dev" 0 ∅)) =
    authIMEI (on_data Codec8.decode "dev" 100
                (Codec8.login_frame ++ Codec8.one_record_frame)
                (handleGpsConnection "dev" 0 ∅)).
Proof.
  apply (bytewise_delivery_without_fault Codec8.decode "dev" Z.of_nat 100 0 ∅
           (Codec8.login_frame ++ Codec8.one_record_frame)).
  - exact decode_frame_local.
  - vm_compute. discriminate.
  - vm_compute. reflexivity.
Defined.

(** C7, refuted as stated. The stream is a login frame, eight bytes
    0xFF and a well-formed AVL frame with one record. As a single chunk:
    the login is acknowledged, the preamble error is logged and the whole
    buffer, the AVL frame with it, is dropped. One byte per chunk: the
    buffer is dropped when the eighth 0xFF byte arrives, and the AVL frame
    that arrives afterwards is decoded, queued for the sink and
    acknowledged with 00000001. And whatever the decoder, a login frame
    followed by sixteen bytes 0xFF logs one preamble error as a single
    chunk and two when delivered one byte per chunk. *)
Lemma bytewise_delivery_differs :
  (let S := Codec8.login_frame ++ hex "FFFFFFFFFFFFFFFF" ++ Codec8.one_record_frame in
   let w1 := on_data Codec8.decode "dev" 100 S (handleGpsConnection "dev" 0 ∅) in
   let w2 := run Codec8.decode "dev" (bytewise Z.of_nat S) (handleGpsConnection "dev" 0 ∅) in
   sock_written w1 = [[x01]] /\
   logged w1 = [LogAuthenticated "356307042441013"; LogInvalidPreamble 0xFFFFFFFF] /\
   queued w1 = [] /\
   sock_written w2 = [[x01]; [x00; x00; x00; x01]] /\
   logged w2 = [LogAuthenticated "356307042441013"; LogInvalidPreamble 0xFFFFFFFF;
                LogAcknowledged 1] /\
   length (queued w2) = 1%nat) /\
  (forall P : Buffer -> Outcome Parser,
   let S := Codec8.login_frame ++ hex "FFFFFFFFFFFFFFFFFFFFFFFFFFFFFFFF" in
   logged (on_data P "dev" 100 S (handleGpsConnection "dev" 0 ∅)) =
     [LogAuthenticated "356307042441013"; LogInvalidPreamble 0xFFFFFFFF] /\
   logged (run P "dev" (bytewise Z.of_nat S) (handleGpsConnection "dev" 0 ∅)) =
     [LogAuthenticated "356307042441013"; LogInvalidPreamble 0xFFFFFFFF;
      LogInvalidPreamble 0xFFFFFFFF]).
Proof.
  split.
  - vm_compute. repeat split.
  - intros P. vm_compute. repeat split.
Qed.

End FramedDeliveryWitness.

(** * The handler of index.js *)

Section DelegatedFacts.

Import Delegated.

Variable P : Buffer -> Outcome Parser.

(** When the decoder throws, the loop stops and waits for more bytes:
    nothing is consumed, written or queued, and the socket is untouched. *)
Lemma delegated_step_throws (now : Z) (st : State) :
  P (dataBuffer st) = Throws -> frame_step P now st = (Break, st).
Proof. intros H. unfold frame_step. rewrite H. reflexivity. Qed.

(** No turn of the loop destroys the socket. *)
Lemma delegated_step_destroyed (now : Z) (st st' : State) (c : Control) :
  frame_step P now st = (c, st') -> destroyed st' = destroyed st.
Proof.
  unfold frame_step.
  destruct (P (dataBuffer st)) as [parser |]; [| intros [= _ <-]; reflexivity].
  destruct (frame_size _ _ _) as [n |]; [| intros [= _ <-]; reflexivity].
  destruct (_ || _); [intros [= _ <-]; reflexivity |].
  destruct (_ && _); [intros [= _ <-]; reflexivity |].
  unfold process_avl.
  destruct (parser_avl parser) as [[[rs |]] |]; try (intros [= _ <-]; reflexivity).
  destruct (0 <? length rs)%nat; [| intros [= _ <-]; reflexivity].
  destruct (negb _); [intros [= _ <-]; reflexivity |].
  destruct (writeUInt32BE _); intros [= _ <-]; reflexivity.
Qed.

(** A turn that continues has consumed at least one byte. *)
Lemma delegated_step_shrinks (now : Z) (st st' : State) :
  frame_step P now st = (Continue, st') ->
  (length (dataBuffer st') < length (dataBuffer st))%nat.
Proof.
  unfold frame_step.
  destruct (P (dataBuffer st)) as [parser |]; [| discriminate].
  destruct (frame_size _ _ _) as [n |] eqn:Hn; [| discriminate].
  destruct (_ || _) eqn:Hfit; [discriminate |].
  apply orb_false_iff in Hfit. destruct Hfit as [Hz Hle].
  apply Z.eqb_neq in Hz. apply Z.ltb_ge in Hle.
  assert (Hpos : 0 < n).
  { unfold frame_size in Hn.
    destruct (_ && _); [injection Hn as <-; lia |].
    destruct (bool_decide _); [| injection Hn as <-; lia].
    destruct (8 <=? _)%nat; [| injection Hn as <-; lia].
    destruct (readUInt32BE _ 4) as [d |] eqn:Hd; [| discriminate].
    apply read_be_Some in Hd. injection Hn as <-. lia. }
  assert (Hdrop : (length (drop (Z.to_nat n) (dataBuffer st)) < length (dataBuffer st))%nat)
    by (rewrite length_drop; lia).
  destruct (_ && _); [intros [= <-]; exact Hdrop |].
  unfold process_avl.
  destruct (parser_avl parser) as [[[rs |]] |]; try (intros [= <-]; exact Hdrop).
  destruct (0 <? length rs)%nat; [| intros [= <-]; exact Hdrop].
  destruct (negb _); [intros [= <-]; exact Hdrop |].
  destruct (writeUInt32BE _); [intros [= <-]; exact Hdrop | discriminate].
Qed.

Lemma delegated_loop_fuel (now : Z) (n m : nat) (st : State) :
  (length (dataBuffer st) <= n)%nat ->
  (length (dataBuffer st) <= m)%nat ->
  frame_loop P n now st = frame_loop P m now st /\ is_Some (frame_loop P n now st).
Proof.
  revert m st. induction n as [| n IH]; intros m st Hn Hm.
  - assert (Hz : length (dataBuffer st) = 0%nat) by lia.
    destruct m; simpl; rewrite Hz; simpl; eauto.
  - destruct m as [| m].
    + assert (Hz : length (dataBuffer st) = 0%nat) by lia.
      simpl; rewrite Hz; simpl; eauto.
    + simpl. destruct (0 <? length (dataBuffer st))%nat; [| eauto].
      destruct (frame_step P now st) as [[|] st'] eqn:Hstep; [| eauto].
      apply delegated_step_shrinks in Hstep.
      apply IH; lia.
Qed.

Lemma delegated_loop_destroyed (now : Z) (n : nat) (st st' : State) :
  frame_loop P n now st = Some st' -> destroyed st' = destroyed st.
Proof.
  revert st. induction n as [| n IH]; intros st; simpl.
  - destruct (0 <? _)%nat; [discriminate | intros [= <-]; reflexivity].
  - destruct (0 <? _)%nat; [| intros [= <-]; reflexivity].
    destruct (frame_step P now st) as [[|] st1] eqn:Hstep.
    + intros H. rewrite (IH _ H). exact (delegated_step_destroyed _ _ _ _ Hstep).
    + intros [= <-]. exact (delegated_step_destroyed _ _ _ _ Hstep).
Qed.

End DelegatedFacts.

Section DelegatedTheorems.

Import Delegated.

Variable P : Buffer -> Outcome Parser.

(** X6. In index.js too, a chunk that makes the buffer exceed 64*1024 bytes
    gets the socket destroyed before any frame is processed, and the frame
    loop never destroys the socket and never lengthens the buffer. *)
Theorem delegated_buffer_cap (now : Z) (chunk : Buffer) (st : State) :
  (BUFFER_CAP < Z.of_nat (length (dataBuffer st ++ chunk)) ->
   destroyed (data_body P now chunk st) = true /\
   written (data_body P now chunk st) = written st /\
   immediates (data_body P now chunk st) = immediates st) /\
  (Z.of_nat (length (dataBuffer st ++ chunk)) <= BUFFER_CAP ->
   destroyed (data_body P now chunk st) = destroyed st).
Proof.
  unfold data_body. simpl dataBuffer. split; intros H.
  - replace (BUFFER_CAP <? _) with true by (symmetry; apply Z.ltb_lt; exact H).
    repeat split.
  - replace (BUFFER_CAP <? _) with false by (symmetry; apply Z.ltb_ge; exact H).
    unfold process_frames.
    destruct (frame_loop P _ now (arrive now chunk st)) as [st' |] eqn:Hloop;
      [| reflexivity].
    apply delegated_loop_destroyed in Hloop. exact Hloop.
Qed.

End DelegatedTheorems.

Section Scenarios.

Import Framed.

Lemma delegated_buffer_cap_witness :
  Delegated.destroyed
    (Delegated.data_body Codec8.decode_for_index 5 Codec8.login_frame
       (Delegated.mkState (mkSession None 0 0 0 0) None [] [] false [] [])) = false.
Proof.
  apply (proj2 (delegated_buffer_cap Codec8.decode_for_index 5 Codec8.login_frame
                  (Delegated.mkState (mkSession None 0 0 0 0) None [] [] false [] []))).
  vm_compute. discriminate.
Defined.

(** Scenario 1: the device sends 000F and the 15 digits of its IMEI; the
    server answers 01 and the session is authenticated with that IMEI. *)
Theorem login_scenario (P : Buffer -> Outcome Parser) :
  sock_written (on_data P "dev" 1 Codec8.login_frame (handleGpsConnection "dev" 0 ∅))
    = [[x01]] /\
  authIMEI (on_data P "dev" 1 Codec8.login_frame (handleGpsConnection "dev" 0 ∅))
    = Some "356307042441013"%string /\
  activeSessions (on_data P "dev" 1 Codec8.login_frame (handleGpsConnection "dev" 0 ∅))
    !! "dev"%string = Some (mkSession (Some "356307042441013"%string) 0 1 1 17).
Proof. vm_compute. repeat split. Qed.

(** Scenario 5: after the login, a Codec 8 frame with one record arrives
    in chunks of 1 byte, 5 bytes and the rest. One acknowledgement
    00000001 is written, one batch is queued and the packet is counted
    once. *)
Theorem fragmented_arrival_scenario :
  let w := run Codec8.decode "dev"
             [EvData 2 (take 1 Codec8.one_record_frame);
              EvData 3 (take 5 (drop 1 Codec8.one_record_frame));
              EvData 4 (drop 6 Codec8.one_record_frame)]
             Codec8.logged_in in
  sock_written w = [[x01]; [x00; x00; x00; x01]] /\
  length (queued w) = 1%nat /\
  buffer w = [] /\
  activeSessions w !! "dev"%string =
    Some (mkSession (Some "356307042441013"%string) 0 4 2 62).
Proof. vm_compute. repeat split. Qed.

(** X9. A frame with no record is not accepted: it is consumed with a
    warning, and nothing is written, queued or counted. *)
Theorem empty_frame_is_not_acknowledged (P : Buffer -> Outcome Parser)
    (st : State) (dataLength : Z) :
  authenticated st = true ->
  frame_at_head (dataBuffer st) dataLength ->
  P (dataBuffer st) = Returns (mkParser (Some (mkContent (Some [])))) ->
  exists st',
    frame_step P st = (Continue, st') /\
    written st' = written st /\
    immediates st' = immediates st /\
    session st' = session st /\
    console st' = console st ++ [LogNoAvlData] /\
    dataBuffer st' = drop (Z.to_nat (8 + dataLength + 4)) (dataBuffer st).
Proof.
  intros Ha Hf HP. eexists. split.
  - apply (frame_step_no_records P st dataLength _ Ha Hf HP). auto.
  - repeat split.
Qed.

Lemma empty_frame_is_not_acknowledged_witness :
  exists st',
    frame_step Codec8.decode
      (mkState (mkSession (Some "356307042441013"%string) 0 1 1 17)
               (Some "356307042441013"%string) Codec8.no_record_frame
               [[x01]] false [] []) = (Continue, st') /\
    written st' = [[x01]] /\
    immediates st' = [] /\
    session st' = mkSession (Some "356307042441013"%string) 0 1 1 17 /\
    console st' = [] ++ [LogNoAvlData] /\
    dataBuffer st' = drop (Z.to_nat (8 + 3 + 4)) Codec8.no_record_frame.
Proof.
  apply (empty_frame_is_not_acknowledged Codec8.decode
           (mkState (mkSession (Some "356307042441013"%string) 0 1 1 17)
                    (Some "356307042441013"%string) Codec8.no_record_frame
                    [[x01]] false [] [])
           3).
  - reflexivity.
  - repeat split; vm_compute; congruence.
  - vm_compute. reflexivity.
Defined.

(** X10. The frame loop ends: within one turn per buffered byte it has
    reached a state it stops in, with no more bytes buffered than before. *)
Theorem frame_loop_terminates (P : Buffer -> Outcome Parser) (st : State) :
  exists st',
    frame_loop P (length (dataBuffer st)) st = Some st' /\
    (length (dataBuffer st') <= length (dataBuffer st))%nat.
Proof.
  destruct (frame_loop_total P st) as [st' Hloop]. exists st'.
  split; [exact Hloop |].
  pose proof (process_frames_buffer_le P st) as Hle.
  unfold process_frames in Hle. rewrite Hloop in Hle. exact Hle.
Qed.


(** The checksum is CRC-16/IBM: its value on the ASCII digits 1 to 9
    is the standard check value 0xBB3D. *)
Example crc16_check_value : Codec8.crc16 (hex "313233343536373839") = 0xBB3D.
Proof. vm_compute. reflexivity. Qed.

End Scenarios.

Section DecoderLocality.

Import Framed.

(** Why the decoder must read the head frame only: the handler passes
    it the whole buffer. With a decoder that takes its input for one
    frame, two frames in one chunk are one error and one acknowledgement,
    and the same bytes one per chunk are two acknowledgements. *)
Lemma whole_input_decoder_sees_chunking :
  let S := Codec8.login_frame ++ Codec8.one_record_frame ++ Codec8.one_record_frame in
  let w1 := on_data Codec8.decode_whole "dev" 100 S (handleGpsConnection "dev" 0 ∅) in
  let w2 := run Codec8.decode_whole "dev" (bytewise Z.of_nat S)
              (handleGpsConnection "dev" 0 ∅) in
  logged w1 = [LogAuthenticated "356307042441013"; LogParserError; LogAcknowledged 1] /\
  sock_written w1 = [[x01]; [x00; x00; x00; x01]] /\
  logged w2 = [LogAuthenticated "356307042441013"; LogAcknowledged 1; LogAcknowledged 1] /\
  sock_written w2 = [[x01]; [x00; x00; x00; x01]; [x00; x00; x00; x01]].
Proof. vm_compute. repeat split. Qed.

End DecoderLocality.

(** * The acknowledgement discipline of part_000 *)

Section FramedProtocol.

Import Framed.

Variable P : Buffer -> Outcome Parser.

Lemma writeUInt32BE_Some (v : Z) (ack : Buffer) :
  writeUInt32BE v = Some ack -> 0 <= v < 2 ^ 32 /\ length ack = 4%nat /\ be_uint ack = v.
Proof.
  intros H.
  assert (Hr : 0 <= v < 2 ^ 32).
  { unfold writeUInt32BE in H.
    destruct (Z.leb_spec 0 v); [| discriminate].
    destruct (Z.ltb_spec v (2 ^ 32)); [lia | discriminate]. }
  split; [exact Hr |].
  destruct (writeUInt32BE_spec v Hr) as (ack' & Hack & Hlen & Hval).
  rewrite H in Hack. injection Hack as <-. split; assumption.
Qed.

(** What a call of the decoder on a complete frame does to the state:
    an error or a warning line and nothing else; or a batch queued, an
    acknowledgement written and the packet counted; or, for a record count
    no 32-bit field holds, a batch queued and an error line. *)
Lemma parse_avl_effect (total : Z) (st : State) :
  fst (parse_avl P total st) = log LogParserError st \/
  fst (parse_avl P total st) = log LogNoAvlData st \/
  (exists rs ack,
      rs <> [] /\ writeUInt32BE (Z.of_nat (length rs)) = Some ack /\
      fst (parse_avl P total st) =
        count_packet (log (LogAcknowledged (length rs))
                        (socket_write ack
                           (setImmediate_forward (map formatRecord rs) st)))) \/
  (exists rs,
      rs <> [] /\ writeUInt32BE (Z.of_nat (length rs)) = None /\
      fst (parse_avl P total st) =
        log LogParserError (setImmediate_forward (map formatRecord rs) st)).
Proof.
  unfold parse_avl.
  destruct (P (dataBuffer st)) as [parser |]; [| left; reflexivity].
  destruct (Content parser) as [[[rs |]] |]; try (right; left; reflexivity).
  destruct rs as [| r rs]; [right; left; reflexivity |].
  change (0 <? length (r :: rs))%nat with true. cbv iota.
  destruct (writeUInt32BE (Z.of_nat (length (r :: rs)))) as [ack |] eqn:Hack.
  - right. right. left. exists (r :: rs), ack. repeat split; [discriminate | exact Hack].
  - right. right. right. exists (r :: rs). repeat split; [discriminate | exact Hack].
Qed.

Lemma truthy_str_15 (s : string) :
  String.length s = 15%nat -> truthy_str (Some s) = true.
Proof. destruct s; [discriminate | reflexivity]. Qed.

Lemma frame_step_protocol (st st' : State) (c : Control) :
  frame_step P st = (c, st') -> protocol_invariant st -> protocol_invariant st'.
Proof.
  intros Hstep (Hcount & Hphase & Hbatch).
  destruct (frame_step_cases st)
    as [(Ha & Hlen & Hrd) | [(Ha & Hc) | [(Ha & Hlt) | [(Ha & Hlen & p & Hp & Hnz)
        | [(Ha & Hlen & Hp & d & Hd & Hlt) | (Ha & d & Hf)]]]]].
  - rewrite (frame_step_login P st Ha Hlen Hrd) in Hstep. injection Hstep as _ <-.
    destruct Hphase as [(_ & Hw & Hq) | (Ha' & _)]; [| congruence].
    unfold protocol_invariant, authenticated. simpl. rewrite Hw, Hq in *. simpl in *.
    split; [lia |]. split; [| constructor].
    right. split.
    + apply truthy_str_15. rewrite toString_ascii_length. unfold slice.
      rewrite length_take, length_drop. lia.
    + exists []. split; [reflexivity |]. split; [constructor | simpl; lia].
  - rewrite (frame_step_no_login P st Ha Hc) in Hstep. injection Hstep as _ <-.
    repeat split; assumption.
  - rewrite (frame_step_short P st Ha Hlt) in Hstep. injection Hstep as _ <-.
    repeat split; assumption.
  - rewrite (frame_step_bad_preamble P st p Ha Hlen Hp Hnz) in Hstep.
    injection Hstep as _ <-. split; [| split]; assumption.
  - rewrite (frame_step_incomplete P st d Ha Hlen Hp Hd Hlt) in Hstep.
    injection Hstep as _ <-. repeat split; assumption.
  - rewrite (frame_step_frame P st d Ha Hf) in Hstep. injection Hstep as _ <-.
    destruct Hphase as [(Ha' & _) | (_ & acks & Hw & Hacks & Hle)]; [congruence |].
    destruct (parse_avl_effect (8 + d + 4) st)
      as [-> | [-> | [(rs & ack & Hne & Hack & ->) | (rs & Hne & Hack & ->)]]].
    + split; [| split]; simpl; [exact Hcount | | exact Hbatch].
      right. split; [exact Ha |]. exists acks. auto.
    + split; [| split]; simpl; [exact Hcount | | exact Hbatch].
      right. split; [exact Ha |]. exists acks. auto.
    + apply writeUInt32BE_Some in Hack. destruct Hack as (Hr & Hl4 & Hval).
      split; [| split]; simpl.
      * rewrite length_app, Nat2Z.inj_add. simpl. lia.
      * right. split; [exact Ha |]. exists (acks ++ [ack]).
        rewrite Hw. split; [reflexivity |]. split.
        -- apply Forall_app. split; [exact Hacks |]. constructor; [| constructor].
           split; [exact Hl4 |]. rewrite Hval. destruct rs; [congruence | simpl; lia].
        -- rewrite !length_app. simpl. lia.
      * apply Forall_app. split; [exact Hbatch |]. constructor; [| constructor].
        simpl. split; [reflexivity |]. destruct rs; [congruence | discriminate].
    + split; [| split]; simpl.
      * exact Hcount.
      * right. split; [exact Ha |]. exists acks. rewrite length_app. simpl.
        repeat split; [assumption .. | lia].
      * apply Forall_app. split; [exact Hbatch |]. constructor; [| constructor].
        simpl. split; [reflexivity |]. destruct rs; [congruence | discriminate].
Qed.

Lemma process_frames_protocol (st : State) :
  protocol_invariant st -> protocol_invariant (process_frames P st).
Proof.
  apply (process_frames_ind P (fun st st' => protocol_invariant st -> protocol_invariant st')).
  - auto.
  - intros s s' _ H. exact (frame_step_protocol _ _ _ H).
  - intros s s' s'' _ H _ IH Hs. apply IH. exact (frame_step_protocol _ _ _ H Hs).
Qed.

Lemma data_body_protocol (now : Z) (chunk : Buffer) (st : State) :
  protocol_invariant st -> protocol_invariant (data_body P now chunk st).
Proof.
  intros Hinv. unfold data_body.
  destruct (BUFFER_CAP <? _).
  - exact Hinv.
  - apply process_frames_protocol. exact Hinv.
Qed.

Variable sessionId : string.

Lemma world_protocol_init (now : Z) (reg : gmap string Session) :
  world_protocol sessionId (handleGpsConnection sessionId now reg).
Proof.
  split; [| split]; simpl.
  - intros s. rewrite lookup_insert_eq. intros [= <-]. reflexivity.
  - left. auto.
  - constructor.
Qed.

Lemma world_protocol_handle (e : SocketEvent) (w : World) :
  world_protocol sessionId w -> world_protocol sessionId (handle P sessionId e w).
Proof.
  intros (Hcount & Hphase & Hbatch).
  assert (Hclean : world_protocol sessionId (cleanup sessionId w)).
  { unfold cleanup. destruct (activeSessions w !! sessionId) as [s |] eqn:Hs.
    - split; [| split]; simpl; [| exact Hphase | exact Hbatch].
      intros s'. rewrite lookup_delete_eq. discriminate.
    - split; [| split]; simpl; [| exact Hphase | exact Hbatch].
      intros s' Hs'. rewrite Hs in Hs'. discriminate. }
  destruct e; simpl; try exact Hclean.
  - unfold on_data. destruct (activeSessions w !! sessionId) as [s |] eqn:Hs.
    + assert (Hst : protocol_invariant (to_state s w)).
      { split; [| split]; [exact (Hcount s eq_refl) | exact Hphase | exact Hbatch]. }
      apply (data_body_protocol now chunk) in Hst.
      destruct Hst as (Hc' & Hp' & Hb').
      split; [| split]; simpl; [| exact Hp' | exact Hb'].
      intros s'. rewrite lookup_insert_eq. intros [= <-]. exact Hc'.
    + split; [| split]; [| exact Hphase | exact Hbatch].
      intros s' Hs'. rewrite Hs in Hs'. discriminate.
  - split; [| split]; simpl; assumption.
Qed.

Lemma world_protocol_reachable (w : World) :
  reachable P sessionId w -> world_protocol sessionId w.
Proof.
  intros (now & reg & es & ->). generalize (world_protocol_init now reg).
  generalize (handleGpsConnection sessionId now reg). clear now reg.
  induction es as [| e es IH]; intros w Hw; simpl; [exact Hw |].
  apply IH. apply world_protocol_handle. exact Hw.
Qed.

(** X11. On every connection the server first writes the login
    acknowledgement 0x01, once, and after it only 4-byte record counts of
    at least one, each written after its batch was queued for the sink;
    before the login nothing is written and nothing is queued. *)
Theorem acknowledgements_follow_protocol (w : World) :
  reachable P sessionId w ->
  (truthy_str (authIMEI w) = false /\ sock_written w = [] /\ queued w = []) \/
  (truthy_str (authIMEI w) = true /\
   exists acks, sock_written w = [x01] :: acks /\
                Forall (fun b => length b = 4%nat /\ 1 <= be_uint b) acks /\
                (length acks <= length (queued w))%nat).
Proof.
  intros Hr. apply world_protocol_reachable in Hr. destruct Hr as (_ & Hphase & _).
  exact Hphase.
Qed.

(** X12. While a session is in the table, its [packetsReceived] is the
    number of chunks the server has written to the socket: the login and
    every AVL frame that was acknowledged, and nothing else (no frame the
    decoder rejected, no frame without records, no dropped bytes). *)
Theorem packets_received_counts_writes (w : World) (s : Session) :
  reachable P sessionId w ->
  activeSessions w !! sessionId = Some s ->
  packetsReceived s = Z.of_nat (length (sock_written w)).
Proof.
  intros Hr Hs. apply world_protocol_reachable in Hr. destruct Hr as (Hcount & _).
  exact (Hcount s Hs).
Qed.

(** X13. Every batch queued for the sink on a connection is queued under
    the IMEI the connection logged in with, 15 characters long, and holds
    at least one record. *)
Theorem batches_carry_session_imei (w : World) :
  reachable P sessionId w ->
  Forall (fun b => exists imeiString,
                     fst b = Some imeiString /\ authIMEI w = Some imeiString /\
                     String.length imeiString = 15%nat /\ snd b <> [])
         (queued w).
Proof.
  intros Hr. pose proof (reachable_invariant P sessionId w Hr) as (_ & Hlen & _).
  apply world_protocol_reachable in Hr. destruct Hr as (_ & Hphase & Hbatch).
  destruct Hphase as [(_ & _ & Hq) | (Ha & _)]; [rewrite Hq; constructor |].
  destruct (authIMEI w) as [imeiString |] eqn:Hau; [| discriminate].
  eapply Forall_impl; [exact Hbatch |].
  intros b (Hb & Hne). exists imeiString. repeat split; auto.
Qed.

End FramedProtocol.

Section FramedProtocolWitness.

Import Framed.

Lemma tracked_reachable : reachable Codec8.decode "dev" Codec8.tracked.
Proof.
  exists 0, ∅, [EvData 1 Codec8.login_frame; EvData 2 Codec8.one_record_frame].
  reflexivity.
Qed.

Lemma acknowledgements_follow_protocol_witness :
  (truthy_str (authIMEI Codec8.tracked) = false /\
   sock_written Codec8.tracked = [] /\ queued Codec8.tracked = []) \/
  (truthy_str (authIMEI Codec8.tracked) = true /\
   exists acks, sock_written Codec8.tracked = [x01] :: acks /\
                Forall (fun b => length b = 4%nat /\ 1 <= be_uint b) acks /\
                (length acks <= length (queued Codec8.tracked))%nat).
Proof.
  apply (acknowledgements_follow_protocol Codec8.decode "dev" Codec8.tracked).
  exists 0, ∅, [EvData 1 Codec8.login_frame; EvData 2 Codec8.one_record_frame].
  reflexivity.
Defined.

Lemma packets_received_counts_writes_witness :
  packetsReceived (mkSession (Some "356307042441013"%string) 0 2 2 62) =
  Z.of_nat (length (sock_written Codec8.tracked)).
Proof.
  apply (packets_received_counts_writes Codec8.decode "dev" Codec8.tracked).
  - exists 0, ∅, [EvData 1 Codec8.login_frame; EvData 2 Codec8.one_record_frame].
    reflexivity.
  - vm_compute. reflexivity.
Defined.

Lemma batches_carry_session_imei_witness :
  Forall (fun b => exists imeiString,
                     fst b = Some imeiString /\
                     authIMEI Codec8.tracked = Some imeiString /\
                     String.length imeiString = 15%nat /\ snd b <> [])
         (queued Codec8.tracked).
Proof.
  apply (batches_carry_session_imei Codec8.decode "dev" Codec8.tracked).
  exists 0, ∅, [EvData 1 Codec8.login_frame; EvData 2 Codec8.one_record_frame].
  reflexivity.
Defined.

End FramedProtocolWitness.

(** * What the events of a connection leave alone (part_000) *)

Section FramedFrame.

Import Framed.

Variable P : Buffer -> Outcome Parser.
Variable sessionId : string.

(** Once the session has logged in, no turn of the loop changes the
    IMEI, and the statistics of arrival are never touched by the loop. *)
Lemma frame_step_keeps (st st' : State) (c : Control) :
  frame_step P st = (c, st') ->
  (authenticated st = true -> authenticatedIMEI st' = authenticatedIMEI st) /\
  lastDataAt (session st') = lastDataAt (session st) /\
  bytesReceived (session st') = bytesReceived (session st) /\
  connectedAt (session st') = connectedAt (session st).
Proof.
  intros Hstep.
  destruct (frame_step_cases st)
    as [(Ha & Hlen & Hrd) | [(Ha & Hc) | [(Ha & Hlt) | [(Ha & Hlen & p & Hp & Hnz)
        | [(Ha & Hlen & Hp & d & Hd & Hlt) | (Ha & d & Hf)]]]]].
  - rewrite (frame_step_login P st Ha Hlen Hrd) in Hstep. injection Hstep as _ <-.
    simpl. split; [congruence | auto].
  - rewrite (frame_step_no_login P st Ha Hc) in Hstep. injection Hstep as _ <-. auto.
  - rewrite (frame_step_short P st Ha Hlt) in Hstep. injection Hstep as _ <-. auto.
  - rewrite (frame_step_bad_preamble P st p Ha Hlen Hp Hnz) in Hstep.
    injection Hstep as _ <-. auto.
  - rewrite (frame_step_incomplete P st d Ha Hlen Hp Hd Hlt) in Hstep.
    injection Hstep as _ <-. auto.
  - rewrite (frame_step_frame P st d Ha Hf) in Hstep. injection Hstep as _ <-.
    pose proof (parse_avl_frame P (8 + d + 4) st) as (_ & _ & _ & Hau & _ & Hl & Hb & Hc).
    simpl. auto.
Qed.

Lemma process_frames_keeps (st : State) :
  (authenticated st = true ->
   authenticatedIMEI (process_frames P st) = authenticatedIMEI st) /\
  lastDataAt (session (process_frames P st)) = lastDataAt (session st) /\
  bytesReceived (session (process_frames P st)) = bytesReceived (session st) /\
  connectedAt (session (process_frames P st)) = connectedAt (session st).
Proof.
  apply (process_frames_ind P
           (fun st st' =>
              (authenticated st = true -> authenticatedIMEI st' = authenticatedIMEI st) /\
              lastDataAt (session st') = lastDataAt (session st) /\
              bytesReceived (session st') = bytesReceived (session st) /\
              connectedAt (session st') = connectedAt (session st))).
  - auto.
  - intros s s' _ H. exact (frame_step_keeps _ _ _ H).
  - intros s s' s'' _ H _ (IHa & IHl & IHb & IHc).
    destruct (frame_step_keeps _ _ _ H) as (Ha & Hl & Hb & Hc).
    repeat split; try congruence.
    intros Hauth. rewrite IHa; [exact (Ha Hauth) |].
    unfold authenticated in *. rewrite (Ha Hauth). exact Hauth.
Qed.

Lemma on_data_keeps_imei (now : Z) (chunk : Buffer) (w : World) :
  truthy_str (authIMEI w) = true ->
  authIMEI (on_data P sessionId now chunk w) = authIMEI w.
Proof.
  intros Ha. unfold on_data.
  destruct (activeSessions w !! sessionId) as [s |]; [| reflexivity].
  unfold data_body. simpl.
  destruct (BUFFER_CAP <? _); [reflexivity |].
  simpl. apply (proj1 (process_frames_keeps (arrive now chunk (to_state s w)))).
  exact Ha.
Qed.

(** X14. The IMEI of a connection is set once: after the login no
    sequence of events changes it, whatever arrives (a second login frame
    included) and whatever the decoder does. *)
Theorem imei_is_set_once (es : list SocketEvent) (w : World) :
  truthy_str (authIMEI w) = true ->
  authIMEI (run P sessionId es w) = authIMEI w.
Proof.
  revert w. induction es as [| e es IH]; intros w Ha; simpl; [reflexivity |].
  assert (He : authIMEI (handle P sessionId e w) = authIMEI w).
  { destruct e; simpl.
    - apply on_data_keeps_imei. exact Ha.
    - unfold cleanup. destruct (activeSessions w !! sessionId); reflexivity.
    - unfold cleanup. destruct (activeSessions w !! sessionId); reflexivity.
    - unfold cleanup. destruct (activeSessions w !! sessionId); reflexivity.
    - reflexivity. }
  change (authIMEI (run P sessionId es (handle P sessionId e w)) = authIMEI w).
  rewrite IH; [exact He |]. rewrite He. exact Ha.
Qed.

(** X15. The events of one connection never touch the table entry of
    another session: whatever happens on [sessionId], every other id maps
    to what it mapped to. *)
Theorem other_sessions_untouched (es : list SocketEvent) (w : World) (other : string) :
  other <> sessionId ->
  activeSessions (run P sessionId es w) !! other = activeSessions w !! other.
Proof.
  intros Hne. revert w. induction es as [| e es IH]; intros w; simpl; [reflexivity |].
  change (activeSessions (run P sessionId es (handle P sessionId e w)) !! other =
          activeSessions w !! other).
  rewrite IH. destruct e; simpl.
  - unfold on_data. destruct (activeSessions w !! sessionId); [| reflexivity].
    simpl. apply lookup_insert_ne. congruence.
  - unfold cleanup. destruct (activeSessions w !! sessionId); [| reflexivity].
    simpl. apply lookup_delete_ne. congruence.
  - unfold cleanup. destruct (activeSessions w !! sessionId); [| reflexivity].
    simpl. apply lookup_delete_ne. congruence.
  - unfold cleanup. destruct (activeSessions w !! sessionId); [| reflexivity].
    simpl. apply lookup_delete_ne. congruence.
  - reflexivity.
Qed.

(** X16. [cleanup] runs on [end], on [close] and on [error], so more
    than once per connection: the first run removes the session, empties
    the buffer and logs the disconnection; a second run changes nothing,
    and so does a chunk that arrives after it: no byte is buffered, nothing
    is written, queued or logged, and the session does not come back. *)
Theorem cleanup_runs_once (now : Z) (chunk : Buffer) (w : World) :
  activeSessions (cleanup sessionId w) !! sessionId = None /\
  buffer (cleanup sessionId w) = [] /\
  cleanup sessionId (cleanup sessionId w) = cleanup sessionId w /\
  on_data P sessionId now chunk (cleanup sessionId w) = cleanup sessionId w.
Proof.
  assert (Hgone : activeSessions (cleanup sessionId w) !! sessionId = None).
  { unfold cleanup. destruct (activeSessions w !! sessionId) eqn:Hs; simpl;
      [apply lookup_delete_eq | exact Hs]. }
  assert (Hbuf : buffer (cleanup sessionId w) = []).
  { unfold cleanup. destruct (activeSessions w !! sessionId); reflexivity. }
  repeat split; try assumption.
  - unfold cleanup at 1. rewrite Hgone.
    destruct (cleanup sessionId w) eqn:Hw. simpl in Hbuf. subst. reflexivity.
  - unfold on_data. rewrite Hgone. reflexivity.
Qed.

(** X17. [bytesReceived] counts every byte that arrived while the
    session was in the table, the bytes of a chunk that overflowed the
    buffer or was dropped included; [lastDataAt] is the time of the last
    chunk and [connectedAt] stays the time of the connection. *)
Theorem bytes_received_counts_every_byte (cs : list (Z * Buffer)) (t0 : Z)
    (reg : gmap string Session) :
  exists s,
    activeSessions (run P sessionId (data_events cs)
                      (handleGpsConnection sessionId t0 reg)) !! sessionId = Some s /\
    bytesReceived s = Z.of_nat (length (concat (map snd cs))) /\
    lastDataAt s = List.last (map fst cs) t0 /\
    connectedAt s = t0.
Proof.
  induction cs as [| [t c] cs IH] using rev_ind.
  - exists (mkSession None t0 t0 0 0). simpl. rewrite lookup_insert_eq. auto.
  - destruct IH as (s & Hs & Hb & Hl & Hc).
    unfold data_events in *. rewrite !map_app, concat_app, length_app. simpl.
    rewrite run_snoc. simpl handle. unfold on_data. rewrite Hs.
    eexists. simpl. rewrite lookup_insert_eq. split; [reflexivity |].
    unfold data_body.
    destruct (BUFFER_CAP <? _).
    + simpl. rewrite Hb, Hc, app_nil_r, Nat2Z.inj_add.
      repeat split. symmetry. apply List.last_last.
    + match goal with
      | |- context [process_frames P ?x] =>
          pose proof (process_frames_keeps x) as (_ & Hl' & Hb' & Hc')
      end.
      rewrite Hl', Hb', Hc'. simpl. rewrite Hb, Hc, app_nil_r, Nat2Z.inj_add.
      repeat split. symmetry. apply List.last_last.
Qed.

End FramedFrame.

Section FramedFrameWitness.

Import Framed.

Lemma imei_is_set_once_witness :
  authIMEI (run Codec8.decode "dev"
              [EvData 3 Codec8.login_letters; EvData 4 Codec8.one_record_frame; EvTimeout]
              Codec8.logged_in) = authIMEI Codec8.logged_in.
Proof.
  apply (imei_is_set_once Codec8.decode "dev"
           [EvData 3 Codec8.login_letters; EvData 4 Codec8.one_record_frame; EvTimeout]
           Codec8.logged_in).
  reflexivity.
Defined.

Lemma other_sessions_untouched_witness :
  activeSessions
    (run Codec8.decode "dev"
       [EvData 1 Codec8.login_frame; EvData 2 Codec8.one_record_frame; EvClose]
       (handleGpsConnection "dev" 0 {[ "10.0.0.7:4000"%string := mkSession None 0 0 0 0 ]}))
    !! "10.0.0.7:4000"%string =
  activeSessions
    (handleGpsConnection "dev" 0 {[ "10.0.0.7:4000"%string := mkSession None 0 0 0 0 ]})
    !! "10.0.0.7:4000"%string.
Proof.
  apply (other_sessions_untouched Codec8.decode "dev").
  discriminate.
Defined.

End FramedFrameWitness.

(** * When the loop of part_000 stops *)

Section FramedWaiting.

Import Framed.

Variable P : Buffer -> Outcome Parser.
Variable sessionId : string.

Lemma waiting_process (st : State) :
  waiting_for_more (authenticatedIMEI st) (dataBuffer st) ->
  process_frames P st = st.
Proof.
  intros Hw.
  destruct (dataBuffer st) as [| b buf] eqn:Hbuf;
    [apply process_frames_empty; exact Hbuf |].
  assert (Hne : dataBuffer st <> []) by congruence.
  rewrite <- Hbuf in Hw. apply process_frames_break; [exact Hne |].
  destruct Hw as [Hnil | [(Ha & Hc) | [(Ha & Hlt) | (Ha & Hlen & Hp & d & Hd & Hlt)]]].
  - congruence.
  - apply frame_step_no_login; assumption.
  - apply frame_step_short; assumption.
  - apply (frame_step_incomplete P st d); assumption.
Qed.

Lemma process_frames_waiting (st : State) :
  waiting_for_more (authenticatedIMEI (process_frames P st))
                   (dataBuffer (process_frames P st)).
Proof.
  apply (process_frames_ind P
           (fun _ st' => waiting_for_more (authenticatedIMEI st') (dataBuffer st'))).
  - intros s Hs. left. exact Hs.
  - intros s s' _ Hstep.
    destruct (frame_step_cases s)
      as [(Ha & Hlen & Hrd) | [(Ha & Hc) | [(Ha & Hlt) | [(Ha & Hlen & p & Hp & Hnz)
          | [(Ha & Hlen & Hp & d & Hd & Hlt) | (Ha & d & Hf)]]]]].
    + rewrite (frame_step_login P s Ha Hlen Hrd) in Hstep. discriminate.
    + rewrite (frame_step_no_login P s Ha Hc) in Hstep. injection Hstep as <-.
      right. left. split; assumption.
    + rewrite (frame_step_short P s Ha Hlt) in Hstep. injection Hstep as <-.
      right. right. left. split; assumption.
    + rewrite (frame_step_bad_preamble P s p Ha Hlen Hp Hnz) in Hstep.
      injection Hstep as <-. left. reflexivity.
    + rewrite (frame_step_incomplete P s d Ha Hlen Hp Hd Hlt) in Hstep.
      injection Hstep as <-. right. right. right. repeat split; eauto.
    + rewrite (frame_step_frame P s d Ha Hf) in Hstep. discriminate.
  - intros s s' s'' _ _ _ IH. exact IH.
Qed.

(** X18. The frame loop leaves nothing it could still process: running
    it again on the state it stopped in changes nothing. It stops only on
    an empty buffer or on a buffer that needs more bytes (or, before the
    login, one that announces a login length other than 15). *)
Theorem frame_loop_idempotent (st : State) :
  process_frames P (process_frames P st) = process_frames P st /\
  waiting_for_more (authenticatedIMEI (process_frames P st))
                   (dataBuffer (process_frames P st)).
Proof.
  split; [apply waiting_process |]; apply process_frames_waiting.
Qed.

Lemma world_waiting_handle (e : SocketEvent) (w : World) :
  (Z.of_nat (length (buffer w)) <= BUFFER_CAP -> waiting_for_more (authIMEI w) (buffer w)) ->
  Z.of_nat (length (buffer (handle P sessionId e w))) <= BUFFER_CAP ->
  waiting_for_more (authIMEI (handle P sessionId e w)) (buffer (handle P sessionId e w)).
Proof.
  intros Hw.
  assert (Hclean : waiting_for_more (authIMEI (cleanup sessionId w))
                                    (buffer (cleanup sessionId w))).
  { unfold cleanup. destruct (activeSessions w !! sessionId); left; reflexivity. }
  destruct e; simpl; try (intros _; exact Hclean).
  - unfold on_data. destruct (activeSessions w !! sessionId) as [s |]; [| exact Hw].
    unfold data_body. destruct (BUFFER_CAP <? _) eqn:Hover.
    + apply Z.ltb_lt in Hover. simpl in *. lia.
    + intros _. simpl. apply process_frames_waiting.
  - exact Hw.
Qed.

Lemma world_waiting_reachable (w : World) :
  reachable P sessionId w ->
  Z.of_nat (length (buffer w)) <= BUFFER_CAP ->
  waiting_for_more (authIMEI w) (buffer w).
Proof.
  intros (now & reg & es & ->).
  assert (H0 : Z.of_nat (length (buffer (handleGpsConnection sessionId now reg))) <= BUFFER_CAP ->
               waiting_for_more (authIMEI (handleGpsConnection sessionId now reg))
                                (buffer (handleGpsConnection sessionId now reg)))
    by (intros _; left; reflexivity).
  revert H0. generalize (handleGpsConnection sessionId now reg). clear now reg.
  induction es as [| e es IH]; intros w Hw; simpl; [exact Hw |].
  apply IH. apply world_waiting_handle. exact Hw.
Qed.

(** X19. A chunk of zero bytes is a no-op on a connection within its
    buffer cap: nothing is written, queued or buffered, no frame event is
    logged, no frame is processed again, and of the session only
    [lastDataAt] changes. *)
Theorem empty_chunk_changes_nothing (now : Z) (w : World) (s : Session) :
  reachable P sessionId w ->
  activeSessions w !! sessionId = Some s ->
  Z.of_nat (length (buffer w)) <= BUFFER_CAP ->
  on_data P sessionId now [] w =
    mkWorld (<[sessionId := mkSession (imei s) (connectedAt s) now (packetsReceived s)
                                      (bytesReceived s)]> (activeSessions w))
            (authIMEI w) (buffer w) (sock_written w) (sock_destroyed w)
            (queued w) (logged w).
Proof.
  intros Hr Hs Hcap. pose proof (world_waiting_reachable w Hr Hcap) as Hwait.
  rewrite (on_data_within_cap P sessionId now [] w s Hs)
    by (rewrite app_nil_r; exact Hcap).
  rewrite waiting_process.
  - unfold of_state, arrive. simpl. rewrite app_nil_r, Z.add_0_r. reflexivity.
  - simpl. rewrite app_nil_r. exact Hwait.
Qed.

End FramedWaiting.

Section FramedChunks.

Import Framed.

Variable P : Buffer -> Outcome Parser.
Hypothesis Hlocal : frame_local P.
Variable sessionId : string.




End FramedChunks.

Section FramedChunksTheorem.

Import Framed.

Variable P : Buffer -> Outcome Parser.
Variable sessionId : string.


End FramedChunksTheorem.

Section BufferRoundTrip.

(** X21. What [writeUInt32BE] writes, [readUInt32BE] reads back: for
    every count from 0 to 2^32 - 1 the acknowledgement has four bytes and
    decodes to the count; outside this range the write throws. *)
Theorem ack_reads_back (v : Z) :
  (0 <= v < 2 ^ 32 ->
   exists ack, writeUInt32BE v = Some ack /\ length ack = 4%nat /\
               readUInt32BE ack 0 = Some v) /\
  (~ (0 <= v < 2 ^ 32) -> writeUInt32BE v = None).
Proof.
  split.
  - intros Hv. destruct (writeUInt32BE_spec v Hv) as (ack & Hack & Hlen & Hval).
    exists ack. repeat split; try assumption.
    unfold readUInt32BE. rewrite read_be_ok by lia.
    rewrite drop_0, take_ge by lia. rewrite Hval. reflexivity.
  - intros Hv. destruct (writeUInt32BE v) as [ack |] eqn:Hack; [| reflexivity].
    apply writeUInt32BE_Some in Hack. tauto.
Qed.

End BufferRoundTrip.

Section FramedChunksWitness.

Import Framed.

Lemma empty_chunk_changes_nothing_witness :
  on_data Codec8.decode "dev" 9 [] Codec8.tracked =
    mkWorld (<["dev"%string := mkSession (Some "356307042441013"%string) 0 9 2 62]>
               (activeSessions Codec8.tracked))
            (authIMEI Codec8.tracked) (buffer Codec8.tracked)
            (sock_written Codec8.tracked) (sock_destroyed Codec8.tracked)
            (queued Codec8.tracked) (logged Codec8.tracked).
Proof.
  apply (empty_chunk_changes_nothing Codec8.decode "dev" 9 Codec8.tracked
           (mkSession (Some "356307042441013"%string) 0 2 2 62)).
  - exact tracked_reachable.
  - vm_compute. reflexivity.
  - vm_compute. discriminate.
Defined.


Lemma ack_reads_back_witness :
  exists ack, writeUInt32BE 3 = Some ack /\ length ack = 4%nat /\
              readUInt32BE ack 0 = Some 3.
Proof. apply (proj1 (ack_reads_back 3)). lia. Defined.

End FramedChunksWitness.

(** * The sink dispatcher *)

Section SinkFacts.

Import Sink.

Context {R : Type}.
Variable FLEETEE_API_URL : string.
Variable GPS_SERVER_SECRET : string.
Variable fetch : Request R -> Outcome Response.


End SinkFacts.

Section SinkOfConnection.

Import Framed Sink.

Variable P : Buffer -> Outcome Parser.
Variable sessionId : string.
Variable FLEETEE_API_URL : string.
Variable GPS_SERVER_SECRET : string.
Variable fetch : Request OutRecord -> Outcome Response.

(** X23. What a connection sends to the sink: one request per queued
    batch, in the order of the frames, each a POST to the ingest path of
    the configured URL that carries the shared secret as bearer token, the
    IMEI the connection logged in with (15 characters) and at least one
    record; and at least as many requests as record acknowledgements
    written to the device. *)
Theorem sink_requests_of_a_connection (w : World) :
  reachable P sessionId w ->
  map fst (dispatch FLEETEE_API_URL GPS_SERVER_SECRET fetch (queued w)) =
    map (fun b => ingest_request FLEETEE_API_URL GPS_SERVER_SECRET (fst b) (snd b))
        (queued w) /\
  Forall (fun rq =>
            url rq = (FLEETEE_API_URL ++ "/api/gps/ingest")%string /\
            method rq = "POST"%string /\
            In ("Authorization"%string, ("Bearer " ++ GPS_SERVER_SECRET)%string)
               (headers rq) /\
            body_records rq <> [] /\
            exists imeiString, body_imei rq = Some imeiString /\
                               authIMEI w = Some imeiString /\
                               String.length imeiString = 15%nat)
         (map fst (dispatch FLEETEE_API_URL GPS_SERVER_SECRET fetch (queued w))) /\
  (length (sock_written w) <=
   S (length (dispatch FLEETEE_API_URL GPS_SERVER_SECRET fetch (queued w))))%nat.
Proof.
  intros Hr. pose proof (reachable_invariant P sessionId w Hr) as (_ & Hlen & _).
  apply world_protocol_reachable in Hr. destruct Hr as (_ & Hphase & Hbatch).
  unfold dispatch. rewrite List.map_map. simpl. split; [reflexivity |]. split.
  - apply Forall_forall. intros rq Hin. apply list_elem_of_In in Hin.
    apply in_map_iff in Hin. destruct Hin as (b & <- & Hb).
    rewrite Forall_forall in Hbatch.
    destruct (Hbatch b ltac:(apply list_elem_of_In; exact Hb)) as (Hi & Hne).
    simpl. repeat split; [right; left; reflexivity | exact Hne |].
    destruct Hphase as [(_ & _ & Hq) | (Ha & _)]; [rewrite Hq in Hb; destruct Hb |].
    destruct (authIMEI w) as [imeiString |] eqn:Hau; [| discriminate].
    exists imeiString. repeat split; auto.
  - rewrite length_map.
    destruct Hphase as [(_ & -> & _) | (_ & acks & -> & _ & Hle)]; simpl.
    + apply Nat.le_0_l.
    + apply le_n_S. exact Hle.
Qed.

End SinkOfConnection.

Section SinkWitness.

Import Framed Sink.


Lemma sink_requests_of_a_connection_witness :
  map fst (dispatch "https://fleet.example" "s3cret"
             (fun _ => Returns (mkResponse true 200 (BodyObject (JNum 1) (JNum 1))))
             (queued Codec8.tracked)) =
    map (fun b => ingest_request "https://fleet.example" "s3cret" (fst b) (snd b))
        (queued Codec8.tracked) /\
  Forall (fun rq =>
            url rq = ("https://fleet.example" ++ "/api/gps/ingest")%string /\
            method rq = "POST"%string /\
            In ("Authorization"%string, ("Bearer " ++ "s3cret")%string) (headers rq) /\
            body_records rq <> [] /\
            exists imeiString, body_imei rq = Some imeiString /\
                               authIMEI Codec8.tracked = Some imeiString /\
                               String.length imeiString = 15%nat)
         (map fst (dispatch "https://fleet.example" "s3cret"
                     (fun _ => Returns (mkResponse true 200 (BodyObject (JNum 1) (JNum 1))))
                     (queued Codec8.tracked))) /\
  (length (sock_written Codec8.tracked) <=
   S (length (dispatch "https://fleet.example" "s3cret"
                (fun _ => Returns (mkResponse true 200 (BodyObject (JNum 1) (JNum 1))))
                (queued Codec8.tracked))))%nat.
Proof.
  apply (sink_requests_of_a_connection Codec8.decode "dev").
  exact tracked_reachable.
Defined.

End SinkWitness.

(** * The status endpoint *)

Section StatusFacts.

Import Status.

Lemma snapshot_ids (l : list (string * Session)) :
  map snap_id (map snapshot l) = l.*1.
Proof. induction l as [| e l IH]; simpl; [reflexivity | rewrite IH; reflexivity]. Qed.

Lemma snapshot_listed (table : gmap string Session) (snap : Snapshot) :
  In snap (map snapshot (map_to_list table)) <->
  exists s, table !! snap_id snap = Some s /\ snap = snapshot (snap_id snap, s).
Proof.
  rewrite in_map_iff. split.
  - intros ([id s] & <- & Hin). apply list_elem_of_In, elem_of_map_to_list in Hin.
    exists s. split; [exact Hin | reflexivity].
  - intros (s & Hs & ->). exists (snap_id snap, s). split; [reflexivity |].
    apply list_elem_of_In, elem_of_map_to_list. exact Hs.
Qed.

(** X24. The status server answers [/health] and [/] with the report and
    every other path with 404. The report says [running], gives the uptime
    of the process and lists the session table: [activeSessions] is the
    number of entries listed, no connection id is listed twice, and an
    entry is listed exactly when the table holds a session under its id
    with that IMEI, connection time and packet count. *)
Theorem status_lists_table (req_url : string) (process_uptime : Z)
    (table : gmap string Session) :
  (req_url = "/health"%string \/ req_url = "/"%string ->
   exists stats,
     statusServer req_url process_uptime table = Ok200 stats /\
     stats_status stats = "running"%string /\
     uptime stats = process_uptime /\
     stats_activeSessions stats = length (sessions stats) /\
     NoDup (map snap_id (sessions stats)) /\
     forall snap, In snap (sessions stats) <->
       exists s, table !! snap_id snap = Some s /\
                 snap = mkSnapshot (snap_id snap) (imei s) (connectedAt s)
                                   (packetsReceived s)) /\
  (req_url <> "/health"%string -> req_url <> "/"%string ->
   statusServer req_url process_uptime table = NotFound404).
Proof.
  unfold statusServer. split.
  - intros Hurl.
    assert (Hb : String.eqb req_url "/health" || String.eqb req_url "/" = true).
    { destruct Hurl as [-> | ->]; reflexivity. }
    rewrite Hb. eexists. split; [reflexivity |]. simpl.
    split; [reflexivity |]. split; [reflexivity |]. split; [| split].
    + rewrite length_map, length_map_to_list. reflexivity.
    + rewrite snapshot_ids. apply NoDup_fst_map_to_list.
    + intros snap. apply snapshot_listed.
  - intros H1 H2. apply String.eqb_neq in H1, H2. rewrite H1, H2. reflexivity.
Qed.

End StatusFacts.

Section StatusOfConnection.

Import Framed Status.

Variable P : Buffer -> Outcome Parser.
Variable sessionId : string.

(** X25. What the status report says about a connection: while its
    session is registered, the report lists it under its connection id
    with the IMEI it logged in with ([null] before the login) and, as
    packet count, the number of chunks written to the device; once
    [cleanup] has run (on [end], [close] or [error]) the report lists no
    entry under that id. *)
Theorem status_follows_connection (w : World) (req_url : string) (process_uptime : Z) :
  reachable P sessionId w ->
  req_url = "/health"%string \/ req_url = "/"%string ->
  (forall s, activeSessions w !! sessionId = Some s ->
     In (mkSnapshot sessionId (authIMEI w) (connectedAt s)
                    (Z.of_nat (length (sock_written w))))
        (listed (statusServer req_url process_uptime (activeSessions w)))) /\
  (forall e, e = EvEnd \/ e = EvClose \/ e = EvError ->
     ~ In sessionId
          (map snap_id
             (listed (statusServer req_url process_uptime
                        (activeSessions (handle P sessionId e w)))))).
Proof.
  intros Hr Hurl.
  assert (Hb : String.eqb req_url "/health" || String.eqb req_url "/" = true).
  { destruct Hurl as [-> | ->]; reflexivity. }
  unfold statusServer. rewrite Hb. simpl. split.
  - intros s Hs.
    pose proof (reachable_invariant P sessionId w Hr) as (_ & _ & Himei).
    pose proof (world_protocol_reachable P sessionId w Hr) as (Hcount & _).
    apply snapshot_listed. exists s. simpl. split; [exact Hs |].
    unfold snapshot. simpl. rewrite (Himei s Hs), (Hcount s Hs). reflexivity.
  - intros e He Hin. rewrite snapshot_ids in Hin.
    apply list_elem_of_In, list_elem_of_fmap in Hin.
    destruct Hin as ([id s] & Hid & Hin). simpl in Hid. subst id.
    apply elem_of_map_to_list in Hin.
    assert (Hgone : activeSessions (cleanup sessionId w) !! sessionId = None).
    { unfold cleanup. destruct (activeSessions w !! sessionId) eqn:Hs; simpl;
        [apply lookup_delete_eq | exact Hs]. }
    destruct He as [-> | [-> | ->]]; simpl in Hin; congruence.
Qed.

End StatusOfConnection.

Section StatusWitness.

Import Framed Status.

Lemma status_follows_connection_witness :
  (forall s, activeSessions Codec8.tracked !! "dev"%string = Some s ->
     In (mkSnapshot "dev" (authIMEI Codec8.tracked) (connectedAt s)
                    (Z.of_nat (length (sock_written Codec8.tracked))))
        (listed (statusServer "/health" 7 (activeSessions Codec8.tracked)))) /\
  (forall e, e = EvEnd \/ e = EvClose \/ e = EvError ->
     ~ In "dev"%string
          (map snap_id
             (listed (statusServer "/health" 7
                        (activeSessions (handle Codec8.decode "dev" e Codec8.tracked)))))).
Proof.
  apply (status_follows_connection Codec8.decode "dev" Codec8.tracked "/health" 7).
  - exact tracked_reachable.
  - left. reflexivity.
Defined.

End StatusWitness.

(** * The start-up checks *)

Section BootstrapFacts.

Import Bootstrap.

Lemma truthy_str_Some (v : string) : truthy_str (Some v) = true <-> v <> EmptyString.
Proof.
  simpl. rewrite Bool.negb_true_iff. apply String.eqb_neq.
Qed.

Lemma truthy_str_unset (o : option string) :
  truthy_str o = false <-> o = None \/ o = Some EmptyString.
Proof.
  destruct o as [v |]; simpl.
  - rewrite Bool.negb_false_iff, String.eqb_eq. split.
    + intros ->. right. reflexivity.
    + intros [H | [= ->]]; [discriminate | reflexivity].
  - split; [intros _; left; reflexivity | reflexivity].
Qed.

(** X26. The servers are configured exactly when [FLEETEE_API_URL] and
    [GPS_SERVER_SECRET] are both set to non-empty strings, and then with
    these very values; a variable set to the empty string counts as
    missing. When both are missing the URL is the one complained about.
    A port is the string of its variable when that is set and not empty,
    and otherwise the default, 5000 for devices and 3000 for the status
    server. *)
Theorem configure_requires_both (env : gmap string string) :
  (forall c, configure env = inr c <->
     env !! "FLEETEE_API_URL"%string = Some (FLEETEE_API_URL c) /\
     FLEETEE_API_URL c <> EmptyString /\
     env !! "GPS_SERVER_SECRET"%string = Some (GPS_SERVER_SECRET c) /\
     GPS_SERVER_SECRET c <> EmptyString /\
     TCP_PORT c = port_or env "TCP_PORT" 5000 /\
     statusPort c = port_or env "STATUS_PORT" 3000) /\
  (configure env = inl MissingApiUrl <->
     env !! "FLEETEE_API_URL"%string = None \/
     env !! "FLEETEE_API_URL"%string = Some EmptyString) /\
  (configure env = inl MissingSecret <->
     (exists u, env !! "FLEETEE_API_URL"%string = Some u /\ u <> EmptyString) /\
     (env !! "GPS_SERVER_SECRET"%string = None \/
      env !! "GPS_SERVER_SECRET"%string = Some EmptyString)) /\
  (forall name n,
     (forall v, port_or env name n = PortEnv v <-> env !! name = Some v /\ v <> EmptyString) /\
     (forall m, port_or env name n = PortDefault m <->
        m = n /\ (env !! name = None \/ env !! name = Some EmptyString))).
Proof.
  unfold configure, port_or, getenv. split; [| split; [| split]].
  - intros [tcp u s sp].
    destruct (env !! "FLEETEE_API_URL"%string) as [u' |] eqn:Hu;
      [destruct (truthy_str (Some u')) eqn:Htu;
       [destruct (env !! "GPS_SERVER_SECRET"%string) as [s' |] eqn:Hs;
        [destruct (truthy_str (Some s')) eqn:Hts |] |] |]; cbn [FLEETEE_API_URL GPS_SERVER_SECRET TCP_PORT statusPort].
    + apply truthy_str_Some in Htu, Hts. split.
      * intros [= <- <- <- <-]. repeat split; assumption.
      * intros ([= ->] & _ & [= ->] & _ & -> & ->). reflexivity.
    + apply truthy_str_unset in Hts. destruct Hts as [? | [= ->]]; [discriminate |].
      split; [discriminate |]. intros (_ & _ & [= <-] & Hne & _). congruence.
    + split; [discriminate |]. intros (_ & _ & ? & _). discriminate.
    + apply truthy_str_unset in Htu. destruct Htu as [? | [= ->]]; [discriminate |].
      split; [discriminate |]. intros ([= <-] & Hne & _). congruence.
    + split; [discriminate |]. intros (? & _). discriminate.
  - destruct (env !! "FLEETEE_API_URL"%string) as [u' |] eqn:Hu;
      [destruct (truthy_str (Some u')) eqn:Htu |].
    + apply truthy_str_Some in Htu.
      destruct (env !! "GPS_SERVER_SECRET"%string) as [s' |];
        [destruct (truthy_str (Some s')) |];
        (split; [discriminate | intros [? | [= ->]]; [discriminate | congruence]]).
    + apply truthy_str_unset in Htu. destruct Htu as [? | [= ->]]; [discriminate |].
      split; [intros _; right; reflexivity | reflexivity].
    + split; [intros _; left; reflexivity | reflexivity].
  - destruct (env !! "FLEETEE_API_URL"%string) as [u' |] eqn:Hu;
      [destruct (truthy_str (Some u')) eqn:Htu |].
    + apply truthy_str_Some in Htu.
      destruct (env !! "GPS_SERVER_SECRET"%string) as [s' |] eqn:Hs;
        [destruct (truthy_str (Some s')) eqn:Hts |].
      * apply truthy_str_Some in Hts. split; [discriminate |].
        intros (_ & [? | [= ->]]); [discriminate | congruence].
      * apply truthy_str_unset in Hts. destruct Hts as [? | [= ->]]; [discriminate |].
        split; [| reflexivity]. intros _. split; [eauto | right; reflexivity].
      * split; [| reflexivity]. intros _. split; [eauto | left; reflexivity].
    + apply truthy_str_unset in Htu. destruct Htu as [? | [= ->]]; [discriminate |].
      split; [discriminate |]. intros ((u & [= <-] & Hne) & _). congruence.
    + split; [discriminate |]. intros ((u & ? & _) & _). discriminate.
  - intros name n. destruct (env !! name) as [v' |] eqn:Hv;
      [destruct (truthy_str (Some v')) eqn:Htv |].
    + apply truthy_str_Some in Htv. split.
      * intros v. split; [intros [= <-]; split; [reflexivity | exact Htv] |].
        intros ([= ->] & _). reflexivity.
      * intros m. split; [discriminate |].
        intros (_ & [? | [= ->]]); [discriminate | congruence].
    + apply truthy_str_unset in Htv. destruct Htv as [? | [= ->]]; [discriminate |].
      split.
      * intros v. split; [discriminate |]. intros ([= <-] & Hne). congruence.
      * intros m. split; [intros [= <-]; split; [reflexivity | right; reflexivity] |].
        intros (-> & _). reflexivity.
    + split.
      * intros v. split; [discriminate |]. intros (? & _). discriminate.
      * intros m. split; [intros [= <-]; split; [reflexivity | left; reflexivity] |].
        intros (-> & _). reflexivity.
Qed.

End BootstrapFacts.

(** * The connection protocol of index.js *)

Section DelegatedProtocol.

Import Delegated.

Variable P : Buffer -> Outcome Parser.

(** The AVL part of a turn: the session is left as it is and at most one
    chunk is written. *)
Lemma delegated_process_avl_protocol (now : Z) (avl : option AvlT)
    (st st' : State) (c : Control) :
  process_avl now avl st = (c, st') ->
  protocol_invariant st ->
  protocol_invariant st' /\ session st' = session st /\
  dataBuffer st' = dataBuffer st /\
  (length (written st') <= S (length (written st)))%nat.
Proof.
  intros Hstep Hinv. unfold process_avl in Hstep.
  destruct avl as [[[rs |]] |];
    try (injection Hstep as _ <-; repeat split; try apply Hinv; lia).
  destruct (0 <? length rs)%nat eqn:Hpos;
    [| injection Hstep as _ <-; repeat split; try apply Hinv; lia].
  apply Nat.ltb_lt in Hpos.
  destruct Hinv as (Hco & Hphase & Hbatch).
  assert (Himei : (if truthy_str (imei (session st)) then imei (session st)
                   else authenticatedIMEI st) = authenticatedIMEI st).
  { destruct (truthy_str (imei (session st))); [exact Hco | reflexivity]. }
  rewrite Himei in Hstep.
  destruct (truthy_str (authenticatedIMEI st)) eqn:Ha; cbn [negb] in Hstep.
  - assert (Hb' : Forall (fun b => fst b = authenticatedIMEI st /\ snd b <> [])
                    (immediates st ++ [(authenticatedIMEI st, map (formatRecord now) rs)])).
    { apply Forall_app. split; [exact Hbatch |]. constructor; [| constructor].
      simpl. split; [reflexivity |]. destruct rs; [simpl in Hpos; lia | discriminate]. }
    destruct Hphase as [(Ha' & _) | (_ & acks & Hw & Hacks & Hle)];
      [unfold authenticated in Ha'; congruence |].
    destruct (writeUInt32BE (Z.of_nat (length rs))) as [ack |] eqn:Hack;
      injection Hstep as _ <-.
    + apply writeUInt32BE_Some in Hack. destruct Hack as (_ & Hl4 & Hval).
      split; [split; [exact Hco | split; [| exact Hb']] |].
      * right. split; [exact Ha |]. exists (acks ++ [ack]). simpl.
        rewrite Hw. split; [reflexivity |]. split.
        -- apply Forall_app. split; [exact Hacks |]. constructor; [| constructor].
           split; [exact Hl4 |]. rewrite Hval. lia.
        -- rewrite !length_app. simpl. lia.
      * simpl. rewrite length_app. simpl. repeat split; lia.
    + split; [split; [exact Hco | split; [| exact Hb']] |].
      * right. split; [exact Ha |]. exists acks. simpl. rewrite length_app.
        split; [exact Hw |]. split; [exact Hacks | simpl; lia].
      * simpl. repeat split; lia.
  - injection Hstep as _ <-. split; [split; [exact Hco | split; [exact Hphase | exact Hbatch]] |].
    simpl. repeat split; lia.
Qed.

(** A turn of the loop keeps the protocol, writes at most as many chunks
    as it counts packets, and counts at most one packet, for which it has
    consumed at least one byte. *)
Lemma delegated_step_protocol (now : Z) (st st' : State) (c : Control) :
  frame_step P now st = (c, st') ->
  protocol_invariant st ->
  protocol_invariant st' /\
  Z.of_nat (length (written st')) - Z.of_nat (length (written st)) <=
    packetsReceived (session st') - packetsReceived (session st).
Proof.
  intros Hstep Hinv. unfold frame_step in Hstep.
  destruct (P (dataBuffer st)) as [parser |];
    [| injection Hstep as _ <-; split; [exact Hinv | lia]].
  cbv zeta in Hstep.
  destruct (frame_size _ _ _) as [n |];
    [| injection Hstep as _ <-; split; [exact Hinv | simpl; lia]].
  destruct ((n =? 0) || _);
    [injection Hstep as _ <-; split; [exact Hinv | simpl; lia] |].
  match type of Hstep with
  | (if ?b then _ else _) = _ => destruct b eqn:Hlogin
  end.
  - injection Hstep as _ <-.
    apply andb_prop in Hlogin. destruct Hlogin as (Hpi & Hsi).
    apply Bool.negb_true_iff in Hsi. simpl in Hsi.
    destruct Hinv as (Hco & Hphase & Hbatch).
    rewrite Hco in Hsi.
    destruct Hphase as [(_ & Hw & Hq) | (Ha' & _)];
      [| unfold authenticated in Ha'; congruence].
    split.
    + split; [reflexivity |]. split.
      * right. split; [exact Hpi |]. exists []. simpl. rewrite Hw.
        split; [reflexivity |]. split; [constructor | lia].
      * simpl. rewrite Hq. constructor.
    + simpl. rewrite Hw. simpl. lia.
  - apply delegated_process_avl_protocol in Hstep; [| exact Hinv].
    destruct Hstep as (Hinv' & Hs & _ & Hw). split; [exact Hinv' |].
    rewrite Hs. simpl in Hw |- *. lia.
Qed.

Lemma delegated_loop_protocol (now : Z) (n : nat) (st st' : State) :
  frame_loop P n now st = Some st' ->
  protocol_invariant st ->
  protocol_invariant st' /\
  Z.of_nat (length (written st')) - Z.of_nat (length (written st)) <=
    packetsReceived (session st') - packetsReceived (session st).
Proof.
  revert st. induction n as [| n IH]; intros st; simpl.
  - destruct (0 <? _)%nat; [discriminate |]. intros [= <-] H. split; [exact H | lia].
  - destruct (0 <? _)%nat; [| intros [= <-] H; split; [exact H | lia]].
    destruct (frame_step P now st) as [[|] st1] eqn:Hstep.
    + intros Hloop Hinv.
      destruct (delegated_step_protocol _ _ _ _ Hstep Hinv) as (H1 & Hc1).
      destruct (IH _ Hloop H1) as (H2 & Hc2). split; [exact H2 | lia].
    + intros [= <-] Hinv. exact (delegated_step_protocol _ _ _ _ Hstep Hinv).
Qed.

Lemma delegated_data_body_protocol (now : Z) (chunk : Buffer) (st : State) :
  protocol_invariant st ->
  protocol_invariant (data_body P now chunk st) /\
  Z.of_nat (length (written (data_body P now chunk st))) -
    Z.of_nat (length (written st)) <=
    packetsReceived (session (data_body P now chunk st)) - packetsReceived (session st).
Proof.
  intros Hinv. unfold data_body. cbv zeta.
  destruct (BUFFER_CAP <? _).
  - split; [exact Hinv | simpl; lia].
  - unfold process_frames.
    destruct (frame_loop P _ now (arrive now chunk st)) as [st' |] eqn:Hloop.
    + apply delegated_loop_protocol in Hloop; [exact Hloop | exact Hinv].
    + split; [exact Hinv | simpl; lia].
Qed.

Lemma delegated_receive_protocol (chunks : list (Z * Buffer)) (st : State) :
  protocol_invariant st ->
  protocol_invariant (receive P chunks st) /\
  Z.of_nat (length (written (receive P chunks st))) - Z.of_nat (length (written st)) <=
    packetsReceived (session (receive P chunks st)) - packetsReceived (session st).
Proof.
  revert st. induction chunks as [| [t c] cs IH]; intros st Hinv; simpl.
  - split; [exact Hinv | lia].
  - destruct (delegated_data_body_protocol t c st Hinv) as (H1 & Hc1).
    destruct (IH _ H1) as (H2 & Hc2). split; [exact H2 |]. simpl in Hc1. lia.
Qed.

(** X27. index.js keeps the device protocol whatever the decoder returns:
    on a connection, nothing is written and nothing is queued before the
    login; the first chunk written is the login acknowledgement 0x01; every
    later chunk is a four-byte acknowledgement of at least one record,
    written after its batch was queued; every batch is queued under the
    IMEI of the session, which then is not empty, and holds at least one
    record; and the chunks written never outnumber the packets counted. *)
Theorem delegated_replies_follow_protocol (now : Z) (chunks : list (Z * Buffer)) :
  let st := receive P chunks (handleGpsConnection now) in
  imei (session st) = authenticatedIMEI st /\
  ((truthy_str (authenticatedIMEI st) = false /\ written st = [] /\ immediates st = []) \/
   (truthy_str (authenticatedIMEI st) = true /\
    exists acks, written st = [x01] :: acks /\
                 Forall (fun b => length b = 4%nat /\ 1 <= be_uint b) acks /\
                 (length acks <= length (immediates st))%nat)) /\
  Forall (fun b => fst b = authenticatedIMEI st /\ snd b <> []) (immediates st) /\
  Z.of_nat (length (written st)) <= packetsReceived (session st).
Proof.
  intros st.
  assert (Hinit : protocol_invariant (handleGpsConnection now)).
  { split; [reflexivity |]. split; [left; auto | constructor]. }
  destruct (delegated_receive_protocol chunks _ Hinit) as ((Hco & Hphase & Hbatch) & Hc).
  fold st in Hco, Hphase, Hbatch, Hc.
  split; [exact Hco |]. split; [exact Hphase |]. split; [exact Hbatch |].
  simpl in Hc. lia.
Qed.

End DelegatedProtocol.

(** * Single turns of the loop of index.js *)

Section DelegatedTurns.

Import Delegated.

Variable P : Buffer -> Outcome Parser.

(** X30. In index.js, a frame whose size cannot be told empties the
    buffer: when the decoder returns an object with no IMEI and no AVL
    part, or an IMEI for fewer than 17 bytes, or an AVL part for fewer
    than 8 bytes or for fewer bytes than the length field announces, the
    whole buffer is discarded and the loop stops; the session, the socket
    and the queue are left as they are. A frame the decoder accepts from
    incomplete input is lost, not waited for. *)
Theorem delegated_unsized_frame_clears_buffer (now : Z) (st : State) (parser : Parser) :
  P (dataBuffer st) = Returns parser ->
  (parser_avl parser = None /\
   (truthy_str (parser_imei parser) = false \/ (length (dataBuffer st) < 17)%nat)) \/
  (is_Some (parser_avl parser) /\
   ((length (dataBuffer st) < 8)%nat \/
    exists dataLength, readUInt32BE (dataBuffer st) 4 = Some dataLength /\
                       Z.of_nat (length (dataBuffer st)) < 8 + dataLength + 4)) ->
  exists st',
    frame_step P now st = (Break, st') /\
    dataBuffer st' = [] /\
    session st' = session st /\
    authenticatedIMEI st' = authenticatedIMEI st /\
    written st' = written st /\
    immediates st' = immediates st /\
    destroyed st' = destroyed st /\
    console st' = console st ++ [LogCouldNotDetermine].
Proof.
  intros Hp Hcase.
  assert (Hsize : exists n,
            frame_size (if truthy_str (parser_imei parser) then parser_imei parser else None)
                       (parser_avl parser) (dataBuffer st) = Some n /\
            (n =? 0) || (Z.of_nat (length (dataBuffer st)) <? n) = true).
  { unfold frame_size.
    destruct Hcase as [(Havl & Hc) | (Havl & Hc)].
    - rewrite Havl. rewrite bool_decide_eq_false_2 by (intros [? ?]; discriminate).
      cbn [negb]. destruct Hc as [Hpi | Hlt].
      + rewrite Hpi. cbn [truthy_str andb]. exists 0. split; reflexivity.
      + destruct (truthy_str (parser_imei parser)) eqn:Hpi.
        * rewrite Hpi. cbn [andb]. exists 17. split; [reflexivity |].
          apply Bool.orb_true_iff. right. apply Z.ltb_lt. lia.
        * cbn [truthy_str andb]. exists 0. split; reflexivity.
    - rewrite bool_decide_eq_true_2 by exact Havl.
      cbn [negb]. rewrite Bool.andb_false_r.
      destruct Hc as [Hlt | (d & Hd & Hlt)].
      + assert (H8 : (8 <=? length (dataBuffer st))%nat = false)
          by (apply Nat.leb_gt; lia).
        rewrite H8. exists 0. split; reflexivity.
      + pose proof (read_be_Some _ _ _ _ Hd) as (Hd0 & Hlen8).
        assert (H8 : (8 <=? length (dataBuffer st))%nat = true)
          by (apply Nat.leb_le; lia).
        rewrite H8, Hd. exists (8 + d + 4). split; [reflexivity |].
        apply Bool.orb_true_iff. right. apply Z.ltb_lt. lia. }
  destruct Hsize as (n & Hn & Hb).
  unfold frame_step. rewrite Hp. cbv zeta. rewrite Hn, Hb.
  eexists. split; [reflexivity |]. simpl. repeat split; reflexivity.
Qed.

(** What a chunk the decoder throws on does: it is appended and counted
    in [bytesReceived], and nothing else happens. *)
Lemma delegated_data_body_throws (now : Z) (chunk : Buffer) (st : State) :
  P (dataBuffer st ++ chunk) = Throws ->
  Z.of_nat (length (dataBuffer st ++ chunk)) <= BUFFER_CAP ->
  data_body P now chunk st = arrive now chunk st.
Proof.
  intros Hp Hcap. unfold data_body. cbv zeta.
  assert (Hc : (BUFFER_CAP <? Z.of_nat (length (dataBuffer (arrive now chunk st)))) = false).
  { apply Z.ltb_ge. simpl. exact Hcap. }
  rewrite Hc. clear Hc Hcap.
  assert (Hp1 : P (dataBuffer (arrive now chunk st)) = Throws) by exact Hp.
  generalize dependent (arrive now chunk st). intros st1 Hp1.
  unfold process_frames.
  destruct (length (dataBuffer st1)) as [| n] eqn:Hlen.
  - simpl. rewrite Hlen. reflexivity.
  - simpl. rewrite Hlen. simpl.
    rewrite (delegated_step_throws P now st1 Hp1). reflexivity.
Qed.

(** X7. In index.js, bytes the decoder throws on are kept: as long as
    the decoder throws on the buffer after each chunk and the buffer stays
    within 64*1024 bytes, every byte received stays in the buffer, in
    order, nothing is written to the device, nothing is queued, no packet
    is counted and the socket is left alone; no byte is ever skipped to
    resynchronise. *)
Theorem delegated_undecodable_bytes_are_kept (chunks : list (Z * Buffer)) (st : State) :
  (forall k, (1 <= k <= length chunks)%nat ->
             P (dataBuffer st ++ concat (map snd (take k chunks))) = Throws) ->
  Z.of_nat (length (dataBuffer st ++ concat (map snd chunks))) <= BUFFER_CAP ->
  dataBuffer (receive P chunks st) = dataBuffer st ++ concat (map snd chunks) /\
  written (receive P chunks st) = written st /\
  immediates (receive P chunks st) = immediates st /\
  destroyed (receive P chunks st) = destroyed st /\
  packetsReceived (session (receive P chunks st)) = packetsReceived (session st) /\
  bytesReceived (session (receive P chunks st)) =
    bytesReceived (session st) + Z.of_nat (length (concat (map snd chunks))).
Proof.
  revert st. induction chunks as [| [t c] cs IH]; intros st Hthrows Hcap.
  - simpl. rewrite app_nil_r. repeat split; lia.
  - simpl in Hcap. rewrite app_assoc in Hcap.
    assert (H1 : P (dataBuffer st ++ c) = Throws).
    { specialize (Hthrows 1%nat). simpl in Hthrows. rewrite ?take_0 in Hthrows.
      simpl in Hthrows. rewrite ?app_nil_r in Hthrows. apply Hthrows. lia. }
    assert (Hcap1 : Z.of_nat (length (dataBuffer st ++ c)) <= BUFFER_CAP).
    { rewrite length_app in Hcap. lia. }
    simpl. rewrite (delegated_data_body_throws t c st H1 Hcap1).
    destruct (IH (arrive t c st)) as (Hb & Hw & Hq & Hd & Hpk & Hby).
    + intros k Hk. simpl. rewrite <- app_assoc.
      specialize (Hthrows (S k)). simpl in Hthrows. apply Hthrows. lia.
    + simpl. exact Hcap.
    + rewrite Hb, Hw, Hq, Hd, Hpk, Hby. simpl.
      rewrite <- app_assoc, length_app, Nat2Z.inj_add.
      repeat split; lia.
Qed.

End DelegatedTurns.

Section DelegatedTurnsWitness.

Import Delegated.

Lemma delegated_unsized_frame_clears_buffer_witness :
  exists st',
    frame_step Codec8.decode_for_index 5
      (mkState (mkSession None 0 1 0 45) None Codec8.one_record_frame [] false [] [])
      = (Break, st') /\
    dataBuffer st' = [] /\
    session st' = mkSession None 0 1 0 45 /\
    authenticatedIMEI st' = None /\
    written st' = [] /\
    immediates st' = [] /\
    destroyed st' = false /\
    console st' = [] ++ [LogCouldNotDetermine].
Proof.
  apply (delegated_unsized_frame_clears_buffer Codec8.decode_for_index 5
           (mkState (mkSession None 0 1 0 45) None Codec8.one_record_frame
              [] false [] [])
           (mkParser None None)).
  - reflexivity.
  - left. split; [reflexivity |]. left. reflexivity.
Defined.

Lemma delegated_undecodable_bytes_are_kept_witness :
  dataBuffer (receive Codec8.decode_for_index
                [(1, take 5 Codec8.login_frame); (2, take 5 (drop 5 Codec8.login_frame))]
                (handleGpsConnection 0))
    = dataBuffer (handleGpsConnection 0) ++
      concat (map snd [(1, take 5 Codec8.login_frame);
                       (2, take 5 (drop 5 Codec8.login_frame))]) /\
  written (receive Codec8.decode_for_index
             [(1, take 5 Codec8.login_frame); (2, take 5 (drop 5 Codec8.login_frame))]
             (handleGpsConnection 0)) = written (handleGpsConnection 0) /\
  immediates (receive Codec8.decode_for_index
                [(1, take 5 Codec8.login_frame); (2, take 5 (drop 5 Codec8.login_frame))]
                (handleGpsConnection 0)) = immediates (handleGpsConnection 0) /\
  destroyed (receive Codec8.decode_for_index
               [(1, take 5 Codec8.login_frame); (2, take 5 (drop 5 Codec8.login_frame))]
               (handleGpsConnection 0)) = destroyed (handleGpsConnection 0) /\
  packetsReceived (session (receive Codec8.decode_for_index
               [(1, take 5 Codec8.login_frame); (2, take 5 (drop 5 Codec8.login_frame))]
               (handleGpsConnection 0)))
    = packetsReceived (session (handleGpsConnection 0)) /\
  bytesReceived (session (receive Codec8.decode_for_index
               [(1, take 5 Codec8.login_frame); (2, take 5 (drop 5 Codec8.login_frame))]
               (handleGpsConnection 0)))
    = bytesReceived (session (handleGpsConnection 0)) +
      Z.of_nat (length (concat (map snd [(1, take 5 Codec8.login_frame);
                                         (2, take 5 (drop 5 Codec8.login_frame))]))).
Proof.
  apply (delegated_undecodable_bytes_are_kept Codec8.decode_for_index
           [(1, take 5 Codec8.login_frame); (2, take 5 (drop 5 Codec8.login_frame))]
           (handleGpsConnection 0)).
  - intros k Hk.
    destruct k as [| [| [| k]]]; [lia | reflexivity | reflexivity | simpl in Hk; lia].
  - vm_compute. discriminate.
Defined.

End DelegatedTurnsWitness.
